(** * HXL validation engine (hxl/validation.py): a shallow embedding

    The development follows the layout of the Python module:

    - the edit-distance matcher ([find_closest_match],
      [get_common_prefix_len], [get_edit_distance]);
    - [SchemaRule] with its per-value, per-row and deferred checks;
    - [Schema] with its three validation phases and [Schema.parse].

    Python strings are modelled as [string]; the matcher looks at them as
    sequences of characters ([list ascii]).  Python integers are unbounded:
    counters and distances are [nat], parsed integers are [Z].
    Dictionaries are association lists in insertion order.  A method is a
    function from the state of its object to an outcome: the value returned,
    the state afterwards and the calls of the callback, or an exception.

    What the module imports from hxl.model, hxl.datatypes and the Python
    library is gathered in the class [Lib]; the validation code is written
    once for every such library, and [Plain.lib] is a small one on which it
    can be run. *)

From Stdlib Require Import List String Ascii Arith ZArith QArith Bool Lia.
Import ListNotations.
Local Open Scope string_scope.
Local Open Scope list_scope.
Local Open Scope nat_scope.

(** ** Python built-ins used throughout *)

(** [enumerate(l)], started at [n]. *)
Fixpoint enumerate_from {A : Type} (n : nat) (l : list A) : list (nat * A) :=
  match l with
  | [] => []
  | x :: l' => (n, x) :: enumerate_from (S n) l'
  end.

Definition enumerate {A : Type} (l : list A) : list (nat * A) :=
  enumerate_from 0 l.

(** The characters of a string, in order. *)
Definition chars (s : string) : list ascii := list_ascii_of_string s.

Definition len (s : string) : nat := List.length (chars s).

(** [min((a, b, c))] *)
Definition min3 (a b c : nat) : nat := Nat.min a (Nat.min b c).

(** ** Edit-distance matcher *)

Module Matcher.

(** *** [get_common_prefix_len]

    <<
    i = 0
    for i, (x, y) in enumerate(zip(s1, s2)):
        if x != y:
            break
    return i
    >>
    The loop variable [i] is what is returned: the loop is modelled as a
    recursion over the enumerated pairs that carries the last value bound
    to [i]. *)
Fixpoint prefix_loop (i : nat) (pairs : list (nat * (ascii * ascii))) : nat :=
  match pairs with
  | [] => i
  | (i', (x, y)) :: rest =>
      if negb (Ascii.eqb x y) then i' else prefix_loop i' rest
  end.

Definition get_common_prefix_len (s1 s2 : string) : nat :=
  prefix_loop 0 (enumerate (combine (chars s1) (chars s2))).

(** The length of the longest common prefix, as the docstring words it. *)
Fixpoint common_prefix_length (l1 l2 : list ascii) : nat :=
  match l1, l2 with
  | x :: l1', y :: l2' =>
      if Ascii.eqb x y then S (common_prefix_length l1' l2') else 0
  | _, _ => 0
  end.

(** *** [get_edit_distance]

    [distances] is the previous row of the matrix and [distances_] the row
    being built.  List indexing is [nth]; [edit_rows_length] shows that the
    indices read are in range. *)
Definition inner_step (c2 : ascii) (distances : list nat)
    (distances_ : list nat) (ic : nat * ascii) : list nat :=
  let '(i1, c1) := ic in
  if Ascii.eqb c1 c2 then
    distances_ ++ [nth i1 distances 0]
  else
    distances_ ++
      [1 + min3 (nth i1 distances 0) (nth (i1 + 1) distances 0)
                (last distances_ 0)].

Definition outer_step (s1 : list ascii) (distances : list nat)
    (ic : nat * ascii) : list nat :=
  let '(i2, c2) := ic in
  fold_left (inner_step c2 distances) (enumerate s1) [i2 + 1].

Definition edit_rows (s1 s2 : list ascii) : list nat :=
  fold_left (outer_step s1) (enumerate s2) (seq 0 (List.length s1 + 1)).

Definition get_edit_distance (s1 s2 : string) : nat :=
  let '(s1, s2) :=
    if (len s2 <? len s1)%nat then (chars s2, chars s1) else (chars s1, chars s2) in
  last (edit_rows s1 s2) 0.

(** *** Levenshtein distance

    The distance is the least cost of an edit script turning [s] into [t];
    a script keeps, substitutes, deletes or inserts one character at a time,
    and every operation but keeping costs one. *)
Inductive edits : list ascii -> list ascii -> nat -> Prop :=
| edits_nil : edits [] [] 0
| edits_keep a s t n : edits s t n -> edits (a :: s) (a :: t) n
| edits_subst a b s t n : edits s t n -> edits (a :: s) (b :: t) (S n)
| edits_delete a s t n : edits s t n -> edits (a :: s) t (S n)
| edits_insert b s t n : edits s t n -> edits s (b :: t) (S n).

Definition is_levenshtein (s t : list ascii) (d : nat) : Prop :=
  edits s t d /\ forall n, edits s t n -> d <= n.

(** The usual recurrence on the tails of the two strings. *)
Fixpoint lev (s t : list ascii) : nat :=
  match s with
  | [] => List.length t
  | a :: s' =>
      (fix lev_s (t : list ascii) : nat :=
         match t with
         | [] => List.length s
         | b :: t' =>
             if Ascii.eqb a b then lev s' t'
             else 1 + min3 (lev s' t) (lev_s t') (lev s' t')
         end) t
  end.

(** Row [p2] of the matrix over [s1]: entry [i] is the distance between the
    first [i] characters of [s1] and [p2]. *)
Definition row_of (s1 p2 : list ascii) (n : nat) : list nat :=
  map (fun i => lev (firstn i s1) p2) (seq 0 n).

(** *** [find_closest_match]

    [max_distance = len(s) / 2] is a true division; the cutoff test
    [distance > max_distance] is made on rationals. *)
Definition max_distance (s : string) : Q := inject_Z (Z.of_nat (len s)) / 2.

Definition exceeds (distance : nat) (bound : Q) : bool :=
  negb (Qle_bool (inject_Z (Z.of_nat distance)) bound).

(** [best_match] is [None] or a triple [(value, distance, prefix_len)]. *)
Definition best := option (string * nat * nat).

Definition closest_step (s : string) (best_match : best) (value : string)
    : best :=
  let distance := get_edit_distance s value in
  if (match best_match with
      | Some (_, d, _) => (d <? distance)%nat
      | None => false
      end) || exceeds distance (max_distance s)
  then best_match
  else
    let prefix_len := get_common_prefix_len s value in
    match best_match with
    | None => Some (value, distance, prefix_len)
    | Some (_, d, p) =>
        if ((distance <? d) || ((distance =? d) && (p <? prefix_len)))%nat
        then Some (value, distance, prefix_len)
        else best_match
    end.

Definition find_closest_match (s : string) (allowed_values : list string)
    : option string :=
  match fold_left (closest_step s) allowed_values None with
  | None => None
  | Some (value, _, _) => Some value
  end.

(** The state of the loop after the candidates [seen]. *)
Definition closest_inv (s : string) (seen : list string) (b : best) : Prop :=
  match b with
  | None => forall c, In c seen ->
      exceeds (get_edit_distance s c) (max_distance s) = true
  | Some (v, d, p) =>
      In v seen /\ d = get_edit_distance s v /\
      p = get_common_prefix_len s v /\
      exceeds d (max_distance s) = false /\
      forall c, In c seen ->
        exceeds (get_edit_distance s c) (max_distance s) = false ->
        d <= get_edit_distance s c /\
        (get_edit_distance s c = d -> get_common_prefix_len s c <= p)
  end.

End Matcher.

(** ** Python run time: exceptions, truth values, dictionaries *)

Inductive exn : Type :=
| HXLException (message : string)
| ValueError
| KeyError
| IndexError
| TypeError
| re_error.

(** The result of a call: a value, or a raised exception. *)
Inductive outcome (A : Type) : Type :=
| Ret (a : A)
| Raise (e : exn).
Arguments Ret {A} a.
Arguments Raise {A} e.

(** Truth value of a string and of a list ([if s:], [if l:]). *)
Definition truthy (s : string) : bool := negb (String.eqb s "").

Definition nonempty {A : Type} (l : list A) : bool :=
  match l with [] => false | _ => true end.

(** [not x] where [x] is [None], [True] or [False]. *)
Definition py_not (x : option bool) : bool :=
  match x with Some true => false | _ => true end.

(** A [dict] keeps its keys in insertion order, and the deferred checks
    sort its items with a stable sort: dictionaries are association lists
    without repeated keys, in insertion order. *)
Definition dict (K V : Type) : Type := list (K * V).

Section Dict.
Context {K V : Type} (eqb : K -> K -> bool).

(** [d.get(k)] *)
Fixpoint dict_get (d : dict K V) (k : K) : option V :=
  match d with
  | [] => None
  | (k', v) :: d' => if eqb k k' then Some v else dict_get d' k
  end.

(** [k in d] *)
Definition dict_mem (d : dict K V) (k : K) : bool :=
  match dict_get d k with Some _ => true | None => false end.

(** [d[k] = v] *)
Fixpoint dict_set (d : dict K V) (k : K) (v : V) : dict K V :=
  match d with
  | [] => [(k, v)]
  | (k', v') :: d' =>
      if eqb k k' then (k', v) :: d' else (k', v') :: dict_set d' k v
  end.

(** [d.setdefault(k, default)] followed by an in-place change [f] of the
    object it returns. *)
Fixpoint dict_update (d : dict K V) (k : K) (default : V) (f : V -> V)
    : dict K V :=
  match d with
  | [] => [(k, f default)]
  | (k', v') :: d' =>
      if eqb k k' then (k', f v') :: d'
      else (k', v') :: dict_update d' k default f
  end.
End Dict.

(** The number of entries held under a dictionary, where [size] counts the
    entries of one of its values. *)
Definition dict_total {K V : Type} (size : V -> nat) (d : dict K V) : nat :=
  fold_right (fun kv n => size (snd kv) + n) 0 d.

(** [sorted(items, key=key, reverse=True)]: stable, so items with equal
    keys keep their order. *)
Section Sorted.
Context {A : Type} (leb : A -> A -> bool).

(** [leb x y]: [x] may stay in front of [y]. *)
Fixpoint insert_sorted (x : A) (l : list A) : list A :=
  match l with
  | [] => [x]
  | y :: l' => if leb x y then x :: l else y :: insert_sorted x l'
  end.

(** Items are inserted from the last to the first, each in front of the
    items it may precede. *)
Definition sorted (l : list A) : list A :=
  fold_right insert_sorted [] l.
End Sorted.

(** ** Methods

    A method runs on the state of an object, may change it, may report and
    may raise: it maps the state to an outcome holding the returned value,
    the state afterwards and what was reported, in order. *)
Section Exec.
Context {S W : Type}.

Definition exec (A : Type) : Type := S -> outcome (A * S * list W).

Definition ret {A : Type} (a : A) : exec A := fun s => Ret (a, s, []).

Definition bind {A B : Type} (m : exec A) (f : A -> exec B) : exec B :=
  fun s =>
    match m s with
    | Raise e => Raise e
    | Ret (a, s', ws) =>
        match f a s' with
        | Raise e => Raise e
        | Ret (b, s'', ws') => Ret (b, s'', ws ++ ws')
        end
    end.

Definition raise {A : Type} (e : exn) : exec A := fun _ => Raise e.

Definition get_state : exec S := fun s => Ret (s, s, []).

Definition modify (f : S -> S) : exec unit := fun s => Ret (tt, f s, []).

(** An operation of the library that raises when it has no result. *)
Definition or_raise {A : Type} (x : option A) (e : exn) : exec A :=
  match x with
  | Some a => ret a
  | None => raise e
  end.

(** [for x in l: acc = body(acc, x)] *)
Fixpoint for_each {A B : Type} (l : list A) (body : B -> A -> exec B)
    (acc : B) : exec B :=
  match l with
  | [] => ret acc
  | x :: l' => bind (body acc x) (for_each l' body)
  end.

(** [ensures m s Q]: when [m] run on [s] returns, [Q] holds of the value
    returned, the state afterwards and what was reported. *)
Definition ensures {A : Type} (m : exec A) (s : S)
    (Q : A -> S -> list W -> Prop) : Prop :=
  match m s with
  | Ret (a, s', ws) => Q a s' ws
  | Raise _ => True
  end.

(** [raises m s]: [m] run on [s] raises an exception. *)
Definition raises {A : Type} (m : exec A) (s : S) : Prop :=
  exists e, m s = Raise e.

End Exec.
Arguments exec : clear implicits.

Notation "x <- m ;; k" := (bind m (fun x => k))
  (at level 61, m at next level, right associativity).
Notation "m ;;; k" := (bind m (fun _ => k))
  (at level 61, right associativity).

(** ** The HXL data model (hxl.model), as far as validation reads it *)

(** A column: its hashtag, its attributes and its display tag. *)
Record Column : Type := {
  tag : string;
  attributes : list string;
  display_tag : string
}.

(** A tag pattern: a hashtag, attributes that must be present and
    attributes that must be absent. *)
Record TagPattern : Type := {
  pattern_tag : string;
  include_attributes : list string;
  exclude_attributes : list string
}.

(** A row: an ordered sequence of (column, value) pairs. *)
Record Row : Type := {
  row_number : nat;
  cells : list (Column * string)
}.

Definition columns (r : Row) : list Column := map fst (cells r).
Definition values (r : Row) : list string := map snd (cells r).

(** A location recorded for a deferred check. *)
Definition location : Type := Row * Column.

(** The key of a row: a tuple of normalised values. *)
Definition Key : Type := list string.

Definition key_eqb (k1 k2 : Key) : bool :=
  if list_eq_dec string_dec k1 k2 then true else false.

(** Comparison of two tuples of strings, element by element; a tuple that
    is a proper prefix of another comes first. *)
Fixpoint key_compare (k1 k2 : Key) : comparison :=
  match k1, k2 with
  | [], [] => Eq
  | [], _ :: _ => Lt
  | _ :: _, [] => Gt
  | s1 :: k1', s2 :: k2' =>
      match String.compare s1 s2 with
      | Eq => key_compare k1' k2'
      | c => c
      end
  end.

(** [', '.join(l)] *)
Definition join (sep : string) (l : list string) : string :=
  String.concat sep l.

(** The characters of a string as one-character strings (iterating over a
    [str]). *)
Definition letters (s : string) : list string :=
  map (fun c => String c EmptyString) (chars s).

(** [unique_key] and [correlation_key] hold the text of a pattern list until
    [init] replaces it by the parsed patterns. *)
Inductive key_spec : Type :=
| KeyText (s : string)
| KeyPatterns (l : list TagPattern).

Definition key_spec_truthy (k : key_spec) : bool :=
  match k with
  | KeyText s => truthy s
  | KeyPatterns l => nonempty l
  end.

(** A regular expression: its source, or the object made by [re.compile]. *)
Inductive Regex : Type :=
| Source (s : string)
| Compiled (s : string).

Definition regex_truthy (r : Regex) : bool :=
  match r with
  | Source s => truthy s
  | Compiled _ => true
  end.

(** [re.IGNORECASE] *)
Definition IGNORECASE : Z := 2%Z.

(** What the module takes from hxl.model, hxl.datatypes and the Python
    library.  The validation code is a function of these; an operation that
    can raise returns an [option], [None] standing for the exception. *)
Class Lib : Type := {
  (* hxl.model *)
  tp_match : TagPattern -> Column -> bool;
  tp_parse : string -> option TagPattern;
  tp_parse_list : key_spec -> option (list TagPattern);
  tp_str : TagPattern -> string;
  row_key : Row -> key_spec -> Key;
  row_get : Row -> string -> option string;
  get_value_set : string -> option string -> option (list string);
  (* hxl.datatypes *)
  is_empty : string -> bool;
  normalise_space : string -> string;
  normalise_string : string -> string;
  normalise : string -> option Column -> string;
  is_number : string -> bool;
  is_date : string -> bool;
  typeof : string -> Column -> string;
  (* Python *)
  Float : Type;
  float : string -> option Float;
  float_lt : Float -> Float -> bool;
  str_float : Float -> string;
  int : string -> option Z;
  str_int : Z -> string;
  str_list : list string -> string;
  str_key_spec : key_spec -> string;
  str_regex : Regex -> string;
  lower : string -> string;
  urlparse : string -> string * string;
  re_compile : string -> option Regex;
  re_match : Regex -> string -> Z -> option bool;
  re_split_bar : string -> list string
}.

(** ** Validation errors *)

(** The payload handed to a callback.  Its [rule] attribute is always the
    rule that reports; the log of a [Schema] run pairs each payload with
    that rule. *)
Record HXLValidationException : Type := {
  message : string;
  value : option string;
  row : option Row;
  column : option Column;
  suggested_value : option string
}.

(** A callback is known by an identifier; an event is one call of a callback
    with its argument. *)
Definition event : Type := nat * HXLValidationException.

(** ** [SchemaRule] *)

Module SchemaRule.
Section WithLib.
Context {L : Lib}.

(** allow datatypes (others ignored) *)
Definition DATATYPES : list string :=
  ["text"; "number"; "url"; "email"; "phone"; "date"].

Record t : Type := {
  tag_pattern : TagPattern;
  min_occur : option Z;
  max_occur : option Z;
  data_type : option string;
  min_value : option Float;
  max_value : option Float;
  regex : option Regex;
  enum : option (list string);
  case_sensitive : bool;
  consistent_datatypes : bool;
  callback : option nat;
  severity : string;
  description : option string;
  required : bool;
  unique : bool;
  unique_key : option key_spec;
  correlation_key : option key_spec;
  _initialised : bool;
  _enum_map : option (dict string string);
  _unique_value_map : dict string bool;
  _unique_key_map : dict Key bool;
  _correlation_map : dict string (dict string (dict Key (list location)));
  _suggestion_map : dict string string;
  _consistency_map : dict string (dict string (list (Row * Column * string)))
}.

(** Assignment to an attribute of the rule. *)
Definition set_min_occur (x : option Z) (self : t) : t :=
  Build_t (tag_pattern self) x (max_occur self) (data_type self)
    (min_value self) (max_value self) (regex self) (enum self)
    (case_sensitive self) (consistent_datatypes self) (callback self)
    (severity self) (description self) (required self) (unique self)
    (unique_key self) (correlation_key self) (_initialised self)
    (_enum_map self) (_unique_value_map self) (_unique_key_map self)
    (_correlation_map self) (_suggestion_map self) (_consistency_map self).

Definition set_max_occur (x : option Z) (self : t) : t :=
  Build_t (tag_pattern self) (min_occur self) x (data_type self)
    (min_value self) (max_value self) (regex self) (enum self)
    (case_sensitive self) (consistent_datatypes self) (callback self)
    (severity self) (description self) (required self) (unique self)
    (unique_key self) (correlation_key self) (_initialised self)
    (_enum_map self) (_unique_value_map self) (_unique_key_map self)
    (_correlation_map self) (_suggestion_map self) (_consistency_map self).

Definition set_data_type (x : option string) (self : t) : t :=
  Build_t (tag_pattern self) (min_occur self) (max_occur self) x
    (min_value self) (max_value self) (regex self) (enum self)
    (case_sensitive self) (consistent_datatypes self) (callback self)
    (severity self) (description self) (required self) (unique self)
    (unique_key self) (correlation_key self) (_initialised self)
    (_enum_map self) (_unique_value_map self) (_unique_key_map self)
    (_correlation_map self) (_suggestion_map self) (_consistency_map self).

Definition set_min_value (x : option Float) (self : t) : t :=
  Build_t (tag_pattern self) (min_occur self) (max_occur self)
    (data_type self) x (max_value self) (regex self) (enum self)
    (case_sensitive self) (consistent_datatypes self) (callback self)
    (severity self) (description self) (required self) (unique self)
    (unique_key self) (correlation_key self) (_initialised self)
    (_enum_map self) (_unique_value_map self) (_unique_key_map self)
    (_correlation_map self) (_suggestion_map self) (_consistency_map self).

Definition set_max_value (x : option Float) (self : t) : t :=
  Build_t (tag_pattern self) (min_occur self) (max_occur self)
    (data_type self) (min_value self) x (regex self) (enum self)
    (case_sensitive self) (consistent_datatypes self) (callback self)
    (severity self) (description self) (required self) (unique self)
    (unique_key self) (correlation_key self) (_initialised self)
    (_enum_map self) (_unique_value_map self) (_unique_key_map self)
    (_correlation_map self) (_suggestion_map self) (_consistency_map self).

Definition set_regex (x : option Regex) (self : t) : t :=
  Build_t (tag_pattern self) (min_occur self) (max_occur self)
    (data_type self) (min_value self) (max_value self) x (enum self)
    (case_sensitive self) (consistent_datatypes self) (callback self)
    (severity self) (description self) (required self) (unique self)
    (unique_key self) (correlation_key self) (_initialised self)
    (_enum_map self) (_unique_value_map self) (_unique_key_map self)
    (_correlation_map self) (_suggestion_map self) (_consistency_map self).

Definition set_enum (x : option (list string)) (self : t) : t :=
  Build_t (tag_pattern self) (min_occur self) (max_occur self)
    (data_type self) (min_value self) (max_value self) (regex self) x
    (case_sensitive self) (consistent_datatypes self) (callback self)
    (severity self) (description self) (required self) (unique self)
    (unique_key self) (correlation_key self) (_initialised self)
    (_enum_map self) (_unique_value_map self) (_unique_key_map self)
    (_correlation_map self) (_suggestion_map self) (_consistency_map self).

Definition set_case_sensitive (x : bool) (self : t) : t :=
  Build_t (tag_pattern self) (min_occur self) (max_occur self)
    (data_type self) (min_value self) (max_value self) (regex self)
    (enum self) x (consistent_datatypes self) (callback self)
    (severity self) (description self) (required self) (unique self)
    (unique_key self) (correlation_key self) (_initialised self)
    (_enum_map self) (_unique_value_map self) (_unique_key_map self)
    (_correlation_map self) (_suggestion_map self) (_consistency_map self).

Definition set_consistent_datatypes (x : bool) (self : t) : t :=
  Build_t (tag_pattern self) (min_occur self) (max_occur self)
    (data_type self) (min_value self) (max_value self) (regex self)
    (enum self) (case_sensitive self) x (callback self) (severity self)
    (description self) (required self) (unique self) (unique_key self)
    (correlation_key self) (_initialised self) (_enum_map self)
    (_unique_value_map self) (_unique_key_map self) (_correlation_map self)
    (_suggestion_map self) (_consistency_map self).

Definition set_callback (x : option nat) (self : t) : t :=
  Build_t (tag_pattern self) (min_occur self) (max_occur self)
    (data_type self) (min_value self) (max_value self) (regex self)
    (enum self) (case_sensitive self) (consistent_datatypes self) x
    (severity self) (description self) (required self) (unique self)
    (unique_key self) (correlation_key self) (_initialised self)
    (_enum_map self) (_unique_value_map self) (_unique_key_map self)
    (_correlation_map self) (_suggestion_map self) (_consistency_map self).

Definition set_required (x : bool) (self : t) : t :=
  Build_t (tag_pattern self) (min_occur self) (max_occur self)
    (data_type self) (min_value self) (max_value self) (regex self)
    (enum self) (case_sensitive self) (consistent_datatypes self)
    (callback self) (severity self) (description self) x (unique self)
    (unique_key self) (correlation_key self) (_initialised self)
    (_enum_map self) (_unique_value_map self) (_unique_key_map self)
    (_correlation_map self) (_suggestion_map self) (_consistency_map self).

Definition set_unique (x : bool) (self : t) : t :=
  Build_t (tag_pattern self) (min_occur self) (max_occur self)
    (data_type self) (min_value self) (max_value self) (regex self)
    (enum self) (case_sensitive self) (consistent_datatypes self)
    (callback self) (severity self) (description self) (required self) x
    (unique_key self) (correlation_key self) (_initialised self)
    (_enum_map self) (_unique_value_map self) (_unique_key_map self)
    (_correlation_map self) (_suggestion_map self) (_consistency_map self).

Definition set_unique_key (x : option key_spec) (self : t) : t :=
  Build_t (tag_pattern self) (min_occur self) (max_occur self)
    (data_type self) (min_value self) (max_value self) (regex self)
    (enum self) (case_sensitive self) (consistent_datatypes self)
    (callback self) (severity self) (description self) (required self)
    (unique self) x (correlation_key self) (_initialised self)
    (_enum_map self) (_unique_value_map self) (_unique_key_map self)
    (_correlation_map self) (_suggestion_map self) (_consistency_map self).

Definition set_correlation_key (x : option key_spec) (self : t) : t :=
  Build_t (tag_pattern self) (min_occur self) (max_occur self)
    (data_type self) (min_value self) (max_value self) (regex self)
    (enum self) (case_sensitive self) (consistent_datatypes self)
    (callback self) (severity self) (description self) (required self)
    (unique self) (unique_key self) x (_initialised self) (_enum_map self)
    (_unique_value_map self) (_unique_key_map self) (_correlation_map self)
    (_suggestion_map self) (_consistency_map self).

Definition set_initialised (x : bool) (self : t) : t :=
  Build_t (tag_pattern self) (min_occur self) (max_occur self)
    (data_type self) (min_value self) (max_value self) (regex self)
    (enum self) (case_sensitive self) (consistent_datatypes self)
    (callback self) (severity self) (description self) (required self)
    (unique self) (unique_key self) (correlation_key self) x
    (_enum_map self) (_unique_value_map self) (_unique_key_map self)
    (_correlation_map self) (_suggestion_map self) (_consistency_map self).

Definition set_enum_map (x : option (dict string string)) (self : t) : t :=
  Build_t (tag_pattern self) (min_occur self) (max_occur self)
    (data_type self) (min_value self) (max_value self) (regex self)
    (enum self) (case_sensitive self) (consistent_datatypes self)
    (callback self) (severity self) (description self) (required self)
    (unique self) (unique_key self) (correlation_key self)
    (_initialised self) x (_unique_value_map self) (_unique_key_map self)
    (_correlation_map self) (_suggestion_map self) (_consistency_map self).

Definition set_unique_value_map (x : dict string bool) (self : t) : t :=
  Build_t (tag_pattern self) (min_occur self) (max_occur self)
    (data_type self) (min_value self) (max_value self) (regex self)
    (enum self) (case_sensitive self) (consistent_datatypes self)
    (callback self) (severity self) (description self) (required self)
    (unique self) (unique_key self) (correlation_key self)
    (_initialised self) (_enum_map self) x (_unique_key_map self)
    (_correlation_map self) (_suggestion_map self) (_consistency_map self).

Definition set_unique_key_map (x : dict Key bool) (self : t) : t :=
  Build_t (tag_pattern self) (min_occur self) (max_occur self)
    (data_type self) (min_value self) (max_value self) (regex self)
    (enum self) (case_sensitive self) (consistent_datatypes self)
    (callback self) (severity self) (description self) (required self)
    (unique self) (unique_key self) (correlation_key self)
    (_initialised self) (_enum_map self) (_unique_value_map self) x
    (_correlation_map self) (_suggestion_map self) (_consistency_map self).

Definition set_correlation_map (x : dict string (dict string (dict Key (list location))))
    (self : t) : t :=
  Build_t (tag_pattern self) (min_occur self) (max_occur self)
    (data_type self) (min_value self) (max_value self) (regex self)
    (enum self) (case_sensitive self) (consistent_datatypes self)
    (callback self) (severity self) (description self) (required self)
    (unique self) (unique_key self) (correlation_key self)
    (_initialised self) (_enum_map self) (_unique_value_map self)
    (_unique_key_map self) x (_suggestion_map self) (_consistency_map self).

Definition set_consistency_map (x : dict string (dict string (list (Row * Column * string))))
    (self : t) : t :=
  Build_t (tag_pattern self) (min_occur self) (max_occur self)
    (data_type self) (min_value self) (max_value self) (regex self)
    (enum self) (case_sensitive self) (consistent_datatypes self)
    (callback self) (severity self) (description self) (required self)
    (unique self) (unique_key self) (correlation_key self)
    (_initialised self) (_enum_map self) (_unique_value_map self)
    (_unique_key_map self) (_correlation_map self) (_suggestion_map self) x.

(** [SchemaRule(tag, ...)] with an already parsed tag pattern and the other
    arguments at their defaults. *)
Definition new (tag : TagPattern) : t :=
  {| tag_pattern := tag; min_occur := None; max_occur := None;
     data_type := None; min_value := None; max_value := None;
     regex := None; enum := None; case_sensitive := false;
     consistent_datatypes := false; callback := None;
     severity := "error"; description := None;
     required := false; unique := false;
     unique_key := None; correlation_key := None;
     _initialised := false; _enum_map := None;
     _unique_value_map := []; _unique_key_map := [];
     _correlation_map := []; _suggestion_map := [];
     _consistency_map := [] |}.

(** The check [__init__] makes on [data_type], for a parsed tag pattern; the
    other arguments are stored as they are given (here: their defaults). *)
Definition __init__ (tag : TagPattern) (data_type : option string)
    : outcome t :=
  match data_type with
  | None => Ret (new tag)
  | Some d =>
      if existsb (String.eqb d) DATATYPES
      then Ret (set_data_type data_type (new tag))
      else Raise (HXLException ("Unknown data type: " ++ d))
  end.

(** *** Methods

    A method runs on the rule [self]; its events are calls of a callback. *)
Definition M (A : Type) : Type := exec t event A.

Definition get_self : M t := get_state.

(** *** [init] and [_check_init] *)

Definition normalise_for (self : t) (s : string) : string :=
  if case_sensitive self then normalise_space s else normalise_string s.

Definition parse_key (k : option key_spec) (own : list TagPattern)
    : M (option key_spec) :=
  match k with
  | Some spec =>
      if key_spec_truthy spec then
        l <- or_raise (tp_parse_list spec) (HXLException "Malformed tag") ;;
        ret (Some (KeyPatterns (l ++ own)))
      else ret k
  | None => ret k
  end.

Definition init : M unit :=
  self <- get_self ;;
  (match enum self with
   | Some vs =>
       if nonempty vs then
         modify (set_enum_map
           (Some (fold_left
                    (fun m v => dict_set String.eqb m (normalise_for self v) v)
                    vs [])))
       else ret tt
   | None => ret tt
   end) ;;;
  uk <- parse_key (unique_key self) [tag_pattern self] ;;
  modify (set_unique_key uk) ;;;
  ck <- parse_key (correlation_key self) [] ;;
  modify (set_correlation_key ck) ;;;
  modify (set_initialised true).

Definition _check_init : M unit :=
  self <- get_self ;;
  if negb (_initialised self) then init else ret tt.

(** *** [_report_error] *)

Definition _report_error (message : string) (value : option string)
    (row : option Row) (column : option Column)
    (suggested_value : option string) : M bool :=
  fun self =>
    Ret (false, self,
         match callback self with
         | Some cb =>
             [(cb, Build_HXLValidationException
                     message value row column suggested_value)]
         | None => []
         end).

(** *** The tests on one value *)

Definition _test_type (value : string) (row : option Row)
    (column : option Column) (raw_value : string) : M bool :=
  self <- get_self ;;
  match data_type self with
  | None => ret true
  | Some dt =>
      if String.eqb dt "number" then
        if negb (is_number value) then
          _report_error "Expected a number"
            (Some value) row column (Some raw_value)
        else ret true
      else if String.eqb dt "url" then
        let '(scheme, netloc) := urlparse value in
        if negb (truthy scheme && truthy netloc) then
          _report_error "Expected a URL"
            (Some value) row column (Some raw_value)
        else ret true
      else if String.eqb dt "email" then
        found <- or_raise (re_match (Source "^[^@]+@[^@]+$") value 0%Z)
                   re_error ;;
        if negb found then
          _report_error "Expected an email address"
            (Some value) row column (Some raw_value)
        else ret true
      else if String.eqb dt "phone" then
        found <- or_raise (re_match (Source "^\+?[0-9xX()\s-]{5,}$") value 0%Z)
                   re_error ;;
        if negb found then
          _report_error "Expected a phone number"
            (Some value) row column (Some raw_value)
        else ret true
      else if String.eqb dt "date" then
        if negb (is_date value) then
          _report_error "Expected a date of some sort"
            (Some value) row column (Some raw_value)
        else ret true
      else ret true
  end.

(** The second comparison of [_test_range]; [result] is what the first one
    left. *)
Definition _test_range_max (value : string) (row : option Row)
    (column : option Column) (raw_value : string) (result : bool) : M bool :=
  self <- get_self ;;
  match max_value self with
  | None => ret result
  | Some mx =>
      match float value with
      | None => ret false (* except ValueError *)
      | Some v =>
          if float_lt mx v then
            _report_error ("Value is great than " ++ str_float mx)%string
              (Some raw_value) row column (Some raw_value)
          else ret result
      end
  end.

Definition _test_range (value : string) (row : option Row)
    (column : option Column) (raw_value : string) : M bool :=
  self <- get_self ;;
  match min_value self with
  | None => _test_range_max value row column raw_value true
  | Some mn =>
      match float value with
      | None => ret false (* except ValueError *)
      | Some v =>
          result <-
            (if float_lt v mn then
               _report_error ("Value is less than " ++ str_float mn)%string
                 (Some raw_value) row column (Some raw_value)
             else ret true) ;;
          _test_range_max value row column raw_value result
      end
  end.

Definition pattern_flags (self : t) : Z :=
  if case_sensitive self then IGNORECASE else 0%Z.

Definition _test_pattern (value : string) (row : option Row)
    (column : option Column) (raw_value : string) : M bool :=
  self <- get_self ;;
  match regex self with
  | None => ret true
  | Some rx =>
      if regex_truthy rx then
        found <- or_raise (re_match rx value (pattern_flags self)) re_error ;;
        if negb found then
          _report_error ("Failed to match pattern " ++ str_regex rx)%string
            (Some value) row column (Some raw_value) ;;;
          ret false
        else ret true
      else ret true
  end.

Definition _test_enumeration (value : string) (row : option Row)
    (column : option Column) (raw_value : string) : M bool :=
  self <- get_self ;;
  match _enum_map self with
  | None => ret true
  | Some enum_map =>
      if negb (dict_mem String.eqb enum_map value) then
        let closest := Matcher.find_closest_match value (map fst enum_map) in
        let suggested :=
          match dict_get String.eqb (_suggestion_map self) value with
          | Some memo => Some memo
          | None => closest
          end in
        suggested_value <-
          (match suggested with
           | Some sv =>
               if truthy sv then
                 original <- or_raise (dict_get String.eqb enum_map sv)
                               KeyError ;;
                 ret (Some original)
               else ret suggested
           | None => ret None
           end) ;;
        allowed <- or_raise (enum self) TypeError ;;
        let message :=
          if List.length allowed <=? 7
          then ("Must be one of " ++ str_list allowed)%string
          else "Not in allowed values" in
        _report_error message (Some raw_value) row column suggested_value
      else ret true
  end.

Definition _test_unique (value : string) (row : option Row)
    (column : option Column) (raw_value : string) : M bool :=
  self <- get_self ;;
  if unique self then
    let normalised_value := normalise value column in
    match dict_get String.eqb (_unique_value_map self) normalised_value with
    | Some true =>
        _report_error "Found duplicate value"
          (Some raw_value) row column None
    | _ =>
        modify (fun self =>
          set_unique_value_map
            (dict_set String.eqb (_unique_value_map self)
               normalised_value true) self) ;;;
        ret true
    end
  else ret true.

(** *** [validate]: one value *)

Definition validate (raw_value : string) (row : option Row)
    (column : option Column) : M bool :=
  _check_init ;;;
  if is_empty raw_value then ret true
  else
    self <- get_self ;;
    let value := normalise_for self raw_value in
    ok_type <- _test_type value row column raw_value ;;
    ok_range <- _test_range value row column raw_value ;;
    ok_pattern <- _test_pattern value row column raw_value ;;
    ok_enum <- _test_enumeration value row column raw_value ;;
    ok_unique <- _test_unique value row column raw_value ;;
    ret (ok_type && ok_range && ok_pattern && ok_enum && ok_unique).

(** *** [validate_columns] *)

Definition wants_columns (self : t) : bool :=
  required self ||
  match min_occur self with
  | Some n => (0 <? n)%Z
  | None => false
  end.

Definition too_few_columns (self : t) (number_seen : nat) : bool :=
  (required self && (number_seen <? 1)) ||
  match min_occur self with
  | Some n => (Z.of_nat number_seen <? n)%Z
  | None => false
  end.

Definition str_option_int (n : option Z) : string :=
  match n with
  | Some z => str_int z
  | None => "None"
  end.

Definition validate_columns (cols : list Column) : M bool :=
  _check_init ;;;
  self <- get_self ;;
  if wants_columns self then
    let number_seen :=
      List.length (filter (tp_match (tag_pattern self)) cols) in
    if too_few_columns self number_seen then
      (if number_seen =? 0 then
         _report_error "column with this hashtag required but not found"
           None None None None
       else
         _report_error
           ("not enough columns with this hashtag (expected "
            ++ str_option_int (min_occur self) ++ " but found "
            ++ str_int (Z.of_nat number_seen) ++ ")")%string
           None None None None) ;;;
      ret false
    else ret true
  else ret true.

(** *** [validate_row] *)

(** [row.get_all(pattern)]: the values of the matching columns, in column
    order. *)
Definition get_all (r : Row) (pattern : TagPattern) : list string :=
  map snd (filter (fun c => tp_match pattern (fst c)) (cells r)).

Definition first_matching (pattern : TagPattern) (cols : list Column)
    : option Column :=
  find (tp_match pattern) cols.

Definition last_matching (pattern : TagPattern) (cols : list Column)
    : option Column :=
  last (map Some (filter (tp_match pattern) cols)) None.

(** The local variable [column] after a loop [for column in row.columns]
    that runs to the end, and after one that stops at the first match. *)
Definition after_scan (column : option Column) (cols : list Column)
    : option Column :=
  last (map Some cols) column.

Definition after_scan_break (pattern : TagPattern) (column : option Column)
    (cols : list Column) : option Column :=
  match first_matching pattern cols with
  | Some c => Some c
  | None => after_scan column cols
  end.

(** The loop over the matching values: [result] and [number_seen]. *)
Definition validate_values (r : Row) (vs : list string) : M (bool * nat) :=
  for_each (enumerate vs)
    (fun acc cv =>
       let '(result, number_seen) := acc in
       let '(column_number, v) := cv in
       col <- or_raise (nth_error (columns r) column_number) IndexError ;;
       ok <- validate v (Some r) (Some col) ;;
       ret (if negb ok then false else result,
            if truthy v then number_seen + 1 else number_seen))
    (true, 0).

(** The four row-scoped tests; they share [result] and the local variable
    [column]. *)
Definition check_required (r : Row) (number_seen : nat)
    (st : bool * option Column) : M (bool * option Column) :=
  self <- get_self ;;
  let '(result, column) := st in
  if required self && (number_seen <? 1) then
    let empty_column := first_matching (tag_pattern self) (columns r) in
    res <- _report_error
             ("A value for " ++ tp_str (tag_pattern self)
              ++ " was required.")%string
             None (Some r) empty_column None ;;
    ret (res, after_scan_break (tag_pattern self) column (columns r))
  else ret st.

Definition check_min_occur (r : Row) (number_seen : nat)
    (st : bool * option Column) : M (bool * option Column) :=
  self <- get_self ;;
  let '(result, column) := st in
  match min_occur self with
  | Some n =>
      if (Z.of_nat number_seen <? n)%Z then
        let empty_column := last_matching (tag_pattern self) (columns r) in
        res <- _report_error
                 ("Expected at least " ++ str_int n
                  ++ " instance(s) but found "
                  ++ str_int (Z.of_nat number_seen))%string
                 None (Some r) empty_column None ;;
        ret (res, after_scan column (columns r))
      else ret st
  | None => ret st
  end.

Definition check_max_occur (r : Row) (number_seen : nat)
    (st : bool * option Column) : M (bool * option Column) :=
  self <- get_self ;;
  let '(result, column) := st in
  match max_occur self with
  | Some n =>
      if (n <? Z.of_nat number_seen)%Z then
        let non_empty_column := last_matching (tag_pattern self) (columns r) in
        res <- _report_error
                 ("Expected at most " ++ str_int n
                  ++ " instance(s) but found "
                  ++ str_int (Z.of_nat number_seen))%string
                 None (Some r) non_empty_column None ;;
        ret (res, after_scan column (columns r))
      else ret st
  | None => ret st
  end.

Definition check_unique_key (r : Row) (st : bool * option Column)
    : M (bool * option Column) :=
  self <- get_self ;;
  let '(result, column) := st in
  match unique_key self with
  | Some spec =>
      let key := row_key r spec in
      match dict_get key_eqb (_unique_key_map self) key with
      | Some true =>
          res <- _report_error
                   ("Duplicate row according to tag patterns "
                    ++ str_key_spec spec)%string
                   None (Some r) column None ;;
          ret (res, column)
      | _ =>
          modify (fun self =>
            set_unique_key_map
              (dict_set key_eqb (_unique_key_map self) key true) self) ;;;
          ret st
      end
  | None => ret st
  end.

(** [m.setdefault(hashtag, {}).setdefault(value, {}).setdefault(key, [])
    .append(location)] *)
Definition record_correlation
    (m : dict string (dict string (dict Key (list location))))
    (hashtag v : string) (key : Key) (loc : location)
    : dict string (dict string (dict Key (list location))) :=
  dict_update String.eqb m hashtag []
    (fun by_value =>
       dict_update String.eqb by_value v []
         (fun by_key =>
            dict_update key_eqb by_key key [] (fun locs => locs ++ [loc]))).

(** The correlation loop stops at the first matching value that is not
    empty. *)
Fixpoint track_correlation (r : Row) (pattern : TagPattern) (key : Key)
    (cs : list (Column * string))
    (m : dict string (dict string (dict Key (list location))))
    : dict string (dict string (dict Key (list location))) :=
  match cs with
  | [] => m
  | (col, v) :: cs' =>
      if tp_match pattern col then
        if is_empty v then track_correlation r pattern key cs' m
        else record_correlation m (display_tag col) (normalise v None) key
               (r, col)
      else track_correlation r pattern key cs' m
  end.

(** [m.setdefault(hashtag, {}).setdefault(type, []).append(entry)] *)
Definition record_datatype
    (m : dict string (dict string (list (Row * Column * string))))
    (hashtag type : string) (entry : Row * Column * string)
    : dict string (dict string (list (Row * Column * string))) :=
  dict_update String.eqb m hashtag []
    (fun by_type =>
       dict_update String.eqb by_type type [] (fun es => es ++ [entry])).

(** The datatype loop visits every matching value. *)
Definition track_datatypes (r : Row) (pattern : TagPattern)
    (cs : list (Column * string))
    (m : dict string (dict string (list (Row * Column * string))))
    : dict string (dict string (list (Row * Column * string))) :=
  fold_left
    (fun m cv =>
       let '(col, v) := cv in
       if tp_match pattern col then
         if is_empty v then m
         else record_datatype m (display_tag col) (typeof v col) (r, col, v)
       else m)
    cs m.

Definition validate_row (r : Row) : M bool :=
  _check_init ;;;
  self <- get_self ;;
  let vs := get_all r (tag_pattern self) in
  let column := first_matching (tag_pattern self) (columns r) in
  seen <- validate_values r vs ;;
  let '(result, number_seen) := seen in
  st <- check_required r number_seen (result, column) ;;
  st <- check_min_occur r number_seen st ;;
  st <- check_max_occur r number_seen st ;;
  st <- check_unique_key r st ;;
  self <- get_self ;;
  (match correlation_key self with
   | Some spec =>
       modify (fun self =>
         set_correlation_map
           (track_correlation r (tag_pattern self) (row_key r spec)
              (cells r) (_correlation_map self)) self)
   | None => ret tt
   end) ;;;
  (if consistent_datatypes self then
     modify (fun self =>
       set_consistency_map
         (track_datatypes r (tag_pattern self) (cells r)
            (_consistency_map self)) self)
   else ret tt) ;;;
  ret (fst st).

(** *** [_finish_correlations] *)

(** [expected_values[hashtag]] while it is being filled: for every key, how
    often each value occurs. *)
Definition count_values (by_value : dict string (dict Key (list location)))
    : dict Key (dict string nat) :=
  fold_left
    (fun counts item =>
       let '(v, keys) := item in
       fold_left
         (fun counts entry =>
            let '(key, locations) := entry in
            dict_update key_eqb counts key []
              (fun by_val =>
                 dict_update String.eqb by_val v 0
                   (fun n => n + List.length locations)))
         keys counts)
    by_value [].

(** [sorted(values.items(), key=lambda e: e[1], reverse=True)] *)
Definition by_count_desc (x y : string * nat) : bool := snd y <=? snd x.

(** The most common value of every key. *)
Fixpoint top_values (counts : dict Key (dict string nat))
    : M (dict Key string) :=
  match counts with
  | [] => ret []
  | (key, vals) :: counts' =>
      match sorted by_count_desc vals with
      | [] => raise IndexError
      | (top, _) :: _ =>
          rest <- top_values counts' ;;
          ret ((key, top) :: rest)
      end
  end.

Definition expected_values_of
    (m : dict string (dict string (dict Key (list location))))
    : M (dict string (dict Key string)) :=
  for_each m
    (fun expected item =>
       let '(hashtag, by_value) := item in
       match count_values by_value with
       | [] => raise KeyError (* expected_values[hashtag] was never set *)
       | counts =>
           tops <- top_values counts ;;
           ret (dict_set String.eqb expected hashtag tops)
       end)
    [].

(** [sort_entries]: the number of locations, then the key; the entries are
    sorted with [reverse=True]. *)
Definition sort_entries_desc (x y : Key * list location) : bool :=
  match Nat.compare (List.length (snd y)) (List.length (snd x)) with
  | Lt => true
  | Gt => false
  | Eq =>
      match key_compare (fst y) (fst x) with
      | Gt => false
      | _ => true
      end
  end.

(** [', '.join([str(pattern) for pattern in self.correlation_key])] *)
Definition related_columns (self : t) : M string :=
  match correlation_key self with
  | Some (KeyPatterns l) => ret (join ", " (map tp_str l))
  | Some (KeyText s) => ret (join ", " (letters s))
  | None => raise TypeError
  end.

Definition report_locations (v : string) (suggested_value : option string)
    (locations : list location) : M unit :=
  for_each locations
    (fun _ loc =>
       let '(r, col) := loc in
       self <- get_self ;;
       related <- related_columns self ;;
       _report_error ("wrong value for related column(s) " ++ related)%string
         (Some v) (Some r) (Some col) suggested_value ;;;
       ret tt)
    tt.

Definition report_deviations (expected : dict string (dict Key string))
    (hashtag v : string) (key_locations : list (Key * list location))
    : M unit :=
  for_each key_locations
    (fun _ entry =>
       let '(key, locations) := entry in
       by_key <- or_raise (dict_get String.eqb expected hashtag) KeyError ;;
       top <- or_raise (dict_get key_eqb by_key key) KeyError ;;
       let suggested_value :=
         if String.eqb v top then None else Some top in
       report_locations v suggested_value locations)
    tt.

Definition _finish_correlations : M bool :=
  self <- get_self ;;
  let m := _correlation_map self in
  if nonempty m then
    expected <- expected_values_of m ;;
    for_each m
      (fun result item =>
         let '(hashtag, by_value) := item in
         for_each by_value
           (fun result entry =>
              let '(v, keys) := entry in
              if 1 <? List.length keys then
                let key_locations := sorted sort_entries_desc keys in
                report_deviations expected hashtag v (tl key_locations) ;;;
                ret false
              else ret result)
           result)
      true
  else ret true.

(** *** [_finish_consistency] *)

(** [sorted(m[hashtag].items(), key=lambda e: len(e[1]), reverse=True)] *)
Definition by_entries_desc (x y : string * list (Row * Column * string))
    : bool :=
  List.length (snd y) <=? List.length (snd x).

Definition report_inconsistent (expected_type : string)
    (type_data : string * list (Row * Column * string)) : M unit :=
  for_each (snd type_data)
    (fun _ entry =>
       let '(r, col, v) := entry in
       _report_error
         ("inconsistent datatype " ++ fst type_data
          ++ " (expected " ++ expected_type ++ ")")%string
         (Some v) (Some r) (Some col) None ;;;
       ret tt)
    tt.

(** The result is [None] when the function ends on its bare [return]. *)
Definition _finish_consistency : M (option bool) :=
  self <- get_self ;;
  let m := _consistency_map self in
  if negb (nonempty m) then ret None
  else
    result <-
      for_each m
        (fun result item =>
           let '(hashtag, by_type) := item in
           match sorted by_entries_desc by_type with
           | top :: ((_ :: _) as others) =>
               for_each others
                 (fun _ type_data => report_inconsistent (fst top) type_data)
                 tt ;;;
               ret false
           | _ => ret result
           end)
        true ;;
    ret (Some result).

(** *** [finish] *)

Definition finish : M bool :=
  ok <- _finish_correlations ;;
  let result := if negb ok then false else true in
  self <- get_self ;;
  if consistent_datatypes self then
    consistent <- _finish_consistency ;;
    ret (if py_not consistent then false else result)
  else ret result.

(** *** What a method reports *)

(** A method is quiet when it reports nothing unless it returns false. *)
Definition quiet (b : bool) (evs : list event) : Prop := b = true -> evs = [].

(** A row-scoped test leaves [result] alone and reports nothing, or sets
    [result] to false. *)
Definition keeps_or_fails (st st' : bool * option Column) (evs : list event)
    : Prop :=
  (evs = [] /\ fst st' = fst st) \/ fst st' = false.

(** What [_test_type] and [_test_range] hand to the callback. *)
Definition suggests (raw : string) (evs : list event) : Prop :=
  Forall (fun ev => suggested_value (snd ev) = Some raw) evs.

(** The messages of the errors of [_test_type], and the test that a message
    is one of them or starts like the two messages of [_test_range]. *)
Definition type_messages : list string :=
  ["Expected a number"; "Expected a URL"; "Expected an email address";
   "Expected a phone number"; "Expected a date of some sort"].

Definition is_type_or_range_message (msg : string) : bool :=
  existsb (String.eqb msg) type_messages
  || String.prefix "Value is less than " msg
  || String.prefix "Value is great than " msg.
(** *** The size of the accumulation maps *)

(** The locations filed in a correlation map and the entries filed in a
    consistency map. *)
Definition correlation_entries
    (m : dict string (dict string (dict Key (list location)))) : nat :=
  dict_total (dict_total (dict_total (@List.length location))) m.

Definition consistency_entries
    (m : dict string (dict string (list (Row * Column * string)))) : nat :=
  dict_total (dict_total (@List.length (Row * Column * string))) m.

(** From [self] to [self'] the uniqueness set, the unique-key set, the
    correlation map and the consistency map gain at most [a], [b], [c] and
    [d] entries, and the tag pattern stays. *)
Definition grows (a b c d : nat) (self self' : t) : Prop :=
  tag_pattern self' = tag_pattern self /\
  List.length (_unique_value_map self')
    <= List.length (_unique_value_map self) + a /\
  List.length (_unique_key_map self')
    <= List.length (_unique_key_map self) + b /\
  correlation_entries (_correlation_map self')
    <= correlation_entries (_correlation_map self) + c /\
  consistency_entries (_consistency_map self')
    <= consistency_entries (_consistency_map self) + d.

End WithLib.
End SchemaRule.

(** ** [Schema] *)

(** A data source: its header and its rows. *)
Record Dataset : Type := {
  dataset_columns : list Column;
  dataset_rows : list Row
}.

Module Schema.
Section WithLib.
Context {L : Lib}.

(** A schema holds references to rule objects; the same rule object may be
    listed more than once, and [impossible_rules] is keyed by the object. *)
Record t : Type := {
  rules : list nat;
  callback : option nat;
  impossible_rules : list nat
}.

(** The rule objects, by reference. *)
Definition heap : Type := nat -> SchemaRule.t.

Definition heap_set (h : heap) (ref : nat) (r : SchemaRule.t) : heap :=
  fun n => if n =? ref then r else h n.

(** The objects a schema method works on. *)
Record world : Type := {
  self : t;
  objects : heap
}.

(** An event of a run, with the reference of the rule that reported it. *)
Definition report : Type := nat * event.

Definition M (A : Type) : Type := exec world report A.

(** Run a method of the rule [ref] with the callback of the schema, if it
    has one, put in place of the rule's own for the time of the call. *)
Definition call_rule {A : Type} (ref : nat) (m : SchemaRule.M A) : M A :=
  fun w =>
    let rule := objects w ref in
    let old_callback := SchemaRule.callback rule in
    let rule :=
      match callback (self w) with
      | Some cb => SchemaRule.set_callback (Some cb) rule
      | None => rule
      end in
    match m rule with
    | Raise e => Raise e
    | Ret (a, rule', evs) =>
        Ret (a,
             {| self := self w;
                objects := heap_set (objects w) ref
                             (SchemaRule.set_callback old_callback rule') |},
             map (pair ref) evs)
    end.

Definition mark_impossible (ref : nat) (w : world) : world :=
  {| self := {| rules := rules (self w);
                callback := callback (self w);
                impossible_rules := ref :: impossible_rules (self w) |};
     objects := objects w |}.

Definition is_impossible (ref : nat) (w : world) : bool :=
  existsb (Nat.eqb ref) (impossible_rules (self w)).

Definition validate_columns (cols : list Column) : M bool :=
  w <- get_state ;;
  for_each (rules (self w))
    (fun result rule =>
       ok <- call_rule rule (SchemaRule.validate_columns cols) ;;
       if negb ok then
         modify (mark_impossible rule) ;;;
         ret false
       else ret result)
    true.

Definition validate_row (r : Row) : M bool :=
  w <- get_state ;;
  for_each (rules (self w))
    (fun result rule =>
       w <- get_state ;;
       if negb (is_impossible rule w) then
         ok <- call_rule rule (SchemaRule.validate_row r) ;;
         ret (if negb ok then false else result)
       else ret result)
    true.

Definition validate_dataset : M bool :=
  w <- get_state ;;
  for_each (rules (self w))
    (fun result rule =>
       ok <- call_rule rule SchemaRule.finish ;;
       ret (if negb ok then false else result))
    true.

Definition validate (source : Dataset) : M bool :=
  ok <- validate_columns (dataset_columns source) ;;
  let result := if negb ok then false else true in
  result <-
    for_each (dataset_rows source)
      (fun result r =>
         ok <- validate_row r ;;
         ret (if negb ok then false else result))
      result ;;
  ok <- validate_dataset ;;
  ret (if negb ok then false else result).

(** A phase is quiet when it reports nothing unless it returns false. *)
Definition quiet_run (b : bool) (reports : list report) : Prop :=
  b = true -> reports = [].

(** *** [Schema.parse] *)

(** [re.sub(r'[^a-z_-]', '', type)] *)
Definition is_type_char (c : ascii) : bool :=
  let n := nat_of_ascii c in
  ((97 <=? n) && (n <=? 122)) || (n =? 95) || (n =? 45).

Definition keep_type_chars (s : string) : string :=
  string_of_list_ascii (filter is_type_char (chars s)).

Definition is_truthy (s : option string) : bool :=
  match s with
  | Some x => truthy x
  | None => false
  end.

Definition parse_type (type : option string) : option string :=
  let type :=
    if is_truthy type then option_map (fun x => keep_type_chars (lower x)) type
    else type in
  match type with
  | Some x =>
      if existsb (String.eqb x) SchemaRule.DATATYPES then Some x else None
  | None => None
  end.

(** The helpers run on no object and report nothing. *)
Definition P (A : Type) : Type := exec unit event A.

Definition to_int (s : option string) : P (option Z) :=
  match s with
  | Some x =>
      if truthy x then n <- or_raise (int x) ValueError ;; ret (Some n)
      else ret None
  | None => ret None
  end.

Definition to_float (s : option string) : P (option Float) :=
  match s with
  | Some x =>
      if truthy x then n <- or_raise (float x) ValueError ;; ret (Some n)
      else ret None
  | None => ret None
  end.

Definition to_boolean (s : option string) : P bool :=
  match s with
  | Some x =>
      if negb (truthy x)
         || existsb (String.eqb (lower x)) ["0"; "n"; "no"; "f"; "false"]
      then ret false
      else if existsb (String.eqb (lower x)) ["y"; "yes"; "t"; "true"]
      then ret true
      else raise (HXLException ("Unrecognised true/false value: " ++ x))
  | None => ret false
  end.

(** A field that is neither absent, nor empty, nor one of the accepted
    spellings of a truth value. *)
Definition malformed_boolean (s : option string) : Prop :=
  exists x,
    s = Some x /\ truthy x = true /\
    existsb (String.eqb (lower x)) ["0"; "n"; "no"; "f"; "false"] = false /\
    existsb (String.eqb (lower x)) ["y"; "yes"; "t"; "true"] = false.

Definition to_regex (s : option string) : P (option Regex) :=
  match s with
  | Some x =>
      if truthy x then r <- or_raise (re_compile x) re_error ;; ret (Some r)
      else ret None
  | None => ret None
  end.

Definition text (s : option string) : string :=
  match s with
  | Some x => x
  | None => ""
  end.

(** The allowed values of a row of the schema specification. *)
Definition parse_enum (r : Row) : P (option (list string)) :=
  if is_truthy (row_get r "#valid_value+list") then
    ret (Some (re_split_bar (text (row_get r "#valid_value+list"))))
  else if is_truthy (row_get r "#valid_value+url") then
    vs <- or_raise
            (get_value_set (text (row_get r "#valid_value+url"))
               (row_get r "#valid_value+target_tag"))
            (HXLException "cannot read the value source") ;;
    ret (Some vs)
  else ret None.

(** The body of the loop for a row with a [#valid_tag]: the rule it
    declares, after [rule.init()]. *)
Definition parse_rule (tag : string) (r : Row) : P SchemaRule.t :=
  pattern <- or_raise (tp_parse tag) (HXLException "Malformed tag") ;;
  min_occur <- to_int (row_get r "#valid_required+min") ;;
  max_occur <- to_int (row_get r "#valid_required+max") ;;
  let data_type := parse_type (row_get r "#valid_datatype-consistent") in
  min_value <- to_float (row_get r "#valid_value+min") ;;
  max_value <- to_float (row_get r "#valid_value+max") ;;
  regex <- to_regex (row_get r "#valid_value+regex") ;;
  required <- to_boolean (row_get r "#valid_required-min-max") ;;
  unique <- to_boolean (row_get r "#valid_unique-key") ;;
  let unique_key := option_map KeyText (row_get r "#valid_unique+key") in
  let correlation_key := option_map KeyText (row_get r "#valid_correlation") in
  let severity :=
    match row_get r "#valid_severity" with
    | Some x => if truthy x then x else "error"
    | None => "error"
    end in
  let description := row_get r "#description" in
  case_sensitive <- to_boolean (row_get r "#valid_value+case") ;;
  consistent_datatypes <- to_boolean (row_get r "#valid_datatype+consistent") ;;
  enum <- parse_enum r ;;
  let rule :=
    {| SchemaRule.tag_pattern := pattern;
       SchemaRule.min_occur := min_occur;
       SchemaRule.max_occur := max_occur;
       SchemaRule.data_type := data_type;
       SchemaRule.min_value := min_value;
       SchemaRule.max_value := max_value;
       SchemaRule.regex := regex;
       SchemaRule.enum := enum;
       SchemaRule.case_sensitive := case_sensitive;
       SchemaRule.consistent_datatypes := consistent_datatypes;
       SchemaRule.callback := None;
       SchemaRule.severity := severity;
       SchemaRule.description := description;
       SchemaRule.required := required;
       SchemaRule.unique := unique;
       SchemaRule.unique_key := unique_key;
       SchemaRule.correlation_key := correlation_key;
       SchemaRule._initialised := false;
       SchemaRule._enum_map := None;
       SchemaRule._unique_value_map := [];
       SchemaRule._unique_key_map := [];
       SchemaRule._correlation_map := [];
       SchemaRule._suggestion_map := [];
       SchemaRule._consistency_map := [] |} in
  fun _ =>
    match SchemaRule.init rule with
    | Raise e => Raise e
    | Ret (_, rule', evs) => Ret (rule', tt, evs)
    end.

(** The main loop of [Schema.parse] over the rows of a specification: the
    rules made, in order. *)
Definition parse_rules (rows : list Row) : P (list SchemaRule.t) :=
  for_each rows
    (fun made r =>
       match row_get r "#valid_tag" with
       | Some tag =>
           if truthy tag then
             rule <- parse_rule tag r ;;
             ret (made ++ [rule])
           else ret made
       | None => ret made
       end)
    [].

(** Store new objects at the references from [next] on. *)
Fixpoint allocate (h : heap) (next : nat) (new : list SchemaRule.t) : heap :=
  match new with
  | [] => h
  | r :: new' => allocate (heap_set h next r) (S next) new'
  end.

(** What [Schema.parse] is given: a schema that exists already, or the rows
    of a dataset.  The two other cases end in the second one, with a dataset
    that the library has read: [source is None] loads the built-in schema
    file, and a source that is not a dataset is wrapped by [hxl.data]. *)
Inductive parse_source : Type :=
| Parsed (schema : t)
| Specification (rows : list Row).

(** [Schema.parse(source, callback)]; [h] holds the objects that exist and
    [next] is the first free reference.  A schema is returned as it is, with
    the callback set; a dataset goes through the main loop. *)
Definition parse (source : parse_source) (callback : option nat)
    (h : heap) (next : nat) : outcome world :=
  match source with
  | Parsed schema =>
      Ret {| self := {| rules := rules schema;
                        callback := callback;
                        impossible_rules := impossible_rules schema |};
             objects := h |}
  | Specification rows =>
      match parse_rules rows tt with
      | Raise e => Raise e
      | Ret (made, _, _) =>
          Ret {| self := {| rules := seq next (List.length made);
                            callback := callback;
                            impossible_rules := [] |};
                 objects := allocate h next made |}
      end
  end.

End WithLib.
End Schema.

(** ** A small instance of the library

    Enough of hxl.model, hxl.datatypes and Python to run the validation code
    on ASCII data with unsigned decimal numbers and literal regular
    expressions. *)

Module Plain.

Definition is_space (c : ascii) : bool :=
  let n := nat_of_ascii c in (n =? 32) || ((9 <=? n) && (n <=? 13)).

Definition is_digit (c : ascii) : bool :=
  let n := nat_of_ascii c in (48 <=? n) && (n <=? 57).

Definition is_alnum (c : ascii) : bool :=
  let n := nat_of_ascii c in
  is_digit c || ((65 <=? n) && (n <=? 90)) || ((97 <=? n) && (n <=? 122)).

Definition lower_char (c : ascii) : ascii :=
  let n := nat_of_ascii c in
  if (65 <=? n) && (n <=? 90) then ascii_of_nat (n + 32) else c.

Definition str (cs : list ascii) : string := string_of_list_ascii cs.

Definition lower (s : string) : string := str (map lower_char (chars s)).

(** Split at the characters [sep] holds of. *)
Fixpoint split_at (sep : ascii -> bool) (cs : list ascii) (word : list ascii)
    : list (list ascii) :=
  match cs with
  | [] => [word]
  | c :: cs' =>
      if sep c then word :: split_at sep cs' []
      else split_at sep cs' (word ++ [c])
  end.

Definition words (s : string) : list string :=
  map str (filter nonempty (split_at is_space (chars s) [])).

Definition is_empty (s : string) : bool := forallb is_space (chars s).

Definition normalise_space (s : string) : string := join " " (words s).

Definition normalise_string (s : string) : string :=
  lower (normalise_space s).

Fixpoint ltrim (cs : list ascii) : list ascii :=
  match cs with
  | c :: cs' => if is_space c then ltrim cs' else cs
  | [] => []
  end.

Definition rtrim (cs : list ascii) : list ascii := rev (ltrim (rev cs)).

Definition strip (s : string) : string := str (rtrim (ltrim (chars s))).

Definition is_number (s : string) : bool :=
  nonempty (chars (strip s)) && forallb is_digit (chars (strip s)).

Fixpoint drop_zeros (cs : list ascii) : list ascii :=
  match cs with
  | c :: ((_ :: _) as cs') =>
      if Ascii.eqb c "0"%char then drop_zeros cs' else cs
  | _ => cs
  end.

Definition normalise (s : string) (column : option Column) : string :=
  if is_number s then str (drop_zeros (chars (strip s)))
  else normalise_string s.

(** Dates written year-month-day. *)
Definition is_date (s : string) : bool :=
  match map (fun w => (List.length w, forallb is_digit w))
            (split_at (Ascii.eqb "-"%char) (chars (strip s)) []) with
  | [(4, true); (2, true); (2, true)] => true
  | _ => false
  end.

Definition typeof (s : string) (column : Column) : string :=
  if is_number s then "number"
  else if is_date s then "date"
  else if is_empty s then "empty"
  else "text".

Definition digit_value (c : ascii) : Z := Z.of_nat (nat_of_ascii c - 48).

Definition int (s : string) : option Z :=
  let cs := chars (strip s) in
  let digits :=
    match cs with
    | c :: cs' => if Ascii.eqb c "-"%char then cs' else cs
    | [] => cs
    end in
  if nonempty digits && forallb is_digit digits then
    let n := fold_left (fun acc c => (10 * acc + digit_value c)%Z) digits 0%Z in
    Some (match cs with
          | c :: _ => if Ascii.eqb c "-"%char then (- n)%Z else n
          | [] => n
          end)
  else None.

Definition digit_char (n : nat) : ascii := ascii_of_nat (48 + n).

(** The decimal digits of a number, with as many steps as the number. *)
Fixpoint digits_of (fuel n : nat) (acc : list ascii) : list ascii :=
  match fuel with
  | O => acc
  | S fuel' =>
      let acc' := digit_char (n mod 10) :: acc in
      if n / 10 =? 0 then acc' else digits_of fuel' (n / 10) acc'
  end.

Definition str_int (z : Z) : string :=
  let n := Z.abs_nat z in
  let digits := str (digits_of (S n) n []) in
  if (z <? 0)%Z then ("-" ++ digits)%string else digits.

Definition str_float (z : Z) : string := (str_int z ++ ".0")%string.

Definition quoted (s : string) : string := ("'" ++ s ++ "'")%string.

Definition str_list (l : list string) : string :=
  ("[" ++ join ", " (map quoted l) ++ "]")%string.

(** *** Tag patterns *)

Definition subset (l1 l2 : list string) : bool :=
  forallb (fun a => existsb (String.eqb a) l2) l1.

Definition disjoint (l1 l2 : list string) : bool :=
  forallb (fun a => negb (existsb (String.eqb a) l2)) l1.

Definition tp_match (p : TagPattern) (c : Column) : bool :=
  String.eqb (pattern_tag p) (tag c)
  && subset (include_attributes p) (attributes c)
  && disjoint (exclude_attributes p) (attributes c).

Inductive part : Type := PTag | PInclude | PExclude.

Definition close_part (k : part) (word : list ascii) (p : TagPattern)
    : TagPattern :=
  match k with
  | PTag =>
      {| pattern_tag := lower (str word);
         include_attributes := include_attributes p;
         exclude_attributes := exclude_attributes p |}
  | PInclude =>
      {| pattern_tag := pattern_tag p;
         include_attributes := include_attributes p ++ [lower (str word)];
         exclude_attributes := exclude_attributes p |}
  | PExclude =>
      {| pattern_tag := pattern_tag p;
         include_attributes := include_attributes p;
         exclude_attributes := exclude_attributes p ++ [lower (str word)] |}
  end.

Fixpoint scan_pattern (cs : list ascii) (k : part) (word : list ascii)
    (p : TagPattern) : TagPattern :=
  match cs with
  | [] => close_part k word p
  | c :: cs' =>
      if Ascii.eqb c "+"%char then
        scan_pattern cs' PInclude [] (close_part k word p)
      else if Ascii.eqb c "-"%char then
        scan_pattern cs' PExclude [] (close_part k word p)
      else scan_pattern cs' k (word ++ [c]) p
  end.

Definition is_name_char (c : ascii) : bool :=
  is_alnum c || Ascii.eqb c "_"%char || Ascii.eqb c "+"%char
  || Ascii.eqb c "-"%char.

Definition tp_parse (s : string) : option TagPattern :=
  match chars (strip s) with
  | c :: ((_ :: _) as cs) =>
      if Ascii.eqb c "#"%char && forallb is_name_char cs then
        Some (scan_pattern cs PTag ["#"%char]
                {| pattern_tag := ""; include_attributes := [];
                   exclude_attributes := [] |})
      else None
  | _ => None
  end.

Fixpoint parse_all (l : list string) : option (list TagPattern) :=
  match l with
  | [] => Some []
  | s :: l' =>
      match tp_parse s, parse_all l' with
      | Some p, Some ps => Some (p :: ps)
      | _, _ => None
      end
  end.

Definition tp_parse_list (spec : key_spec) : option (list TagPattern) :=
  match spec with
  | KeyPatterns l => Some l
  | KeyText s =>
      if truthy s then
        parse_all (map str (split_at (Ascii.eqb ","%char) (chars s) []))
      else Some []
  end.

Definition tp_str (p : TagPattern) : string :=
  (pattern_tag p
   ++ String.concat "" (map (fun a => "+" ++ a) (include_attributes p))
   ++ String.concat "" (map (fun a => "-" ++ a) (exclude_attributes p)))%string.

Definition str_key_spec (spec : key_spec) : string :=
  match spec with
  | KeyText s => s
  | KeyPatterns l => ("[" ++ join ", " (map tp_str l) ++ "]")%string
  end.

(** *** Rows *)

Definition matches_any (ps : list TagPattern) (c : Column) : bool :=
  existsb (fun p => tp_match p c) ps.

Definition row_key (r : Row) (spec : key_spec) : Key :=
  match tp_parse_list spec with
  | Some ((_ :: _) as ps) =>
      map (fun cv => normalise (snd cv) (Some (fst cv)))
          (filter (fun cv => matches_any ps (fst cv)) (cells r))
  | _ => map (fun cv => normalise (snd cv) (Some (fst cv))) (cells r)
  end.

Definition row_get (r : Row) (pattern : string) : option string :=
  match tp_parse pattern with
  | Some p =>
      option_map snd (find (fun cv => tp_match p (fst cv)) (cells r))
  | None => None
  end.

(** *** Regular expressions and URLs *)

Fixpoint starts_with (eq : ascii -> ascii -> bool) (pre cs : list ascii)
    : bool :=
  match pre, cs with
  | [], _ => true
  | a :: pre', c :: cs' => eq a c && starts_with eq pre' cs'
  | _ :: _, [] => false
  end.

Definition same_letter (a c : ascii) : bool :=
  Ascii.eqb (lower_char a) (lower_char c).

Definition is_phone_char (c : ascii) : bool :=
  is_digit c || is_space c
  || existsb (Ascii.eqb c) ["x"; "X"; "("; ")"; "-"]%char.

Definition match_email (cs : list ascii) : bool :=
  match split_at (Ascii.eqb "@"%char) cs [] with
  | [before; after] => nonempty before && nonempty after
  | _ => false
  end.

Definition match_phone (cs : list ascii) : bool :=
  let body :=
    match cs with
    | c :: cs' => if Ascii.eqb c "+"%char then cs' else cs
    | [] => cs
    end in
  (5 <=? List.length body) && forallb is_phone_char body.

Definition pattern_source (rx : Regex) : string :=
  match rx with
  | Source s => s
  | Compiled s => s
  end.

(** Literal patterns and the two patterns of [_test_type]; other patterns
    are not supported.  Flags with a compiled pattern raise, as in Python. *)
Definition re_match (rx : Regex) (s : string) (flags : Z) : option bool :=
  match rx, (flags =? 0)%Z with
  | Compiled _, false => None
  | _, _ =>
      let src := pattern_source rx in
      if String.eqb src "^[^@]+@[^@]+$" then Some (match_email (chars s))
      else if String.eqb src "^\+?[0-9xX()\s-]{5,}$" then
        Some (match_phone (chars s))
      else if forallb is_alnum (chars src) then
        Some (starts_with
                (if (flags =? IGNORECASE)%Z then same_letter else Ascii.eqb)
                (chars src) (chars s))
      else None
  end.

Definition re_compile (s : string) : option Regex := Some (Compiled s).

Definition str_regex (rx : Regex) : string :=
  match rx with
  | Source s => s
  | Compiled s => ("re.compile(" ++ quoted s ++ ")")%string
  end.

(** [re.split(r'\s*\|\s*', s)]: the white space around a bar goes with it. *)
Fixpoint trim_pieces (first : bool) (pieces : list (list ascii))
    : list string :=
  match pieces with
  | [] => []
  | [w] => [str (if first then w else ltrim w)]
  | w :: pieces' =>
      str (rtrim (if first then w else ltrim w)) :: trim_pieces false pieces'
  end.

Definition re_split_bar (s : string) : list string :=
  trim_pieces true (split_at (Ascii.eqb "|"%char) (chars s) []).

Fixpoint take_until (stop : ascii -> bool) (cs : list ascii) : list ascii :=
  match cs with
  | c :: cs' => if stop c then [] else c :: take_until stop cs'
  | [] => []
  end.

Fixpoint drop_until (stop : ascii -> bool) (cs : list ascii) : list ascii :=
  match cs with
  | c :: cs' => if stop c then cs else drop_until stop cs'
  | [] => []
  end.

(** The scheme and the network location of a URL. *)
Definition urlparse (s : string) : string * string :=
  let scheme := take_until (Ascii.eqb ":"%char) (chars s) in
  match drop_until (Ascii.eqb ":"%char) (chars s) with
  | _ :: rest =>
      if nonempty scheme && forallb is_alnum scheme then
        match rest with
        | "/"%char :: "/"%char :: rest' =>
            (lower (str scheme),
             str (take_until
                    (fun c => existsb (Ascii.eqb c) ["/"; "?"; "#"]%char)
                    rest'))
        | _ => (lower (str scheme), "")
        end
      else ("", "")
  | [] => ("", "")
  end.

(** No data is read from outside. *)
Definition get_value_set (url : string) (target : option string)
    : option (list string) := None.

(** Numbers are integers here: [float] reads what [int] reads. *)
Definition lib : Lib :=
  Build_Lib tp_match tp_parse tp_parse_list tp_str row_key row_get
    get_value_set is_empty normalise_space normalise_string normalise
    is_number is_date typeof Z int Z.ltb str_float int str_int str_list
    str_key_spec str_regex lower urlparse re_compile re_match re_split_bar.

End Plain.

(** ** Data of the examples *)

Module Examples.

Definition hashtag (name : string) : TagPattern :=
  {| pattern_tag := name; include_attributes := [];
     exclude_attributes := [] |}.

Definition plain_column (name : string) : Column :=
  {| tag := name; attributes := []; display_tag := name |}.

(** [#affected] with the values "200", "abc", "300". *)
Definition affected : Column := plain_column "#affected".

Definition affected_row (n : nat) (v : string) : Row :=
  {| row_number := n; cells := [(affected, v)] |}.

(** [#adm1] and [#adm1+code] with the rows (Coast, 001), (Coast, 001),
    (Coast, 002). *)
Definition adm1 : Column := plain_column "#adm1".

Definition adm1_code : Column :=
  {| tag := "#adm1"; attributes := ["code"]; display_tag := "#adm1+code" |}.

Definition adm1_code_pattern : TagPattern :=
  {| pattern_tag := "#adm1"; include_attributes := ["code"];
     exclude_attributes := [] |}.

Definition adm1_row (n : nat) (name code : string) : Row :=
  {| row_number := n; cells := [(adm1, name); (adm1_code, code)] |}.

(** A row of a schema specification. *)
Definition spec_row (n : nat) (fields : list (string * string)) : Row :=
  {| row_number := n;
     cells := map (fun f => (plain_column (fst f), snd f)) fields |}.

(** The rule objects of the examples live in a store whose other objects
    are of no concern. *)
Section Runs.
Context {L : Lib}.

Definition some_objects : Schema.heap := fun _ => SchemaRule.new (hashtag "#").

(** [SchemaRule('#affected', consistent_datatypes=True, callback=cb)], the
    three rows, then [finish()]. *)
Definition consistency_rule (cb : nat) (p : TagPattern) : SchemaRule.t :=
  SchemaRule.set_callback (Some cb)
    (SchemaRule.set_consistent_datatypes true (SchemaRule.new p)).

Definition consistency_run : SchemaRule.M bool :=
  SchemaRule.validate_row (affected_row 1 "200") ;;;
  SchemaRule.validate_row (affected_row 2 "abc") ;;;
  SchemaRule.validate_row (affected_row 3 "300") ;;;
  SchemaRule.finish.

(** [SchemaRule('#adm1+code', correlation_key='#adm1', callback=cb)], the
    three rows, then [finish()]. *)
Definition correlation_rule (cb : nat) (p : TagPattern) : SchemaRule.t :=
  SchemaRule.set_callback (Some cb)
    (SchemaRule.set_correlation_key (Some (KeyText "#adm1"))
       (SchemaRule.new p)).

(** The rule once [init] has run, with the correlation map [m]. *)
Definition correlation_state (cb : nat) (p : TagPattern)
    (ks : list TagPattern)
    (m : dict string (dict string (dict Key (list location))))
    : SchemaRule.t :=
  SchemaRule.set_correlation_map m
    (SchemaRule.set_initialised true
       (SchemaRule.set_correlation_key (Some (KeyPatterns (ks ++ [])))
          (correlation_rule cb p))).

Definition correlation_run : SchemaRule.M bool :=
  SchemaRule.validate_row (adm1_row 1 "Coast" "001") ;;;
  SchemaRule.validate_row (adm1_row 2 "Coast" "001") ;;;
  SchemaRule.validate_row (adm1_row 3 "Coast" "002") ;;;
  SchemaRule.finish.

(** The same rule on the rows (Coast, 001), (Coast, 001), (Inland, 001):
    one code under two values of [#adm1]. *)
Definition conflict_run : SchemaRule.M bool :=
  SchemaRule.validate_row (adm1_row 1 "Coast" "001") ;;;
  SchemaRule.validate_row (adm1_row 2 "Coast" "001") ;;;
  SchemaRule.validate_row (adm1_row 3 "Inland" "001") ;;;
  SchemaRule.finish.

(** A schema with the callback [cb] and one rule, stored at reference 0. *)
Definition single_rule_world (cb : nat) (rule : SchemaRule.t) : Schema.world :=
  {| Schema.self := {| Schema.rules := [0];
                       Schema.callback := Some cb;
                       Schema.impossible_rules := [] |};
     Schema.objects := Schema.heap_set some_objects 0 rule |}.

(** One column [#affected] and one row with the value [v]. *)
Definition affected_dataset (v : string) : Dataset :=
  {| dataset_columns := [affected];
     dataset_rows := [affected_row 1 v] |}.

End Runs.

(** [SchemaRule('#x', regex='abc', case_sensitive=True, callback=1)] and
    [SchemaRule('#x', regex='ABC', callback=1)] *)
Definition pattern_rule : @SchemaRule.t Plain.lib :=
  SchemaRule.set_callback (L := Plain.lib) (Some 1)
    (SchemaRule.set_case_sensitive (L := Plain.lib) true
       (SchemaRule.set_regex (L := Plain.lib) (Some (Source "abc"))
          (SchemaRule.new (L := Plain.lib) (hashtag "#x")))).

Definition upper_pattern_rule : @SchemaRule.t Plain.lib :=
  SchemaRule.set_callback (L := Plain.lib) (Some 1)
    (SchemaRule.set_regex (L := Plain.lib) (Some (Source "ABC"))
       (SchemaRule.new (L := Plain.lib) (hashtag "#x"))).

(** [SchemaRule('#x', data_type='number', callback=1)] and
    [SchemaRule('#x', min_value=0, max_value=10, callback=1)] *)
Definition number_rule : @SchemaRule.t Plain.lib :=
  SchemaRule.set_callback (L := Plain.lib) (Some 1)
    (SchemaRule.set_data_type (L := Plain.lib) (Some "number")
       (SchemaRule.new (L := Plain.lib) (hashtag "#x"))).

Definition bounded_rule : @SchemaRule.t Plain.lib :=
  SchemaRule.set_callback (L := Plain.lib) (Some 1)
    (SchemaRule.set_max_value (L := Plain.lib) (Some 10%Z)
       (SchemaRule.set_min_value (L := Plain.lib) (Some 0%Z)
          (SchemaRule.new (L := Plain.lib) (hashtag "#x")))).

(** Rows of a schema specification: one with the datatype "integer", one
    with "maybe" in the boolean field [#valid_required]. *)
Definition unknown_datatype_row : Row :=
  spec_row 1 [("#valid_tag", "#affected"); ("#valid_datatype", "integer")].

Definition malformed_boolean_row : Row :=
  spec_row 1 [("#valid_tag", "#affected"); ("#valid_required", "maybe")].

(** [SchemaRule('#affected', unique=True, consistent_datatypes=True)] and a
    row with two [#affected] columns. *)
Definition tracking_rule : @SchemaRule.t Plain.lib :=
  SchemaRule.set_consistent_datatypes (L := Plain.lib) true
    (SchemaRule.set_unique (L := Plain.lib) true
       (SchemaRule.new (L := Plain.lib) (hashtag "#affected"))).

Definition two_values_row : Row :=
  {| row_number := 1; cells := [(affected, "1"); (affected, "2")] |}.

(** A rule over [#affected] on which [init] has run, with the callback 1. *)
Definition ready_rule : @SchemaRule.t Plain.lib :=
  SchemaRule.set_callback (L := Plain.lib) (Some 1)
    (SchemaRule.set_initialised (L := Plain.lib) true
       (SchemaRule.new (L := Plain.lib) (hashtag "#affected"))).

(** The same with [required=True], with [unique=True], with
    [consistent_datatypes=True], and with the bounds 0 and 10. *)
Definition required_rule : @SchemaRule.t Plain.lib :=
  SchemaRule.set_required (L := Plain.lib) true ready_rule.

Definition unique_rule : @SchemaRule.t Plain.lib :=
  SchemaRule.set_unique (L := Plain.lib) true ready_rule.

Definition consistent_rule : @SchemaRule.t Plain.lib :=
  SchemaRule.set_consistent_datatypes (L := Plain.lib) true ready_rule.

Definition ranged_rule : @SchemaRule.t Plain.lib :=
  SchemaRule.set_max_value (L := Plain.lib) (Some 10%Z)
    (SchemaRule.set_min_value (L := Plain.lib) (Some 0%Z) ready_rule).

(** [SchemaRule('#affected', enum=['Yes', 'No'])] *)
Definition enum_rule : @SchemaRule.t Plain.lib :=
  SchemaRule.set_enum (L := Plain.lib) (Some ["Yes"; "No"])
    (SchemaRule.new (L := Plain.lib) (hashtag "#affected")).

(** [SchemaRule('#affected', min_value=0)] *)
Definition range_rule : @SchemaRule.t Plain.lib :=
  SchemaRule.set_min_value (L := Plain.lib) (Some 0%Z)
    (SchemaRule.new (L := Plain.lib) (hashtag "#affected")).

(** A rule over [#adm1+code] correlated with [#adm1], on which the code
    "001" was seen once with "coast" and once with "inland". *)
Definition conflicting_rule : @SchemaRule.t Plain.lib :=
  correlation_state (L := Plain.lib) 1 adm1_code_pattern
    [hashtag "#adm1"]
    [("#adm1+code",
      [("001",
        [(["coast"], [(adm1_row 1 "Coast" "001", adm1_code)]);
         (["inland"],
          [(adm1_row 2 "Inland" "001", adm1_code)])])])].
End Examples.

(** ** Where the reports go *)

Module Reports.
Section WithLib.
Context {L : Lib}.

(** Every event is a call of the callback [cb]; with no callback there is
    no event. *)
Definition to_callback (cb : option nat) (evs : list event) : Prop :=
  Forall (fun ev => cb = Some (fst ev)) evs.

(** A method leaves the callback of the rule in place and reports to it. *)
Definition own (self self' : SchemaRule.t) (evs : list event) : Prop :=
  SchemaRule.callback self' = SchemaRule.callback self /\
  to_callback (SchemaRule.callback self) evs.

(** The report of a duplicate value. *)
Definition duplicate_report (self : SchemaRule.t) (r : option Row)
    (c : option Column) (raw : string) : list event :=
  match SchemaRule.callback self with
  | Some cb =>
      [(cb, {| message := "Found duplicate value"; value := Some raw;
               row := r; column := c; suggested_value := None |})]
  | None => []
  end.

(** The callback in force while a schema calls the rule [ref]. *)
Definition callback_in_force (w : Schema.world) (ref : nat) : option nat :=
  match Schema.callback (Schema.self w) with
  | Some cb => Some cb
  | None => SchemaRule.callback (Schema.objects w ref)
  end.

(** A schema method keeps the rules and the callback of the schema, puts
    the callback of every rule back, and its reports come from rules of the
    schema and went to the callback in force. *)
Definition framed (w w' : Schema.world) (reports : list Schema.report)
    : Prop :=
  Schema.rules (Schema.self w') = Schema.rules (Schema.self w) /\
  Schema.callback (Schema.self w') = Schema.callback (Schema.self w) /\
  (forall ref,
     SchemaRule.callback (Schema.objects w' ref)
     = SchemaRule.callback (Schema.objects w ref)) /\
  Forall
    (fun rep =>
       In (fst rep) (Schema.rules (Schema.self w)) /\
       callback_in_force w (fst rep) = Some (fst (snd rep)))
    reports.

(** A rule as [Schema.parse] appends it for the row [r]. *)
Definition fresh_rule_of (r : Row) (rule : SchemaRule.t) : Prop :=
  tp_parse (Schema.text (row_get r "#valid_tag"))
  = Some (SchemaRule.tag_pattern rule) /\
  SchemaRule._initialised rule = true /\
  SchemaRule.callback rule = None /\
  SchemaRule._unique_value_map rule = [] /\
  SchemaRule._unique_key_map rule = [] /\
  SchemaRule._correlation_map rule = [] /\
  SchemaRule._consistency_map rule = [].

(** The callback of the rule, if it has one, was handed the error [e]. *)
Definition reported (self : SchemaRule.t) (e : HXLValidationException)
    (evs : list event) : Prop :=
  forall cb, SchemaRule.callback self = Some cb -> In (cb, e) evs.

End WithLib.
End Reports.

(** ** Rules without constraints *)

Module Bare.
Section WithLib.
Context {L : Lib}.

Definition is_none {A : Type} (x : option A) : bool :=
  match x with None => true | Some _ => false end.

(** A rule that only names a hashtag: every constraint is left at the
    default of [SchemaRule.__init__]. *)
Definition unconstrained (self : SchemaRule.t) : bool :=
  is_none (SchemaRule.min_occur self) && is_none (SchemaRule.max_occur self)
  && is_none (SchemaRule.data_type self)
  && is_none (SchemaRule.min_value self) && is_none (SchemaRule.max_value self)
  && is_none (SchemaRule.regex self) && is_none (SchemaRule.enum self)
  && is_none (SchemaRule._enum_map self)
  && negb (SchemaRule.required self) && negb (SchemaRule.unique self)
  && is_none (SchemaRule.unique_key self)
  && is_none (SchemaRule.correlation_key self)
  && negb (SchemaRule.consistent_datatypes self).

End WithLib.
End Bare.

(** ** What the deferred checks count *)

Module Tallies.
Section WithLib.
Context {L : Lib}.

(** Some hashtag of a consistency map holds values of more than one
    datatype: [len(types_found) > 1]. *)
Definition mixed_datatypes
    (m : dict string (dict string (list (Row * Column * string)))) : bool :=
  existsb (fun item => 1 <? List.length (snd item)) m.

(** Under one dictionary of lists, the entries outside its longest list. *)
Definition minority {K A : Type} (d : dict K (list A)) : nat :=
  dict_total (@List.length A) d
  - list_max (map (fun e => List.length (snd e)) d).

(** Some value of a correlation map was seen with more than one key:
    [len(keys) > 1]. *)
Definition has_conflict
    (m : dict string (dict string (dict Key (list location)))) : bool :=
  existsb
    (fun item => existsb (fun entry => 1 <? List.length (snd entry)) (snd item))
    m.

(** The locations that are not under the most common key of their value. *)
Definition deviations
    (m : dict string (dict string (dict Key (list location)))) : nat :=
  list_sum
    (map (fun item =>
            list_sum (map (fun entry => minority (snd entry)) (snd item)))
       m).

(** A correlation map as [validate_row] builds it: no hashtag is repeated,
    and under every hashtag some value has a key. *)
Fixpoint distinct (l : list string) : bool :=
  match l with
  | [] => true
  | x :: l' => negb (existsb (String.eqb x) l') && distinct l'
  end.

Definition well_tracked
    (m : dict string (dict string (dict Key (list location)))) : bool :=
  distinct (map fst m) &&
  forallb
    (fun item => existsb (fun entry => nonempty (snd entry)) (snd item)) m.

(** The keys of [by_value] all have an entry in [by_key]. *)
Definition covers {V : Type} (by_value : dict string (dict Key (list location)))
    (by_key : dict Key V) : Prop :=
  forall v keys key locs,
    In (v, keys) by_value -> In (key, locs) keys ->
    dict_mem key_eqb by_key key = true.

(** The number of calls of the callback for one error. *)
Definition calls (self : SchemaRule.t) : nat :=
  match SchemaRule.callback self with Some _ => 1 | None => 0 end.

End WithLib.
End Tallies.


(** * Reasoning about methods *)

Section ExecFacts.
Context {S W : Type}.

Lemma ensures_ret {A} (a : A) (s : S) (Q : A -> S -> list W -> Prop) :
  Q a s [] -> ensures (ret a) s Q.
Proof. exact (fun H => H). Qed.

Lemma ensures_raise {A} e (s : S) (Q : A -> S -> list W -> Prop) :
  ensures (raise e) s Q.
Proof. exact I. Qed.

Lemma ensures_bind {A B} (m : exec S W A) (f : A -> exec S W B) s
    (Q : B -> S -> list W -> Prop) :
  ensures m s (fun a s' ws =>
    ensures (f a) s' (fun b s'' ws' => Q b s'' (ws ++ ws'))) ->
  ensures (bind m f) s Q.
Proof.
  unfold ensures, bind. destruct (m s) as [[[a s'] ws]|e]; [|trivial].
  destruct (f a s') as [[[b s''] ws']|e]; trivial.
Qed.

Lemma ensures_weaken {A} (m : exec S W A) s
    (Q Q' : A -> S -> list W -> Prop) :
  ensures m s Q -> (forall a s' ws, Q a s' ws -> Q' a s' ws) ->
  ensures m s Q'.
Proof.
  unfold ensures. destruct (m s) as [[[a s'] ws]|e]; auto.
Qed.

Lemma ensures_get_state (s : S) (Q : S -> S -> list W -> Prop) :
  Q s s [] -> ensures get_state s Q.
Proof. exact (fun H => H). Qed.

Lemma ensures_modify (f : S -> S) (s : S) (Q : unit -> S -> list W -> Prop) :
  Q tt (f s) [] -> ensures (modify f) s Q.
Proof. exact (fun H => H). Qed.

Lemma ensures_or_raise {A} (x : option A) e (s : S)
    (Q : A -> S -> list W -> Prop) :
  (forall a, x = Some a -> Q a s []) -> ensures (or_raise x e) s Q.
Proof. destruct x; simpl; intros H; [apply H; reflexivity | exact I]. Qed.

(** A loop keeps an invariant [I] of the accumulator, the state and the
    reports made so far. *)
Lemma ensures_for_each {A B} (body : B -> A -> exec S W B)
    (I : B -> S -> list W -> Prop) :
  (forall acc x s ws, I acc s ws ->
     ensures (body acc x) s (fun acc' s' ws' => I acc' s' (ws ++ ws'))) ->
  forall l acc s ws, I acc s ws ->
    ensures (for_each l body acc) s (fun acc' s' ws' => I acc' s' (ws ++ ws')).
Proof.
  intros Hbody. induction l as [|x l IH]; intros acc s ws HI; simpl.
  - apply ensures_ret. rewrite app_nil_r. exact HI.
  - apply ensures_bind.
    eapply ensures_weaken; [apply (Hbody acc x s ws HI)|].
    intros acc' s' ws' HI'. simpl.
    eapply ensures_weaken; [apply (IH acc' s' _ HI')|].
    intros b s'' ws''. rewrite app_assoc. exact (fun H => H).
Qed.

Lemma ensures_for_each_nil {A B} (body : B -> A -> exec S W B)
    (I : B -> S -> list W -> Prop) :
  (forall acc x s ws, I acc s ws ->
     ensures (body acc x) s (fun acc' s' ws' => I acc' s' (ws ++ ws'))) ->
  forall l acc s, I acc s [] -> ensures (for_each l body acc) s I.
Proof.
  intros Hbody l acc s HI.
  exact (ensures_for_each body I Hbody l acc s [] HI).
Qed.

Lemma ensures_trivial {A} (m : exec S W A) s :
  ensures m s (fun _ _ _ => True).
Proof. unfold ensures. destruct (m s) as [[[a s'] ws]|e]; exact I. Qed.

End ExecFacts.

(** * Properties of the matcher *)

Module MatcherFacts.
Import Matcher.

(** ** The recurrence [lev] *)

Lemma lev_nil_l t : lev [] t = List.length t.
Proof. reflexivity. Qed.

Lemma lev_nil_r s : lev s [] = List.length s.
Proof. destruct s; reflexivity. Qed.

Lemma lev_cons a b s t :
  lev (a :: s) (b :: t) =
  if Ascii.eqb a b then lev s t
  else 1 + min3 (lev s (b :: t)) (lev (a :: s) t) (lev s t).
Proof. reflexivity. Qed.

Lemma min3_le_l a b c : min3 a b c <= a.
Proof. unfold min3; lia. Qed.

Lemma min3_le_m a b c : min3 a b c <= b.
Proof. unfold min3; lia. Qed.

Lemma min3_le_r a b c : min3 a b c <= c.
Proof. unfold min3; lia. Qed.

Lemma min3_cases a b c : min3 a b c = a \/ min3 a b c = b \/ min3 a b c = c.
Proof. unfold min3; lia. Qed.

(** [lev s t] is the cost of some edit script. *)
Lemma lev_edits : forall s t, edits s t (lev s t).
Proof.
  induction s as [|a s IHs].
  - induction t as [|b t IHt]; simpl.
    + constructor.
    + apply edits_insert. exact IHt.
  - induction t as [|b t IHt].
    + rewrite lev_nil_r. simpl. apply edits_delete.
      specialize (IHs []). rewrite lev_nil_r in IHs. exact IHs.
    + rewrite lev_cons. destruct (Ascii.eqb a b) eqn:E.
      * apply Ascii.eqb_eq in E. subst b. apply edits_keep. apply IHs.
      * destruct (min3_cases (lev s (b :: t)) (lev (a :: s) t) (lev s t))
          as [H|[H|H]]; rewrite H; simpl.
        -- apply edits_delete, IHs.
        -- apply edits_insert, IHt.
        -- apply edits_subst, IHs.
Qed.

(** Dropping the head of either string changes [lev] by at most one. *)
Lemma lev_step_bounds : forall n s t,
  List.length s + List.length t <= n ->
  (forall a, lev (a :: s) t <= S (lev s t)) /\
  (forall b, lev s (b :: t) <= S (lev s t)) /\
  (forall b, lev s t <= S (lev s (b :: t))) /\
  (forall a, lev s t <= S (lev (a :: s) t)).
Proof.
  induction n as [|n IH]; intros s t Hn.
  - destruct s; destruct t; simpl in Hn; try lia.
    repeat split; intros; simpl; lia.
  - assert (Hdel : forall a, lev (a :: s) t <= S (lev s t)).
    { intros a. destruct t as [|b t].
      - rewrite !lev_nil_r. simpl. lia.
      - rewrite lev_cons. destruct (Ascii.eqb a b).
        + destruct (IH s t) as (_ & _ & H & _); [simpl in Hn; lia|].
          apply H.
        + pose proof (min3_le_l (lev s (b :: t)) (lev (a :: s) t) (lev s t)).
          lia. }
    assert (Hins : forall b, lev s (b :: t) <= S (lev s t)).
    { intros b. destruct s as [|a s].
      - simpl. lia.
      - rewrite lev_cons. destruct (Ascii.eqb a b).
        + destruct (IH s t) as (_ & _ & _ & H); [simpl in Hn; lia|].
          apply H.
        + pose proof (min3_le_m (lev s (b :: t)) (lev (a :: s) t) (lev s t)).
          lia. }
    repeat split; auto.
    + intros b. destruct s as [|a s].
      * simpl. lia.
      * rewrite (lev_cons a b s t). destruct (Ascii.eqb a b).
        -- specialize (Hdel a). 
           destruct t as [|b' t]; [rewrite !lev_nil_r; simpl; lia|].
           destruct (IH s (b' :: t)) as (H & _); [simpl in *; lia|].
           apply H.
        -- destruct (IH s t) as (H1 & _ & H3 & _); [simpl in Hn; lia|].
           specialize (H1 a). specialize (H3 b).
           destruct (min3_cases (lev s (b :: t)) (lev (a :: s) t) (lev s t))
             as [H|[H|H]]; rewrite H; lia.
    + intros a. destruct t as [|b t].
      * rewrite !lev_nil_r. simpl. lia.
      * rewrite (lev_cons a b s t). destruct (Ascii.eqb a b).
        -- destruct s as [|a' s]; [simpl; lia|].
           destruct (IH (a' :: s) t) as (_ & H & _); [simpl in *; lia|].
           apply H.
        -- destruct (IH s t) as (_ & H2 & _ & H4); [simpl in Hn; lia|].
           specialize (H2 b). specialize (H4 a).
           destruct (min3_cases (lev s (b :: t)) (lev (a :: s) t) (lev s t))
             as [H|[H|H]]; rewrite H; lia.
Qed.

Lemma lev_delete_le a s t : lev (a :: s) t <= S (lev s t).
Proof. apply (lev_step_bounds _ s t (le_n _)). Qed.

Lemma lev_insert_le b s t : lev s (b :: t) <= S (lev s t).
Proof. apply (lev_step_bounds _ s t (le_n _)). Qed.

(** No edit script is cheaper than [lev s t]. *)
Lemma lev_least : forall s t n, edits s t n -> lev s t <= n.
Proof.
  induction 1.
  - simpl. lia.
  - rewrite lev_cons, Ascii.eqb_refl. exact IHedits.
  - rewrite lev_cons. destruct (Ascii.eqb a b); [lia|].
    pose proof (min3_le_r (lev s (b :: t)) (lev (a :: s) t) (lev s t)). lia.
  - pose proof (lev_delete_le a s t). lia.
  - pose proof (lev_insert_le b s t). lia.
Qed.

Lemma lev_is_levenshtein s t : is_levenshtein s t (lev s t).
Proof. split; [apply lev_edits | apply lev_least]. Qed.

Lemma is_levenshtein_unique s t d d' :
  is_levenshtein s t d -> is_levenshtein s t d' -> d = d'.
Proof.
  intros [H1 H2] [H1' H2']. apply H2 in H1'. apply H2' in H1. lia.
Qed.

(** ** Edit scripts read backwards and the other way round *)

Lemma edits_sym : forall s t n, edits s t n -> edits t s n.
Proof. induction 1; try (constructor; assumption). Qed.

Lemma edits_app : forall s t n, edits s t n ->
  forall s' t' n', edits s' t' n' -> edits (s ++ s') (t ++ t') (n + n').
Proof.
  induction 1; intros s' t' n' H'; simpl; try (constructor; auto).
  exact H'.
Qed.

Lemma edits_rev : forall s t n, edits s t n -> edits (rev s) (rev t) n.
Proof.
  induction 1; simpl.
  - constructor.
  - replace n with (n + 0) by lia.
    apply edits_app; [assumption | repeat constructor].
  - replace (S n) with (n + 1) by lia.
    apply edits_app; [assumption | repeat constructor].
  - replace (S n) with (n + 1) by lia.
    rewrite <- (app_nil_r (rev t)).
    apply edits_app; [assumption | repeat constructor].
  - replace (S n) with (n + 1) by lia.
    rewrite <- (app_nil_r (rev s)).
    apply edits_app; [assumption | repeat constructor].
Qed.

Lemma lev_sym s t : lev s t = lev t s.
Proof.
  apply Nat.le_antisymm; apply lev_least, edits_sym, lev_edits.
Qed.

Lemma lev_rev s t : lev (rev s) (rev t) = lev s t.
Proof.
  apply Nat.le_antisymm.
  - apply lev_least, edits_rev, lev_edits.
  - pose proof (edits_rev _ _ _ (lev_edits (rev s) (rev t))) as H.
    rewrite !rev_involutive in H. apply lev_least, H.
Qed.

(** The recurrence, read on the last characters: this is the form the
    row-by-row computation follows. *)
Lemma lev_snoc a b s t :
  lev (s ++ [a]) (t ++ [b]) =
  if Ascii.eqb a b then lev s t
  else 1 + min3 (lev s t) (lev (s ++ [a]) t) (lev s (t ++ [b])).
Proof.
  rewrite <- lev_rev, !rev_unit, lev_cons.
  destruct (Ascii.eqb a b).
  - apply lev_rev.
  - rewrite <- (lev_rev s t), <- (lev_rev (s ++ [a]) t),
      <- (lev_rev s (t ++ [b])), !rev_unit.
    unfold min3. lia.
Qed.

(** ** The rows computed by [get_edit_distance] *)

Lemma nth_map_seq (f : nat -> nat) n i d :
  i < n -> nth i (map f (seq 0 n)) d = f i.
Proof.
  intros Hi. rewrite (nth_indep _ d (f 0)) by (now rewrite length_map, length_seq).
  rewrite map_nth, seq_nth; auto.
Qed.

Lemma last_map_seq (f : nat -> nat) n d :
  last (map f (seq 0 (n + 1))) d = f n.
Proof.
  rewrite seq_app, map_app. simpl. apply last_last.
Qed.

Lemma firstn_prefix (pre rest : list ascii) :
  firstn (List.length pre) (pre ++ rest) = pre.
Proof.
  rewrite firstn_app, Nat.sub_diag, firstn_all. simpl. apply app_nil_r.
Qed.

Lemma firstn_prefix_snoc (pre : list ascii) c rest :
  firstn (List.length pre + 1) (pre ++ c :: rest) = pre ++ [c].
Proof.
  replace (pre ++ c :: rest) with ((pre ++ [c]) ++ rest)
    by (now rewrite <- app_assoc).
  replace (List.length pre + 1) with (List.length (pre ++ [c]))
    by (now rewrite length_app).
  apply firstn_prefix.
Qed.

Lemma inner_loop_row s1 p2 c2 : forall rest pre,
  s1 = pre ++ rest ->
  fold_left (inner_step c2 (row_of s1 p2 (List.length s1 + 1)))
    (enumerate_from (List.length pre) rest)
    (row_of s1 (p2 ++ [c2]) (List.length pre + 1))
  = row_of s1 (p2 ++ [c2]) (List.length s1 + 1).
Proof.
  induction rest as [|c1 rest IH]; intros pre Hs1.
  - simpl. rewrite Hs1, app_nil_r. reflexivity.
  - cbn [fold_left enumerate_from].
    assert (Hlen : List.length s1 = List.length pre + S (List.length rest))
      by (rewrite Hs1, length_app; reflexivity).
    assert (Hcell :
      inner_step c2 (row_of s1 p2 (List.length s1 + 1))
        (row_of s1 (p2 ++ [c2]) (List.length pre + 1)) (List.length pre, c1)
      = row_of s1 (p2 ++ [c2]) (List.length (pre ++ [c1]) + 1)).
    { unfold inner_step, row_of.
      rewrite !nth_map_seq by lia. rewrite last_map_seq.
      rewrite length_app. simpl List.length.
      rewrite (seq_app (List.length pre + 1) 1), map_app. simpl.
      f_equal. f_equal.
      rewrite Hs1, firstn_prefix, firstn_prefix_snoc, lev_snoc.
      destruct (Ascii.eqb c1 c2); reflexivity. }
    rewrite Hcell.
    replace (S (List.length pre)) with (List.length (pre ++ [c1]))
      by (rewrite length_app; simpl; lia).
    apply IH. rewrite Hs1, <- app_assoc. reflexivity.
Qed.

Lemma outer_loop_row s1 s2 : forall rest pre,
  s2 = pre ++ rest ->
  fold_left (outer_step s1) (enumerate_from (List.length pre) rest)
    (row_of s1 pre (List.length s1 + 1))
  = row_of s1 s2 (List.length s1 + 1).
Proof.
  induction rest as [|c2 rest IH]; intros pre Hs2.
  - simpl. rewrite Hs2, app_nil_r. reflexivity.
  - cbn [fold_left enumerate_from]. unfold outer_step at 2.
    replace [List.length pre + 1]
      with (row_of s1 (pre ++ [c2]) (@List.length ascii [] + 1))
      by (unfold row_of; simpl; rewrite length_app; reflexivity).
    unfold enumerate.
    change (enumerate_from 0 s1)
      with (enumerate_from (@List.length ascii []) s1).
    rewrite (inner_loop_row s1 pre c2 s1 [] eq_refl).
    replace (S (List.length pre)) with (List.length (pre ++ [c2]))
      by (rewrite length_app; simpl; lia).
    apply IH. rewrite Hs2, <- app_assoc. reflexivity.
Qed.

Lemma edit_rows_row s1 s2 :
  edit_rows s1 s2 = row_of s1 s2 (List.length s1 + 1).
Proof.
  unfold edit_rows, enumerate.
  rewrite <- (outer_loop_row s1 s2 s2 [] eq_refl). f_equal.
  unfold row_of. rewrite <- (map_id (seq 0 _)) at 1.
  apply map_ext_in. intros i Hi. apply in_seq in Hi.
  rewrite lev_nil_r, length_firstn. lia.
Qed.

(** Every row has one entry per prefix of [s1]: the indices [i1] and
    [i1 + 1] read by [inner_step] are in range. *)
Lemma edit_rows_length s1 s2 :
  List.length (edit_rows s1 s2) = List.length s1 + 1.
Proof.
  rewrite edit_rows_row. unfold row_of. now rewrite length_map, length_seq.
Qed.

Lemma edit_rows_last s1 s2 : last (edit_rows s1 s2) 0 = lev s1 s2.
Proof.
  rewrite edit_rows_row. unfold row_of.
  rewrite last_map_seq, firstn_all. reflexivity.
Qed.

Lemma get_edit_distance_lev s1 s2 :
  get_edit_distance s1 s2 = lev (chars s1) (chars s2).
Proof.
  unfold get_edit_distance.
  destruct (len s2 <? len s1)%nat; rewrite edit_rows_last.
  - apply lev_sym.
  - reflexivity.
Qed.

(** C6. [get_edit_distance s1 s2] is the Levenshtein distance between [s1]
    and [s2]: it is the cost of an edit script from [s1] to [s2], no script
    is cheaper, and it agrees with the usual recurrence; the distance
    between "kitten" and "sitting" is 3. *)
Theorem get_edit_distance_levenshtein :
  (forall s1 s2,
     is_levenshtein (chars s1) (chars s2) (get_edit_distance s1 s2) /\
     get_edit_distance s1 s2 = lev (chars s1) (chars s2)) /\
  get_edit_distance "kitten" "sitting" = 3.
Proof.
  split; [|reflexivity].
  intros s1 s2. rewrite get_edit_distance_lev.
  split; [apply lev_is_levenshtein | reflexivity].
Qed.

(** ** [get_common_prefix_len] *)

Lemma prefix_loop_spec : forall l1 l2 n i,
  prefix_loop i (enumerate_from n (combine l1 l2)) =
  if common_prefix_length l1 l2 =? Nat.min (List.length l1) (List.length l2)
  then (if Nat.min (List.length l1) (List.length l2) =? 0 then i
        else n + common_prefix_length l1 l2 - 1)
  else n + common_prefix_length l1 l2.
Proof.
  induction l1 as [|x l1 IH]; intros [|y l2] n i; try reflexivity.
  cbn [combine enumerate_from prefix_loop common_prefix_length List.length].
  destruct (Ascii.eqb x y); cbn [negb].
  - rewrite IH. rewrite <- Nat.succ_min_distr.
    cbn [Nat.eqb].
    destruct (common_prefix_length l1 l2 =?
              Nat.min (List.length l1) (List.length l2)) eqn:E.
    + apply Nat.eqb_eq in E. rewrite <- E.
      destruct (common_prefix_length l1 l2); simpl; try lia.
    + lia.
  - rewrite <- Nat.succ_min_distr. simpl. lia.
Qed.

(** What the loop returns: the index of the first differing pair when there
    is one, and otherwise the index of the last pair (not the number of
    pairs). *)
Lemma get_common_prefix_len_spec s1 s2 :
  get_common_prefix_len s1 s2 =
  if common_prefix_length (chars s1) (chars s2) =? Nat.min (len s1) (len s2)
  then common_prefix_length (chars s1) (chars s2) - 1
  else common_prefix_length (chars s1) (chars s2).
Proof.
  unfold get_common_prefix_len, enumerate, len. rewrite prefix_loop_spec.
  destruct (common_prefix_length (chars s1) (chars s2) =? _) eqn:E;
    [|reflexivity].
  apply Nat.eqb_eq in E.
  destruct (Nat.min _ _ =? 0) eqn:E0; [|lia].
  apply Nat.eqb_eq in E0. lia.
Qed.

(** C5. On "ab" and "abc" the code returns 1 while the longest common
    prefix has length 2; in general, when one string is a prefix of the
    other the result is one less than the length of the common prefix. *)
Theorem get_common_prefix_len_short_by_one :
  get_common_prefix_len "ab" "abc" = 1 /\
  common_prefix_length (chars "ab") (chars "abc") = 2 /\
  forall s1 s2,
    common_prefix_length (chars s1) (chars s2) = Nat.min (len s1) (len s2) ->
    get_common_prefix_len s1 s2 =
    common_prefix_length (chars s1) (chars s2) - 1.
Proof.
  repeat split; try reflexivity.
  intros s1 s2 H. rewrite get_common_prefix_len_spec, H, Nat.eqb_refl.
  reflexivity.
Qed.

(** ** [find_closest_match] *)

Lemma exceeds_max_distance d s :
  exceeds d (max_distance s) = true <-> len s < 2 * d.
Proof.
  unfold exceeds, max_distance. rewrite negb_true_iff.
  rewrite <- not_true_iff_false, Qle_bool_iff.
  unfold Qle, Qdiv, Qmult, Qinv, inject_Z. simpl. lia.
Qed.

Lemma closest_step_inv s seen b value :
  closest_inv s seen b ->
  closest_inv s (seen ++ [value]) (closest_step s b value).
Proof.
  unfold closest_step, closest_inv.
  destruct b as [[[v d] p]|].
  - intros (Hin & Hd & Hp & Hcut & Hmin).
    destruct (d <? get_edit_distance s value) eqn:E1; cbn [orb].
    + apply Nat.ltb_lt in E1. repeat split; auto.
      * apply in_or_app; auto.
      * apply in_app_or in H as [H|[<-|[]]]; [apply Hmin; auto | lia].
      * apply in_app_or in H as [H|[<-|[]]]; [apply Hmin; auto | lia].
    + apply Nat.ltb_ge in E1.
      destruct (exceeds (get_edit_distance s value) (max_distance s)) eqn:E2.
      * repeat split; auto.
        -- apply in_or_app; auto.
        -- apply in_app_or in H as [H|[<-|[]]]; [apply Hmin; auto | congruence].
        -- apply in_app_or in H as [H|[<-|[]]]; [apply Hmin; auto | congruence].
      * destruct ((get_edit_distance s value <? d)
                  || ((get_edit_distance s value =? d)
                      && (p <? get_common_prefix_len s value))) eqn:E3.
        -- apply orb_true_iff in E3.
           repeat split; auto.
           ++ apply in_or_app; simpl; auto.
           ++ apply in_app_or in H as [H|[<-|[]]]; [|lia].
              destruct (Hmin c H H0). lia.
           ++ intros Hc. apply in_app_or in H as [H|[<-|[]]]; [|lia].
              destruct (Hmin c H H0) as [H1 H2].
              destruct E3 as [E3|E3].
              ** apply Nat.ltb_lt in E3. lia.
              ** apply andb_true_iff in E3 as [E3 E4].
                 apply Nat.eqb_eq in E3. apply Nat.ltb_lt in E4.
                 specialize (H2 ltac:(lia)). lia.
        -- apply orb_false_iff in E3 as [E3 E4].
           apply Nat.ltb_ge in E3.
           repeat split; auto.
           ++ apply in_or_app; auto.
           ++ apply in_app_or in H as [H|[<-|[]]]; [apply Hmin; auto | lia].
           ++ intros Hc. apply in_app_or in H as [H|[<-|[]]];
                [apply Hmin; auto|].
              apply andb_false_iff in E4 as [E4|E4].
              ** apply Nat.eqb_neq in E4. lia.
              ** apply Nat.ltb_ge in E4. exact E4.
  - intros Hnone. cbn [orb].
    destruct (exceeds (get_edit_distance s value) (max_distance s)) eqn:E2.
    + intros c Hc. apply in_app_or in Hc as [H|[<-|[]]]; auto.
    + repeat split; auto.
      * apply in_or_app; simpl; auto.
      * apply in_app_or in H as [H|[<-|[]]]; [|lia].
        rewrite Hnone in H0 by exact H. discriminate.
      * apply in_app_or in H as [H|[<-|[]]]; [|lia].
        rewrite Hnone in H0 by exact H. discriminate.
Qed.

Lemma closest_fold_inv s : forall rest seen b,
  closest_inv s seen b ->
  closest_inv s (seen ++ rest) (fold_left (closest_step s) rest b).
Proof.
  induction rest as [|value rest IH]; intros seen b Hb; simpl.
  - rewrite app_nil_r. exact Hb.
  - replace (seen ++ value :: rest) with ((seen ++ [value]) ++ rest)
      by (now rewrite <- app_assoc).
    apply IH, closest_step_inv, Hb.
Qed.

(** The parts of the contract that do not depend on the prefix length:
    no result exactly when every candidate is beyond the cutoff
    [len(s) / 2]; otherwise a candidate within the cutoff, at the least
    distance, and with the greatest value of [get_common_prefix_len] among
    those at that distance. *)
Lemma find_closest_match_none s allowed_values :
  find_closest_match s allowed_values = None <->
  forall c, In c allowed_values -> len s < 2 * get_edit_distance s c.
Proof.
  unfold find_closest_match.
  pose proof (closest_fold_inv s allowed_values [] None
                ltac:(simpl; contradiction)) as H.
  simpl in H.
  destruct (fold_left (closest_step s) allowed_values None)
    as [[[v d] p]|]; simpl in H.
  - split; [discriminate|]. intros Hall. exfalso.
    destruct H as (Hin & Hd & _ & Hcut & _).
    apply Hall, exceeds_max_distance in Hin. congruence.
  - split; [|reflexivity]. intros _ c Hc.
    apply exceeds_max_distance, H, Hc.
Qed.

Lemma find_closest_match_some s allowed_values v :
  find_closest_match s allowed_values = Some v ->
  In v allowed_values /\
  2 * get_edit_distance s v <= len s /\
  forall c, In c allowed_values ->
    2 * get_edit_distance s c <= len s ->
    get_edit_distance s v <= get_edit_distance s c /\
    (get_edit_distance s c = get_edit_distance s v ->
     get_common_prefix_len s c <= get_common_prefix_len s v).
Proof.
  unfold find_closest_match.
  pose proof (closest_fold_inv s allowed_values [] None
                ltac:(simpl; contradiction)) as H.
  simpl in H.
  destruct (fold_left (closest_step s) allowed_values None)
    as [[[v' d] p]|]; simpl in H; [|discriminate].
  intros [= <-]. destruct H as (Hin & Hd & Hp & Hcut & Hmin).
  subst d p. split; [exact Hin|]. split.
  - destruct (Nat.le_gt_cases (2 * get_edit_distance s v') (len s)); auto.
    apply exceeds_max_distance in H. congruence.
  - intros c Hc Hcc. apply Hmin; auto.
    apply not_true_iff_false. rewrite exceeds_max_distance. lia.
Qed.

(** C4. For "ab" with the candidates "ax" and "abc", both at distance 1 and
    within the cutoff, the result is "ax" although "abc" shares the longer
    prefix with "ab" (2 characters against 1). *)
Theorem find_closest_match_tie_break :
  find_closest_match "ab" ["ax"; "abc"] = Some "ax" /\
  get_edit_distance "ab" "ax" = 1 /\
  get_edit_distance "ab" "abc" = 1 /\
  common_prefix_length (chars "ab") (chars "ax") = 1 /\
  common_prefix_length (chars "ab") (chars "abc") = 2.
Proof. vm_compute. repeat split. Qed.

End MatcherFacts.


(** * Properties of a rule *)

Module SchemaRuleFacts.
Section WithLib.
Context {L : Lib}.
Import SchemaRule.

(** Case analysis on what a method inspects. *)
Ltac break_match :=
  match goal with
  | |- context [match ?x with _ => _ end] =>
      lazymatch x with
      | context [match _ with _ => _ end] => fail
      | _ => destruct x eqn:?
      end
  end.

Ltac run_method :=
  unfold ensures, bind, get_self, get_state, modify, or_raise, ret, raise,
    _report_error;
  repeat (break_match; try discriminate; try exact I);
  repeat match goal with
         | H : Ret _ = Ret _ |- _ => inversion H; subst; clear H
         end.

Lemma _report_error_false msg v r c sv self :
  ensures (_report_error msg v r c sv) self
    (fun b self' _ => b = false /\ self' = self).
Proof. unfold ensures, _report_error. auto. Qed.

Lemma _test_type_quiet v r c raw self :
  ensures (_test_type v r c raw) self (fun b _ evs => quiet b evs).
Proof.
  unfold _test_type, quiet. run_method; simpl; auto; discriminate.
Qed.

Ltac seq lemma :=
  apply ensures_bind; eapply ensures_weaken; [apply lemma | cbv beta].

Lemma quiet_false evs : quiet false evs.
Proof. discriminate. Qed.

Lemma quiet_nil b : quiet b [].
Proof. intros _. reflexivity. Qed.

#[local] Hint Resolve quiet_false quiet_nil : core.

Lemma _test_range_max_quiet v r c raw result self :
  ensures (_test_range_max v r c raw result) self
    (fun b _ evs => evs = [] /\ (b = result \/ b = false) \/ b = false).
Proof.
  unfold _test_range_max. run_method; simpl; auto.
Qed.

Lemma _test_range_quiet v r c raw self :
  ensures (_test_range v r c raw) self (fun b _ evs => quiet b evs).
Proof.
  unfold _test_range, _test_range_max, quiet.
  run_method; simpl; auto; discriminate.
Qed.

Lemma _test_pattern_quiet v r c raw self :
  ensures (_test_pattern v r c raw) self (fun b _ evs => quiet b evs).
Proof.
  unfold _test_pattern, quiet. run_method; simpl; auto; discriminate.
Qed.

Lemma _test_enumeration_quiet v r c raw self :
  ensures (_test_enumeration v r c raw) self (fun b _ evs => quiet b evs).
Proof.
  unfold _test_enumeration, quiet. run_method; simpl; auto; discriminate.
Qed.

Lemma _test_unique_quiet v r c raw self :
  ensures (_test_unique v r c raw) self (fun b _ evs => quiet b evs).
Proof.
  unfold _test_unique, quiet. run_method; simpl; auto; discriminate.
Qed.

Lemma parse_key_silent k own self :
  ensures (parse_key k own) self (fun _ self' evs => self' = self /\ evs = []).
Proof. unfold parse_key. run_method; auto. Qed.

Lemma init_silent self :
  ensures init self (fun _ _ evs => evs = []).
Proof.
  unfold init.
  apply ensures_bind, ensures_get_state.
  apply ensures_bind.
  assert (H : forall m : M unit,
             (m = ret tt \/ exists f, m = modify f) ->
             forall Q : unit -> t -> list event -> Prop,
               (forall s', Q tt s' []) -> ensures m self Q).
  { intros m [->|[f ->]] Q HQ; apply HQ. }
  apply H.
  { destruct (enum self) as [vs|]; [destruct (nonempty vs)|]; eauto. }
  intros s1. simpl.
  seq parse_key_silent. intros uk s2 evs [-> ->].
  apply ensures_bind, ensures_modify.
  seq parse_key_silent. intros ck s3 evs' [-> ->].
  apply ensures_bind, ensures_modify. apply ensures_modify. reflexivity.
Qed.

Lemma init_keeps_data_type self :
  ensures init self (fun _ self' _ => data_type self' = data_type self).
Proof.
  unfold init, parse_key. run_method; reflexivity.
Qed.

Lemma _check_init_silent self :
  ensures _check_init self (fun _ _ evs => evs = []).
Proof.
  unfold _check_init. apply ensures_bind, ensures_get_state.
  destruct (negb (_initialised self)); [apply init_silent | reflexivity].
Qed.

Lemma validate_quiet raw r c self :
  ensures (validate raw r c) self (fun b _ evs => quiet b evs).
Proof.
  unfold validate.
  seq _check_init_silent. intros _ s0 ? ->.
  destruct (is_empty raw); [apply ensures_ret; auto|].
  apply ensures_bind, ensures_get_state.
  seq _test_type_quiet. intros b1 s1 e1 H1.
  seq _test_range_quiet. intros b2 s2 e2 H2.
  seq _test_pattern_quiet. intros b3 s3 e3 H3.
  seq _test_enumeration_quiet. intros b4 s4 e4 H4.
  seq _test_unique_quiet. intros b5 s5 e5 H5.
  apply ensures_ret. intros H.
  repeat (apply andb_true_iff in H; destruct H as [H ?]).
  rewrite H1, H2, H3, H4, H5 by assumption. reflexivity.
Qed.

Lemma validate_columns_quiet cols self :
  ensures (validate_columns cols) self (fun b _ evs => quiet b evs).
Proof.
  unfold validate_columns.
  seq _check_init_silent. intros _ s0 ? ->.
  apply ensures_bind, ensures_get_state.
  destruct (wants_columns s0); [|apply ensures_ret; auto].
  destruct (too_few_columns s0 _); [|apply ensures_ret; auto].
  apply ensures_bind. eapply ensures_weaken; [apply ensures_trivial|].
  intros. apply ensures_ret. auto.
Qed.

Lemma validate_values_quiet r vs self :
  ensures (validate_values r vs) self (fun seen _ evs => quiet (fst seen) evs).
Proof.
  unfold validate_values.
  apply (ensures_for_each_nil _ (fun seen _ evs => quiet (fst seen) evs));
    [|auto].
  intros [result number_seen] [column_number v] s ws Hq.
  apply ensures_bind, ensures_or_raise. intros col _.
  seq validate_quiet. intros ok s' evs Hok.
  apply ensures_ret. simpl in *. intros H.
  destruct ok; simpl in H; [|discriminate].
  rewrite Hq, Hok by auto. reflexivity.
Qed.

Lemma check_required_spec r n st self :
  ensures (check_required r n st) self
    (fun st' _ evs => keeps_or_fails st st' evs).
Proof.
  unfold check_required, keeps_or_fails. destruct st.
  run_method; simpl; auto.
Qed.

Lemma check_min_occur_spec r n st self :
  ensures (check_min_occur r n st) self
    (fun st' _ evs => keeps_or_fails st st' evs).
Proof.
  unfold check_min_occur, keeps_or_fails. destruct st.
  run_method; simpl; auto.
Qed.

Lemma check_max_occur_spec r n st self :
  ensures (check_max_occur r n st) self
    (fun st' _ evs => keeps_or_fails st st' evs).
Proof.
  unfold check_max_occur, keeps_or_fails. destruct st.
  run_method; simpl; auto.
Qed.

Lemma check_unique_key_spec r st self :
  ensures (check_unique_key r st) self
    (fun st' _ evs => keeps_or_fails st st' evs).
Proof.
  unfold check_unique_key, keeps_or_fails. destruct st.
  run_method; simpl; auto.
Qed.

Lemma keeps_or_fails_quiet st st' evs evs' :
  quiet (fst st) evs -> keeps_or_fails st st' evs' ->
  quiet (fst st') (evs ++ evs').
Proof.
  unfold quiet. intros Hq [[-> Heq]|Hf] H.
  - rewrite app_nil_r. apply Hq. congruence.
  - congruence.
Qed.

Lemma validate_row_quiet r self :
  ensures (validate_row r) self (fun b _ evs => quiet b evs).
Proof.
  unfold validate_row.
  seq _check_init_silent. intros _ s0 ? ->.
  apply ensures_bind, ensures_get_state.
  seq validate_values_quiet. intros [result number_seen] s1 e1 H1.
  seq check_required_spec. intros st2 s2 e2 H2.
  pose proof (keeps_or_fails_quiet (result, _) _ _ _ H1 H2) as Q2.
  seq check_min_occur_spec. intros st3 s3 e3 H3.
  pose proof (keeps_or_fails_quiet _ _ _ _ Q2 H3) as Q3.
  seq check_max_occur_spec. intros st4 s4 e4 H4.
  pose proof (keeps_or_fails_quiet _ _ _ _ Q3 H4) as Q4.
  seq check_unique_key_spec. intros st5 s5 e5 H5.
  pose proof (keeps_or_fails_quiet _ _ _ _ Q4 H5) as Q5.
  apply ensures_bind, ensures_get_state.
  apply ensures_bind.
  assert (H : forall m : M unit,
             (m = ret tt \/ exists f, m = modify f) ->
             forall Q : unit -> t -> list event -> Prop,
               (forall s', Q tt s' []) -> ensures m s5 Q).
  { intros m [->|[f ->]] Q HQ; apply HQ. }
  apply H; [destruct (correlation_key s5); eauto|].
  intros s6. simpl.
  apply ensures_bind.
  assert (H' : forall m : M unit,
             (m = ret tt \/ exists f, m = modify f) ->
             forall Q : unit -> t -> list event -> Prop,
               (forall s', Q tt s' []) -> ensures m s6 Q).
  { intros m [->|[f ->]] Q HQ; apply HQ. }
  apply H'; [destruct (consistent_datatypes s5); eauto|].
  intros s7. apply ensures_ret.
  intros Hb. specialize (Q5 Hb). simpl.
  repeat match goal with
         | H : _ ++ _ = [] |- _ => apply app_eq_nil in H; destruct H; subst
         end.
  reflexivity.
Qed.

Lemma top_values_silent counts self :
  ensures (top_values counts) self (fun _ _ evs => evs = []).
Proof.
  revert self. induction counts as [|[key vals] counts IH]; intros self.
  - reflexivity.
  - simpl. destruct (sorted by_count_desc vals) as [|[top n] rest];
      [exact I|].
    seq IH. intros tops s' evs ->. reflexivity.
Qed.

Lemma expected_values_of_silent m self :
  ensures (expected_values_of m) self (fun _ _ evs => evs = []).
Proof.
  unfold expected_values_of.
  apply (ensures_for_each_nil _ (fun _ _ evs => evs = [])); [|reflexivity].
  intros expected [hashtag by_value] s ws ->.
  destruct (count_values by_value) as [|c counts]; [exact I|].
  seq top_values_silent. intros tops s' evs ->. reflexivity.
Qed.

Lemma _finish_correlations_quiet self :
  ensures _finish_correlations self (fun b _ evs => quiet b evs).
Proof.
  unfold _finish_correlations.
  apply ensures_bind, ensures_get_state.
  destruct (nonempty (_correlation_map self)); [|apply ensures_ret; auto].
  seq expected_values_of_silent. intros expected s0 ? ->.
  apply (ensures_for_each_nil _ (fun b _ evs => quiet b evs)); [|auto].
  intros result [hashtag by_value] s ws Hq.
  apply (ensures_for_each _ (fun b _ evs => quiet b evs)); [|exact Hq].
  intros result' [v keys] s' ws' Hq'.
  destruct (1 <? List.length keys).
  - apply ensures_bind. eapply ensures_weaken; [apply ensures_trivial|].
    intros. apply ensures_ret. auto.
  - apply ensures_ret. rewrite app_nil_r. exact Hq'.
Qed.

Lemma _finish_consistency_quiet self :
  ensures _finish_consistency self
    (fun res _ evs => py_not res = false -> evs = []).
Proof.
  unfold _finish_consistency.
  apply ensures_bind, ensures_get_state.
  destruct (negb (nonempty (_consistency_map self)));
    [apply ensures_ret; discriminate|].
  apply ensures_bind.
  eapply ensures_weaken.
  - apply (ensures_for_each_nil _ (fun b _ evs => quiet b evs)); [|auto].
    intros result [hashtag by_type] s ws Hq.
    destruct (sorted by_entries_desc by_type) as [|top [|second others]].
    + apply ensures_ret. rewrite app_nil_r. exact Hq.
    + apply ensures_ret. rewrite app_nil_r. exact Hq.
    + apply ensures_bind. eapply ensures_weaken; [apply ensures_trivial|].
      intros. apply ensures_ret. auto.
  - intros result s evs Hq. apply ensures_ret.
    simpl. rewrite app_nil_r. destruct result; [auto | discriminate].
Qed.

Lemma finish_quiet self :
  ensures finish self (fun b _ evs => quiet b evs).
Proof.
  unfold finish.
  seq _finish_correlations_quiet. intros ok s1 e1 H1.
  apply ensures_bind, ensures_get_state.
  destruct (consistent_datatypes s1).
  - seq _finish_consistency_quiet. intros res s2 e2 H2.
    apply ensures_ret. simpl. rewrite app_nil_r.
    destruct (py_not res); [auto|].
    destruct ok; simpl; [|auto].
    intros _. rewrite H1, H2; auto.
  - apply ensures_ret. simpl. destruct ok; simpl; [|auto].
    intros _. rewrite H1; auto.
Qed.

(** C3. The flags of the pattern test: the regular expression is matched
    with [re.IGNORECASE] exactly when [case_sensitive] is true, and with no
    flag (on the lowercased value) when it is false. *)
Theorem _test_pattern_flags (self : t) (rx : Regex) v r c raw :
  regex self = Some rx -> regex_truthy rx = true ->
  _test_pattern v r c raw self =
  match re_match rx v (if case_sensitive self then IGNORECASE else 0%Z) with
  | None => Raise re_error
  | Some true => Ret (true, self, [])
  | Some false =>
      Ret (false, self,
           match callback self with
           | Some cb =>
               [(cb, {| message :=
                          ("Failed to match pattern " ++ str_regex rx)%string;
                        value := Some v; row := r; column := c;
                        suggested_value := Some raw |})]
           | None => []
           end)
  end.
Proof.
  intros Hrx Htruthy.
  unfold _test_pattern, bind, get_self, get_state, pattern_flags.
  rewrite Hrx, Htruthy.
  destruct (re_match rx v (if case_sensitive self then IGNORECASE else 0%Z))
    as [[|]|]; simpl; try reflexivity.
  rewrite app_nil_r. reflexivity.
Qed.

Lemma _test_type_suggests v r c raw self :
  ensures (_test_type v r c raw) self (fun _ _ evs => suggests raw evs).
Proof.
  unfold _test_type, suggests. run_method; simpl; repeat constructor.
Qed.

Lemma _test_range_suggests v r c raw self :
  ensures (_test_range v r c raw) self (fun _ _ evs => suggests raw evs).
Proof.
  unfold _test_range, _test_range_max, suggests.
  run_method; simpl; repeat constructor.
Qed.

Lemma validate_reports_nonempty raw r c self :
  ensures (validate raw r c) self
    (fun _ _ evs => evs <> [] -> is_empty raw = false).
Proof.
  unfold validate.
  seq _check_init_silent. intros _ s0 ? ->.
  destruct (is_empty raw).
  - apply ensures_ret. intros H. elim H. reflexivity.
  - eapply ensures_weaken; [apply ensures_trivial|]. reflexivity.
Qed.

(** The suggestion of an enumeration error is computed: with nothing in the
    suggestion memo, it is the closest allowed value, as the enumeration
    spells it. *)
Lemma _test_enumeration_suggests_closest v r c raw self enum_map :
  _enum_map self = Some enum_map -> _suggestion_map self = [] ->
  ensures (_test_enumeration v r c raw) self
    (fun _ _ evs =>
       Forall
         (fun ev =>
            suggested_value (snd ev) =
            match Matcher.find_closest_match v (map fst enum_map) with
            | Some sv =>
                if truthy sv then dict_get String.eqb enum_map sv
                else Some sv
            | None => None
            end) evs).
Proof.
  intros Hm Hs. unfold _test_enumeration.
  unfold ensures, bind, get_self, get_state. rewrite Hm, Hs. simpl.
  destruct (negb (dict_mem String.eqb enum_map v)); [|constructor].
  destruct (Matcher.find_closest_match v (map fst enum_map)) as [sv|].
  - destruct (truthy sv); simpl.
    + destruct (dict_get String.eqb enum_map sv); simpl; [|exact I].
      destruct (enum self); simpl; [|exact I].
      unfold _report_error. destruct (callback self); repeat constructor.
    + destruct (enum self); simpl; [|exact I].
      unfold _report_error. destruct (callback self); repeat constructor.
  - simpl. destruct (enum self); simpl; [|exact I].
    unfold _report_error. destruct (callback self); repeat constructor.
Qed.

Lemma _test_type_same v r c raw self :
  ensures (_test_type v r c raw) self (fun _ self' _ => self' = self).
Proof. unfold _test_type. run_method; reflexivity. Qed.

Lemma _test_pattern_suggests v r c raw self :
  ensures (_test_pattern v r c raw) self (fun _ _ evs => suggests raw evs).
Proof.
  unfold _test_pattern, suggests. run_method; simpl; repeat constructor.
Qed.

Lemma _test_unique_suggests_nothing v r c raw self :
  ensures (_test_unique v r c raw) self
    (fun _ _ evs => Forall (fun ev => suggested_value (snd ev) = None) evs).
Proof.
  unfold _test_unique. run_method; simpl; repeat constructor.
Qed.

Lemma _test_enumeration_messages v r c raw self :
  ensures (_test_enumeration v r c raw) self
    (fun _ _ evs =>
       Forall
         (fun ev => is_type_or_range_message (message (snd ev)) = false)
         evs).
Proof.
  unfold _test_enumeration. run_method; simpl; repeat constructor.
Qed.

Lemma _test_unique_messages v r c raw self :
  ensures (_test_unique v r c raw) self
    (fun _ _ evs =>
       Forall
         (fun ev => is_type_or_range_message (message (snd ev)) = false)
         evs).
Proof.
  unfold _test_unique. run_method; simpl; repeat constructor.
Qed.

(** [init] leaves what the tests on a value read. *)
Lemma init_keeps_tests self :
  ensures init self
    (fun _ s evs =>
       evs = [] /\ callback s = callback self /\
       data_type s = data_type self /\ min_value s = min_value self /\
       max_value s = max_value self /\
       case_sensitive s = case_sensitive self).
Proof.
  unfold init, parse_key. run_method; simpl; repeat split; reflexivity.
Qed.

Lemma _check_init_keeps_tests self :
  ensures _check_init self
    (fun _ s evs =>
       evs = [] /\ callback s = callback self /\
       data_type s = data_type self /\ min_value s = min_value self /\
       max_value s = max_value self /\
       case_sensitive s = case_sensitive self).
Proof.
  unfold _check_init. apply ensures_bind, ensures_get_state.
  destruct (negb (_initialised self)); [apply init_keeps_tests|].
  apply ensures_ret. repeat split; reflexivity.
Qed.

Lemma ensures_bind_Forall {A B} (P : event -> Prop) (m : M A)
    (f : A -> M B) self :
  ensures m self (fun _ _ evs => Forall P evs) ->
  (forall a s, ensures (f a) s (fun _ _ evs => Forall P evs)) ->
  ensures (bind m f) self (fun _ _ evs => Forall P evs).
Proof.
  intros Hm Hf. apply ensures_bind.
  eapply ensures_weaken; [exact Hm|]. intros a s e1 F1.
  eapply ensures_weaken; [apply Hf|]. intros b s' e2 F2.
  apply Forall_app. split; assumption.
Qed.

Lemma validate_type_and_range_events raw r c self :
  ensures (validate raw r c) self
    (fun _ _ evs =>
       Forall
         (fun ev =>
            is_type_or_range_message (message (snd ev)) = true ->
            suggested_value (snd ev) = Some raw /\ is_empty raw = false)
         evs).
Proof.
  unfold validate.
  apply ensures_bind_Forall.
  { eapply ensures_weaken; [apply _check_init_silent|].
    intros ? ? ? ->. constructor. }
  intros _ s0. destruct (is_empty raw) eqn:E; [apply ensures_ret; constructor|].
  apply ensures_bind_Forall; [apply ensures_get_state; constructor|].
  intros self' s0'. cbv zeta.
  apply ensures_bind_Forall.
  { eapply ensures_weaken; [apply _test_type_suggests|].
    intros ? ? evs H. eapply Forall_impl; [|exact H]. cbv beta. auto. }
  intros ok1 s1. apply ensures_bind_Forall.
  { eapply ensures_weaken; [apply _test_range_suggests|].
    intros ? ? evs H. eapply Forall_impl; [|exact H]. cbv beta. auto. }
  intros ok2 s2. apply ensures_bind_Forall.
  { eapply ensures_weaken; [apply _test_pattern_suggests|].
    intros ? ? evs H. eapply Forall_impl; [|exact H]. cbv beta. auto. }
  intros ok3 s3. apply ensures_bind_Forall.
  { eapply ensures_weaken; [apply _test_enumeration_messages|].
    intros ? ? evs H. eapply Forall_impl; [|exact H]. cbv beta.
    intros ev -> H'. discriminate. }
  intros ok4 s4. apply ensures_bind_Forall.
  { eapply ensures_weaken; [apply _test_unique_messages|].
    intros ? ? evs H. eapply Forall_impl; [|exact H]. cbv beta.
    intros ev -> H'. discriminate. }
  intros ok5 s5. apply ensures_ret. constructor.
Qed.

(** *** The failing cases *)

Lemma _test_type_failures v r c raw self :
  (data_type self = Some "number" -> is_number v = false ->
   _test_type v r c raw self
   = _report_error "Expected a number" (Some v) r c (Some raw) self) /\
  (data_type self = Some "url" ->
   (forall scheme netloc, urlparse v = (scheme, netloc) ->
      truthy scheme && truthy netloc = false) ->
   _test_type v r c raw self
   = _report_error "Expected a URL" (Some v) r c (Some raw) self) /\
  (data_type self = Some "email" ->
   re_match (Source "^[^@]+@[^@]+$") v 0%Z = Some false ->
   _test_type v r c raw self
   = _report_error "Expected an email address" (Some v) r c (Some raw) self) /\
  (data_type self = Some "phone" ->
   re_match (Source "^\+?[0-9xX()\s-]{5,}$") v 0%Z = Some false ->
   _test_type v r c raw self
   = _report_error "Expected a phone number" (Some v) r c (Some raw) self) /\
  (data_type self = Some "date" -> is_date v = false ->
   _test_type v r c raw self
   = _report_error "Expected a date of some sort" (Some v) r c (Some raw)
       self).
Proof.
  repeat split; intros Hd H;
    cbv beta iota delta [_test_type bind get_self get_state];
    rewrite Hd; cbn [String.eqb Ascii.eqb Bool.eqb andb].
  - rewrite H. reflexivity.
  - destruct (urlparse v) as [scheme netloc] eqn:U.
    rewrite (H scheme netloc eq_refl). reflexivity.
  - rewrite H. cbv beta iota delta [or_raise ret negb].
    unfold _report_error. destruct (callback self); reflexivity.
  - rewrite H. cbv beta iota delta [or_raise ret negb].
    unfold _report_error. destruct (callback self); reflexivity.
  - rewrite H. reflexivity.
Qed.

Lemma _test_range_failures v r c raw self x :
  float v = Some x ->
  (forall mn, min_value self = Some mn -> max_value self = None ->
     float_lt x mn = true ->
     _test_range v r c raw self
     = _report_error ("Value is less than " ++ str_float mn)%string
         (Some raw) r c (Some raw) self) /\
  (forall mx, min_value self = None -> max_value self = Some mx ->
     float_lt mx x = true ->
     _test_range v r c raw self
     = _report_error ("Value is great than " ++ str_float mx)%string
         (Some raw) r c (Some raw) self).
Proof.
  intros Hx. split.
  - intros mn Hmn Hmx Hlt.
    cbv beta iota delta [_test_range _test_range_max bind get_self get_state].
    rewrite Hmn, Hx, Hlt. unfold _report_error. rewrite Hmx.
    destruct (callback self); reflexivity.
  - intros mx Hmn Hmx Hlt.
    cbv beta iota delta [_test_range _test_range_max bind get_self get_state].
    rewrite Hmn. cbv beta iota. rewrite Hmx, Hx, Hlt.
    unfold _report_error. destruct (callback self); reflexivity.
Qed.

(** *** Through [validate] *)

Lemma normalise_for_same s self raw :
  case_sensitive s = case_sensitive self ->
  normalise_for s raw = normalise_for self raw.
Proof. unfold normalise_for. intros ->. reflexivity. Qed.

Lemma _test_range_min_reported v r c raw self cb mn x :
  callback self = Some cb -> min_value self = Some mn ->
  float v = Some x -> float_lt x mn = true ->
  ensures (_test_range v r c raw) self
    (fun b _ evs =>
       b = false /\
       In (cb, {| message := ("Value is less than " ++ str_float mn)%string;
                  value := Some raw; row := r; column := c;
                  suggested_value := Some raw |})
          evs).
Proof.
  intros Hcb Hmn Hx Hlt.
  cbv beta iota delta [ensures _test_range _test_range_max bind get_self
                         get_state _report_error ret].
  rewrite Hmn, Hx, Hlt, Hcb.
  destruct (max_value self) as [mx|]; [destruct (float_lt mx x)|];
    simpl; auto.
Qed.

Lemma validate_delivers_type_error raw r c self cb :
  callback self = Some cb -> data_type self = Some "number" ->
  is_empty raw = false -> is_number (normalise_for self raw) = false ->
  ensures (validate raw r c) self
    (fun b s evs =>
       b = false /\
       In (cb, {| message := "Expected a number";
                  value := Some (normalise_for self raw);
                  row := r; column := c; suggested_value := Some raw |})
          evs).
Proof.
  intros Hcb Hd He Hn. unfold validate.
  seq _check_init_keeps_tests. intros ? s0 ? (-> & Hcb0 & Hd0 & _ & _ & Hcs).
  rewrite He. apply ensures_bind, ensures_get_state. cbv zeta.
  rewrite Hcb, Hd in *.
  rewrite (normalise_for_same s0 self raw Hcs).
  apply ensures_bind.
  destruct (_test_type_failures (normalise_for self raw) r c raw s0)
    as (Hnum & _).
  unfold ensures. rewrite (Hnum Hd0 Hn).
  unfold _report_error. rewrite Hcb0.
  do 4 (apply ensures_bind; eapply ensures_weaken;
        [apply ensures_trivial | cbv beta; intros ? ? ? _]).
  apply ensures_ret. split; [reflexivity|].
  left. reflexivity.
Qed.

Lemma validate_delivers_range_error raw r c self cb mn x :
  callback self = Some cb -> min_value self = Some mn ->
  is_empty raw = false ->
  float (normalise_for self raw) = Some x -> float_lt x mn = true ->
  ensures (validate raw r c) self
    (fun b s evs =>
       b = false /\
       In (cb, {| message := ("Value is less than " ++ str_float mn)%string;
                  value := Some raw; row := r; column := c;
                  suggested_value := Some raw |})
          evs).
Proof.
  intros Hcb Hmn He Hx Hlt. unfold validate.
  seq _check_init_keeps_tests.
  intros ? s0 ? (-> & Hcb0 & _ & Hmn0 & _ & Hcs).
  rewrite He. apply ensures_bind, ensures_get_state. cbv zeta.
  rewrite Hcb, Hmn in *.
  rewrite (normalise_for_same s0 self raw Hcs).
  seq _test_type_same. intros ok1 s1 e1 ->.
  seq (_test_range_min_reported (normalise_for self raw) r c raw s0 cb mn x
         Hcb0 Hmn0 Hx Hlt).
  intros ok2 s2 e2 (-> & Hin).
  do 3 (apply ensures_bind; eapply ensures_weaken;
        [apply ensures_trivial | cbv beta; intros ? ? ? _]).
  apply ensures_ret. split; [rewrite andb_false_r; reflexivity|].
  rewrite !in_app_iff. auto.
Qed.

(** *** Enumerations *)

Lemma dict_mem_in {V} (m : dict string V) k :
  dict_mem String.eqb m k = true <-> In k (map fst m).
Proof.
  unfold dict_mem. induction m as [|[k' v'] m IH]; simpl.
  - split; [discriminate | contradiction].
  - destruct (String.eqb k k') eqn:E.
    + apply String.eqb_eq in E. subst. split; auto.
    + rewrite IH. apply String.eqb_neq in E.
      split; [auto | intros [H|H]; [congruence | exact H]].
Qed.

Lemma get_edit_distance_empty s : Matcher.get_edit_distance s "" = len s.
Proof.
  rewrite MatcherFacts.get_edit_distance_lev. apply MatcherFacts.lev_nil_r.
Qed.

Lemma len_zero s : len s = 0 -> s = "".
Proof. destruct s; [reflexivity | discriminate]. Qed.

(** A value outside the enumeration: the suggestion is computed, from the
    closest key of the lookup map. *)
Lemma _test_enumeration_failure v r c raw self m vs :
  _enum_map self = Some m -> enum self = Some vs ->
  _suggestion_map self = [] -> dict_mem String.eqb m v = false ->
  _test_enumeration v r c raw self
  = _report_error
      (if List.length vs <=? 7
       then ("Must be one of " ++ str_list vs)%string
       else "Not in allowed values")
      (Some raw) r c
      (match Matcher.find_closest_match v (map fst m) with
       | Some sv => dict_get String.eqb m sv
       | None => None
       end)
      self.
Proof.
  intros Hm He Hs Hmem.
  cbv beta iota zeta delta [_test_enumeration bind get_self get_state].
  rewrite Hm, Hmem, Hs. cbn [negb dict_get].
  destruct (Matcher.find_closest_match v (map fst m)) as [sv|] eqn:Hfind.
  - apply MatcherFacts.find_closest_match_some in Hfind as (Hin & Hcut & _).
    assert (Ht : truthy sv = true).
    { unfold truthy. apply negb_true_iff, String.eqb_neq. intros ->.
      rewrite get_edit_distance_empty in Hcut.
      assert (v = "") by (apply len_zero; lia). subst v.
      apply dict_mem_in in Hin. congruence. }
    rewrite Ht. apply dict_mem_in in Hin. unfold dict_mem in Hin.
    destruct (dict_get String.eqb m sv) as [original|]; [|discriminate].
    cbv beta iota delta [or_raise ret]. rewrite He.
    unfold _report_error. destruct (callback self); reflexivity.
  - cbv beta iota delta [or_raise ret]. rewrite He.
    unfold _report_error. destruct (callback self); reflexivity.
Qed.

(** C10. [_test_type] and [_test_range] pass the raw value to the
    [suggested_value] parameter of [_report_error], which hands it to the
    callback as it is: each failing case of the two tests is that one call,
    and [validate] delivers it.  Every type or range error that [validate]
    delivers carries the raw value [validate] was given, which is not
    empty.  Only the enumeration test computes a suggestion, from the
    closest key of its lookup map; the pattern test also passes the raw
    value and the uniqueness test passes nothing. *)
Theorem type_and_range_errors_suggest_raw_value v r c raw self :
  (forall msg value sv,
     _report_error msg value r c sv self
     = Ret (false, self,
            match callback self with
            | Some cb =>
                [(cb, {| message := msg; value := value; row := r;
                         column := c; suggested_value := sv |})]
            | None => []
            end)) /\
  ((data_type self = Some "number" -> is_number v = false ->
    _test_type v r c raw self
    = _report_error "Expected a number" (Some v) r c (Some raw) self) /\
   (data_type self = Some "url" ->
    (forall scheme netloc, urlparse v = (scheme, netloc) ->
       truthy scheme && truthy netloc = false) ->
    _test_type v r c raw self
    = _report_error "Expected a URL" (Some v) r c (Some raw) self) /\
   (data_type self = Some "email" ->
    re_match (Source "^[^@]+@[^@]+$") v 0%Z = Some false ->
    _test_type v r c raw self
    = _report_error "Expected an email address" (Some v) r c (Some raw)
        self) /\
   (data_type self = Some "phone" ->
    re_match (Source "^\+?[0-9xX()\s-]{5,}$") v 0%Z = Some false ->
    _test_type v r c raw self
    = _report_error "Expected a phone number" (Some v) r c (Some raw) self) /\
   (data_type self = Some "date" -> is_date v = false ->
    _test_type v r c raw self
    = _report_error "Expected a date of some sort" (Some v) r c (Some raw)
        self)) /\
  (forall x, float v = Some x ->
     (forall mn, min_value self = Some mn -> max_value self = None ->
        float_lt x mn = true ->
        _test_range v r c raw self
        = _report_error ("Value is less than " ++ str_float mn)%string
            (Some raw) r c (Some raw) self) /\
     (forall mx, min_value self = None -> max_value self = Some mx ->
        float_lt mx x = true ->
        _test_range v r c raw self
        = _report_error ("Value is great than " ++ str_float mx)%string
            (Some raw) r c (Some raw) self)) /\
  ensures (_test_type v r c raw) self (fun _ _ evs => suggests raw evs) /\
  ensures (_test_range v r c raw) self (fun _ _ evs => suggests raw evs) /\
  ensures (validate raw r c) self
    (fun _ _ evs =>
       (evs <> [] -> is_empty raw = false) /\
       Forall
         (fun ev =>
            is_type_or_range_message (message (snd ev)) = true ->
            suggested_value (snd ev) = Some raw /\ is_empty raw = false)
         evs) /\
  (forall cb,
     callback self = Some cb -> data_type self = Some "number" ->
     is_empty raw = false -> is_number (normalise_for self raw) = false ->
     ensures (validate raw r c) self
       (fun b _ evs =>
          b = false /\
          In (cb, {| message := "Expected a number";
                     value := Some (normalise_for self raw);
                     row := r; column := c; suggested_value := Some raw |})
             evs)) /\
  (forall cb mn x,
     callback self = Some cb -> min_value self = Some mn ->
     is_empty raw = false ->
     float (normalise_for self raw) = Some x -> float_lt x mn = true ->
     ensures (validate raw r c) self
       (fun b _ evs =>
          b = false /\
          In (cb, {| message := ("Value is less than " ++ str_float mn)%string;
                     value := Some raw; row := r; column := c;
                     suggested_value := Some raw |})
             evs)) /\
  (forall m vs,
     _enum_map self = Some m -> enum self = Some vs ->
     _suggestion_map self = [] -> dict_mem String.eqb m v = false ->
     _test_enumeration v r c raw self
     = _report_error
         (if List.length vs <=? 7
          then ("Must be one of " ++ str_list vs)%string
          else "Not in allowed values")
         (Some raw) r c
         (match Matcher.find_closest_match v (map fst m) with
          | Some sv => dict_get String.eqb m sv
          | None => None
          end)
         self) /\
  ensures (_test_pattern v r c raw) self (fun _ _ evs => suggests raw evs) /\
  ensures (_test_unique v r c raw) self
    (fun _ _ evs => Forall (fun ev => suggested_value (snd ev) = None) evs).
Proof.
  split; [intros; reflexivity|].
  split; [apply _test_type_failures|].
  split; [intros x Hx; apply (_test_range_failures v r c raw self x Hx)|].
  split; [apply _test_type_suggests|].
  split; [apply _test_range_suggests|].
  split.
  { unfold ensures.
    pose proof (validate_reports_nonempty raw r c self) as H1.
    pose proof (validate_type_and_range_events raw r c self) as H2.
    unfold ensures in H1, H2.
    destruct (validate raw r c self) as [[[b s] evs]|e]; auto. }
  split; [intros cb; apply validate_delivers_type_error|].
  split; [intros cb mn x; apply validate_delivers_range_error|].
  split; [intros m vs; apply _test_enumeration_failure|].
  split; [apply _test_pattern_suggests
         |apply _test_unique_suggests_nothing].
Qed.

(** ** Growth of the accumulation maps *)

Lemma dict_set_length {K V} (eqb : K -> K -> bool) (d : dict K V) k v :
  List.length (dict_set eqb d k v) <= List.length d + 1.
Proof.
  induction d as [|[k' v'] d IH]; simpl; [lia|].
  destruct (eqb k k'); simpl; lia.
Qed.

Lemma dict_total_update {K V} (eqb : K -> K -> bool) (size : V -> nat)
    (f : V -> V) (default : V) (n : nat) :
  (forall v, size (f v) <= size v + n) -> size (f default) <= n ->
  forall (d : dict K V) k,
    dict_total size (dict_update eqb d k default f) <= dict_total size d + n.
Proof.
  intros Hf Hd. induction d as [|[k' v'] d IH]; intros k; simpl.
  - lia.
  - destruct (eqb k k'); simpl.
    + specialize (Hf v'). lia.
    + specialize (IH k). lia.
Qed.

Lemma record_correlation_entries m hashtag v key loc :
  correlation_entries (record_correlation m hashtag v key loc)
  <= correlation_entries m + 1.
Proof.
  unfold correlation_entries, record_correlation.
  apply dict_total_update.
  - intros by_value. apply dict_total_update.
    + intros by_key. apply dict_total_update.
      * intros locs. rewrite length_app. simpl. lia.
      * simpl. lia.
    + simpl. lia.
  - simpl. lia.
Qed.

Lemma track_correlation_entries r pattern key cs m :
  correlation_entries (track_correlation r pattern key cs m)
  <= correlation_entries m + 1.
Proof.
  induction cs as [|[col v] cs IH]; simpl; [lia|].
  destruct (tp_match pattern col); [|exact IH].
  destruct (is_empty v); [exact IH|].
  apply record_correlation_entries.
Qed.

Lemma record_datatype_entries m hashtag type entry :
  consistency_entries (record_datatype m hashtag type entry)
  <= consistency_entries m + 1.
Proof.
  unfold consistency_entries, record_datatype.
  apply dict_total_update.
  - intros by_type. apply dict_total_update.
    + intros es. rewrite length_app. simpl. lia.
    + simpl. lia.
  - simpl. lia.
Qed.

Lemma track_datatypes_entries r pattern cs : forall m,
  consistency_entries (track_datatypes r pattern cs m)
  <= consistency_entries m
     + List.length (filter (fun c => tp_match pattern (fst c)) cs).
Proof.
  unfold track_datatypes.
  induction cs as [|[col v] cs IH]; intros m; simpl; [lia|].
  destruct (tp_match pattern col); simpl.
  - destruct (is_empty v).
    + specialize (IH m). lia.
    + specialize (IH (record_datatype m (display_tag col) (typeof v col)
                        (r, col, v))).
      pose proof (record_datatype_entries m (display_tag col)
                    (typeof v col) (r, col, v)).
      lia.
  - apply IH.
Qed.

Lemma grows_refl self : grows 0 0 0 0 self self.
Proof. unfold grows. repeat split; lia. Qed.

Lemma grows_trans a b c d a' b' c' d' s1 s2 s3 :
  grows a b c d s1 s2 -> grows a' b' c' d' s2 s3 ->
  grows (a + a') (b + b') (c + c') (d + d') s1 s3.
Proof.
  unfold grows. intros (T1 & A1 & B1 & C1 & D1) (T2 & A2 & B2 & C2 & D2).
  repeat split; try lia. congruence.
Qed.

Lemma grows_le a b c d a' b' c' d' s1 s2 :
  grows a b c d s1 s2 -> a <= a' -> b <= b' -> c <= c' -> d <= d' ->
  grows a' b' c' d' s1 s2.
Proof.
  unfold grows. intros (T1 & A1 & B1 & C1 & D1) ? ? ? ?.
  repeat split; try lia. exact T1.
Qed.

Lemma init_grows self :
  ensures init self (fun _ self' _ => grows 0 0 0 0 self self').
Proof.
  unfold init, parse_key. run_method; unfold grows; simpl; repeat split; lia.
Qed.

Lemma _check_init_grows self :
  ensures _check_init self (fun _ self' _ => grows 0 0 0 0 self self').
Proof.
  unfold _check_init. apply ensures_bind, ensures_get_state.
  destruct (negb (_initialised self));
    [apply init_grows | apply ensures_ret, grows_refl].
Qed.

Lemma _test_range_same v r c raw self :
  ensures (_test_range v r c raw) self (fun _ self' _ => self' = self).
Proof. unfold _test_range, _test_range_max. run_method; reflexivity. Qed.

Lemma _test_pattern_same v r c raw self :
  ensures (_test_pattern v r c raw) self (fun _ self' _ => self' = self).
Proof. unfold _test_pattern. run_method; reflexivity. Qed.

Lemma _test_enumeration_same v r c raw self :
  ensures (_test_enumeration v r c raw) self (fun _ self' _ => self' = self).
Proof. unfold _test_enumeration. run_method; reflexivity. Qed.

Lemma _test_unique_grows v r c raw self :
  ensures (_test_unique v r c raw) self
    (fun _ self' _ => grows 1 0 0 0 self self').
Proof.
  unfold _test_unique. run_method; unfold grows; simpl;
    repeat split; try lia; apply dict_set_length.
Qed.

Lemma validate_grows raw r c self :
  ensures (validate raw r c) self (fun _ self' _ => grows 1 0 0 0 self self').
Proof.
  unfold validate.
  seq _check_init_grows. intros ? s0 ? G0.
  destruct (is_empty raw).
  - apply ensures_ret. eapply grows_le; [exact G0|lia..].
  - apply ensures_bind, ensures_get_state.
    seq _test_type_same. intros ? s1 ? ->.
    seq _test_range_same. intros ? s2 ? ->.
    seq _test_pattern_same. intros ? s3 ? ->.
    seq _test_enumeration_same. intros ? s4 ? ->.
    seq _test_unique_grows. intros ? s5 ? G5.
    apply ensures_ret. exact (grows_trans _ _ _ _ _ _ _ _ _ _ _ G0 G5).
Qed.

Lemma validate_values_grows r : forall vs n acc self,
  ensures
    (for_each (enumerate_from n vs)
       (fun acc cv =>
          let '(result, number_seen) := acc in
          let '(column_number, v) := cv in
          col <- or_raise (nth_error (columns r) column_number) IndexError ;;
          ok <- validate v (Some r) (Some col) ;;
          ret (if negb ok then false else result,
               if truthy v then number_seen + 1 else number_seen))
       acc) self
    (fun _ self' _ => grows (List.length vs) 0 0 0 self self').
Proof.
  induction vs as [|v vs IH]; intros n [result number_seen] self.
  - apply ensures_ret, grows_refl.
  - cbn [enumerate_from for_each List.length].
    apply ensures_bind. apply ensures_bind, ensures_or_raise. intros col _.
    seq validate_grows. intros ok s1 ? G1.
    apply ensures_ret.
    eapply ensures_weaken; [apply IH|].
    intros ? s2 ? G2.
    exact (grows_trans _ _ _ _ _ _ _ _ _ _ _ G1 G2).
Qed.

Lemma check_required_same r n st self :
  ensures (check_required r n st) self (fun _ self' _ => self' = self).
Proof. unfold check_required. destruct st. run_method; reflexivity. Qed.

Lemma check_min_occur_same r n st self :
  ensures (check_min_occur r n st) self (fun _ self' _ => self' = self).
Proof. unfold check_min_occur. destruct st. run_method; reflexivity. Qed.

Lemma check_max_occur_same r n st self :
  ensures (check_max_occur r n st) self (fun _ self' _ => self' = self).
Proof. unfold check_max_occur. destruct st. run_method; reflexivity. Qed.

Lemma check_unique_key_grows r st self :
  ensures (check_unique_key r st) self
    (fun _ self' _ => grows 0 1 0 0 self self').
Proof.
  unfold check_unique_key. destruct st.
  run_method; unfold grows; simpl; repeat split; try lia;
    apply dict_set_length.
Qed.

Lemma get_all_length r pattern :
  List.length (get_all r pattern)
  = List.length (filter (fun c => tp_match pattern (fst c)) (cells r)).
Proof. unfold get_all. apply length_map. Qed.

(** C9. One call of [validate_row] adds at most one entry to the unique-key
    set and at most one location to the correlation map; it adds at most
    one entry per matching value of the row to the uniqueness set and to the
    consistency map. *)
Theorem validate_row_map_growth (r : Row) (self : t) :
  ensures (validate_row r) self
    (fun _ self' _ =>
       List.length (_unique_key_map self')
         <= List.length (_unique_key_map self) + 1 /\
       correlation_entries (_correlation_map self')
         <= correlation_entries (_correlation_map self) + 1 /\
       List.length (_unique_value_map self')
         <= List.length (_unique_value_map self)
            + List.length (get_all r (tag_pattern self)) /\
       consistency_entries (_consistency_map self')
         <= consistency_entries (_consistency_map self)
            + List.length (get_all r (tag_pattern self))).
Proof.
  assert (H : ensures (validate_row r) self
                (fun _ self' _ =>
                   grows (List.length (get_all r (tag_pattern self))) 1 1
                     (List.length (get_all r (tag_pattern self)))
                     self self')).
  { unfold validate_row.
    seq _check_init_grows. intros ? s0 ? G0.
    apply ensures_bind, ensures_get_state.
    assert (T0 : tag_pattern s0 = tag_pattern self) by apply G0.
    rewrite T0.
    apply ensures_bind. eapply ensures_weaken;
      [apply (validate_values_grows r (get_all r (tag_pattern self)) 0
                (true, 0) s0)|].
    intros [result number_seen] s1 ? G1. cbv beta iota.
    seq check_required_same. intros st2 s2 ? ->.
    seq check_min_occur_same. intros st3 s3 ? ->.
    seq check_max_occur_same. intros st4 s4 ? ->.
    seq check_unique_key_grows. intros st5 s5 ? G5.
    apply ensures_bind, ensures_get_state. cbv beta.
    pose proof (grows_trans _ _ _ _ _ _ _ _ _ _ _ G0
                  (grows_trans _ _ _ _ _ _ _ _ _ _ _ G1 G5)) as G.
    simpl in G.
    assert (Hc : exists s6,
      (match correlation_key s5 with
       | Some spec =>
           modify (fun self0 =>
             set_correlation_map
               (track_correlation r (tag_pattern self0) (row_key r spec)
                  (cells r) (_correlation_map self0)) self0)
       | None => ret tt
       end : M unit) s5 = Ret (tt, s6, []) /\ grows 0 0 1 0 s5 s6).
    { destruct (correlation_key s5).
      - eexists. split; [reflexivity|].
        unfold grows. simpl. repeat split; try lia.
        apply track_correlation_entries.
      - eexists. split; [reflexivity|].
        eapply grows_le; [apply grows_refl|lia..]. }
    destruct Hc as (s6 & E6 & G6).
    apply ensures_bind. unfold ensures at 1.
    match goal with |- match ?m s5 with _ => _ end =>
      change (m s5) with
        ((match correlation_key s5 with
          | Some spec =>
              modify (fun self0 =>
                set_correlation_map
                  (track_correlation r (tag_pattern self0) (row_key r spec)
                     (cells r) (_correlation_map self0)) self0)
          | None => ret tt
          end : M unit) s5)
    end.
    rewrite E6.
    assert (Hd : exists s7,
      (if consistent_datatypes s5 then
         modify (fun self0 =>
           set_consistency_map
             (track_datatypes r (tag_pattern self0) (cells r)
                (_consistency_map self0)) self0)
       else ret tt : M unit) s6 = Ret (tt, s7, []) /\
      grows 0 0 0 (List.length (get_all r (tag_pattern self))) s6 s7).
    { destruct (consistent_datatypes s5).
      - eexists. split; [reflexivity|].
        assert (T6 : tag_pattern s6 = tag_pattern self).
        { destruct G6 as [T6 _]. destruct G as [T5 _]. congruence. }
        unfold grows. simpl. repeat split; try lia.
        rewrite T6, get_all_length. apply track_datatypes_entries.
      - eexists. split; [reflexivity|].
        eapply grows_le; [apply grows_refl|lia..]. }
    destruct Hd as (s7 & E7 & G7).
    apply ensures_bind. unfold ensures at 1. rewrite E7.
    apply ensures_ret.
    pose proof (grows_trans _ _ _ _ _ _ _ _ _ _ _ G
                  (grows_trans _ _ _ _ _ _ _ _ _ _ _ G6 G7)) as G'.
    eapply grows_le; [exact G'|simpl; lia..]. }
  eapply ensures_weaken; [exact H|].
  unfold grows. intros _ self' _ (_ & A & B & C & D). auto.
Qed.

End WithLib.

(** A row with two values for [#affected]: the uniqueness set and the
    consistency map of the rule gain two entries each. *)
Lemma validate_row_two_entries :
  match SchemaRule.validate_row (L := Plain.lib) Examples.two_values_row
          Examples.tracking_rule with
  | Ret (_, self', _) =>
      List.length (SchemaRule._unique_value_map self') = 2 /\
      SchemaRule.consistency_entries (SchemaRule._consistency_map self') = 2
  | Raise _ => False
  end /\
  List.length (SchemaRule._unique_value_map Examples.tracking_rule) = 0 /\
  SchemaRule.consistency_entries
    (SchemaRule._consistency_map Examples.tracking_rule) = 0.
Proof. vm_compute. repeat split. Qed.

Lemma _test_pattern_flags_witness :
  SchemaRule._test_pattern (L := Plain.lib) "ABC" None None "ABC"
    Examples.pattern_rule =
  Ret (true, Examples.pattern_rule, []).
Proof.
  exact (@_test_pattern_flags Plain.lib Examples.pattern_rule (Source "abc")
           "ABC" None None "ABC" eq_refl eq_refl).
Defined.

(** With [case_sensitive=True] the value "ABC" passes the pattern "abc";
    with [case_sensitive=False] the value "ABC" fails the pattern "ABC". *)
Lemma case_sensitive_pattern_examples :
  match SchemaRule.validate (L := Plain.lib) "ABC" None None
          Examples.pattern_rule with
  | Ret (b, _, evs) => b = true /\ evs = []
  | Raise _ => False
  end /\
  match SchemaRule.validate (L := Plain.lib) "ABC" None None
          Examples.upper_pattern_rule with
  | Ret (b, _, evs) =>
      b = false /\
      map (fun ev => message (snd ev)) evs = ["Failed to match pattern ABC"]
  | Raise _ => False
  end.
Proof. vm_compute. repeat split. Qed.

Lemma type_and_range_errors_suggest_raw_value_witness :
  ensures (SchemaRule.validate (L := Plain.lib) " ABC" None None)
    Examples.number_rule
    (fun b _ evs =>
       b = false /\
       In (1, {| message := "Expected a number"; value := Some "abc";
                 row := None; column := None;
                 suggested_value := Some " ABC" |})
          evs).
Proof.
  destruct (@type_and_range_errors_suggest_raw_value Plain.lib
              "abc" None None " ABC" Examples.number_rule)
    as (_ & _ & _ & _ & _ & _ & H & _).
  apply (H 1); reflexivity.
Defined.

(** A type error and a range error, as the callback receives them. *)
Lemma type_and_range_error_examples :
  match SchemaRule.validate (L := Plain.lib) "abc" None None
          Examples.number_rule with
  | Ret (b, _, evs) =>
      b = false /\
      evs = [(1, {| message := "Expected a number"; value := Some "abc";
                    row := None; column := None;
                    suggested_value := Some "abc" |})]
  | Raise _ => False
  end /\
  match SchemaRule.validate (L := Plain.lib) "15" None None
          Examples.bounded_rule with
  | Ret (b, _, evs) =>
      b = false /\
      evs = [(1, {| message := "Value is great than 10.0";
                    value := Some "15"; row := None; column := None;
                    suggested_value := Some "15" |})]
  | Raise _ => False
  end.
Proof. vm_compute. repeat split. Qed.

End SchemaRuleFacts.

(** * Properties of a schema *)

Module SchemaFacts.
Section WithLib.
Context {L : Lib}.
Import Schema.

Ltac seq lemma :=
  apply ensures_bind; eapply ensures_weaken; [apply lemma | cbv beta].

Lemma call_rule_quiet ref (m : SchemaRule.M bool) w :
  (forall rule, ensures m rule (fun b _ evs => SchemaRule.quiet b evs)) ->
  ensures (call_rule ref m) w (fun b _ reports => quiet_run b reports).
Proof.
  intros Hm. unfold ensures, call_rule.
  match goal with |- context [m ?r] => specialize (Hm r); unfold ensures in Hm;
    destruct (m r) as [[[b rule'] evs]|e] end; [|exact I].
  intros Hb. rewrite (Hm Hb). reflexivity.
Qed.

Lemma quiet_run_step result ok reports reports' :
  quiet_run result reports -> quiet_run ok reports' ->
  quiet_run (if negb ok then false else result) (reports ++ reports').
Proof.
  unfold quiet_run. destruct ok; simpl; [|discriminate].
  intros H1 H2 Hr. rewrite H1, H2; auto.
Qed.

Lemma schema_validate_columns_quiet cols w :
  ensures (validate_columns cols) w (fun b _ reports => quiet_run b reports).
Proof.
  unfold validate_columns. apply ensures_bind, ensures_get_state.
  apply (ensures_for_each_nil _ (fun b _ reports => quiet_run b reports));
    [|discriminate || (intros _; reflexivity)].
  intros result rule s ws Hq.
  seq call_rule_quiet; [intros; apply SchemaRuleFacts.validate_columns_quiet|].
  intros ok s' reports Hok.
  destruct ok; simpl.
  - apply ensures_ret. rewrite app_nil_r.
    intros Hr. rewrite Hq, Hok; auto.
  - apply ensures_bind, ensures_modify. apply ensures_ret. discriminate.
Qed.

Lemma schema_validate_row_quiet r w :
  ensures (validate_row r) w (fun b _ reports => quiet_run b reports).
Proof.
  unfold validate_row. apply ensures_bind, ensures_get_state.
  apply (ensures_for_each_nil _ (fun b _ reports => quiet_run b reports));
    [|intros _; reflexivity].
  intros result rule s ws Hq.
  apply ensures_bind, ensures_get_state.
  destruct (negb (is_impossible rule s)).
  - seq call_rule_quiet; [intros; apply SchemaRuleFacts.validate_row_quiet|].
    intros ok s' reports Hok. apply ensures_ret.
    simpl. rewrite app_nil_r. apply quiet_run_step; assumption.
  - apply ensures_ret. simpl. rewrite app_nil_r. exact Hq.
Qed.

Lemma schema_validate_dataset_quiet w :
  ensures validate_dataset w (fun b _ reports => quiet_run b reports).
Proof.
  unfold validate_dataset. apply ensures_bind, ensures_get_state.
  apply (ensures_for_each_nil _ (fun b _ reports => quiet_run b reports));
    [|intros _; reflexivity].
  intros result rule s ws Hq.
  seq call_rule_quiet; [intros; apply SchemaRuleFacts.finish_quiet|].
  intros ok s' reports Hok. apply ensures_ret.
  rewrite app_nil_r. apply quiet_run_step; assumption.
Qed.

(** C2. When a run of [Schema.validate] returns, it returns false if a
    validation error was reported to a callback in the column phase, the row
    phase or the finalize phase; a run that returns true has reported
    nothing. *)
Theorem validate_false_when_reported (source : Dataset) (w : world) :
  ensures (validate source) w
    (fun b _ reports =>
       (reports <> [] -> b = false) /\ (b = true -> reports = [])).
Proof.
  assert (H : ensures (validate source) w
                (fun b _ reports => quiet_run b reports)).
  { unfold validate.
    seq schema_validate_columns_quiet. intros ok0 w0 reports0 H0.
    apply ensures_bind.
    eapply ensures_weaken.
    - apply (ensures_for_each _ (fun b _ reports => quiet_run b reports))
        with (ws := reports0).
      + intros result r s ws Hq.
        seq schema_validate_row_quiet. intros ok s' reports Hok.
        apply ensures_ret. rewrite app_nil_r.
        apply quiet_run_step; assumption.
      + destruct ok0; simpl; [exact H0 | discriminate].
    - intros result w1 reports1 H1. cbv beta.
      seq schema_validate_dataset_quiet. intros ok w2 reports2 H2.
      apply ensures_ret. rewrite app_nil_r, app_assoc.
      apply quiet_run_step; assumption. }
  eapply ensures_weaken; [exact H|].
  intros b w' reports Hq. split; [|exact Hq].
  intros Hne. destruct b; [|reflexivity].
  elim Hne. apply Hq. reflexivity.
Qed.

(** ** [Schema.parse] *)

Lemma raises_bind_l {S W A B} (m : exec S W A) (f : A -> exec S W B) s :
  raises m s -> raises (bind m f) s.
Proof. intros [e He]. exists e. unfold bind. rewrite He. reflexivity. Qed.

Lemma raises_bind_r {S W A B} (m : exec S W A) (f : A -> exec S W B) s :
  (forall a s', raises (f a) s') -> raises (bind m f) s.
Proof.
  intros H. unfold raises, bind.
  destruct (m s) as [[[a s'] ws]|e]; [|eauto].
  destruct (H a s') as [e ->]. eauto.
Qed.

Lemma for_each_raises {S W A B} (body : B -> A -> exec S W B) x :
  (forall acc s, raises (body acc x) s) ->
  forall l, In x l -> forall acc s, raises (for_each l body acc) s.
Proof.
  intros Hx. induction l as [|y l IH]; intros Hin acc s; [contradiction|].
  simpl. destruct Hin as [->|Hin].
  - apply raises_bind_l, Hx.
  - apply raises_bind_r. intros. apply IH, Hin.
Qed.

Lemma to_boolean_raises field st :
  malformed_boolean field -> raises (to_boolean field) st.
Proof.
  intros (x & -> & Ht & Hf & Hy). unfold to_boolean.
  rewrite Ht, Hf, Hy. simpl. eexists. reflexivity.
Qed.

Ltac skip_step := apply raises_bind_r; intros ? ?; cbv zeta.

Lemma parse_rule_raises tag r st :
  malformed_boolean (row_get r "#valid_required-min-max") \/
  malformed_boolean (row_get r "#valid_unique-key") \/
  malformed_boolean (row_get r "#valid_value+case") \/
  malformed_boolean (row_get r "#valid_datatype+consistent") ->
  raises (parse_rule tag r) st.
Proof.
  intros H. unfold parse_rule.
  do 6 skip_step.
  destruct H as [H|H]; [apply raises_bind_l, to_boolean_raises, H|].
  skip_step.
  destruct H as [H|H]; [apply raises_bind_l, to_boolean_raises, H|].
  skip_step.
  destruct H as [H|H]; [apply raises_bind_l, to_boolean_raises, H|].
  skip_step.
  apply raises_bind_l, to_boolean_raises, H.
Qed.

Lemma parse_type_allowed type d :
  parse_type type = Some d -> In d SchemaRule.DATATYPES.
Proof.
  unfold parse_type.
  destruct (if is_truthy type
            then option_map (fun x => keep_type_chars (lower x)) type
            else type) as [x|]; [|discriminate].
  destruct (existsb (String.eqb x) SchemaRule.DATATYPES) eqn:E;
    [|discriminate].
  intros [= <-]. apply existsb_exists in E as (y & Hy & Heq).
  apply String.eqb_eq in Heq. subst. exact Hy.
Qed.

Lemma parse_rule_data_type tag r st :
  ensures (parse_rule tag r) st
    (fun rule _ _ =>
       SchemaRule.data_type rule =
       parse_type (row_get r "#valid_datatype-consistent")).
Proof.
  unfold parse_rule.
  do 11 (apply ensures_bind; eapply ensures_weaken;
         [apply ensures_trivial | cbv beta zeta; intros ? ? ? _]).
  unfold ensures.
  match goal with
  | |- context [SchemaRule.init ?rule] =>
      pose proof (SchemaRuleFacts.init_keeps_data_type rule) as H;
      unfold ensures in H;
      destruct (SchemaRule.init rule) as [[[u rule'] evs]|e]
  end; [|exact I].
  simpl in *. exact H.
Qed.

(** C8. A row of a schema specification that has a [#valid_tag] and a
    malformed boolean field makes [Schema.parse] raise: no schema is built.
    An unrecognised datatype name does not: the datatype of a rule is what
    [parse_type] returns, which is an allowed datatype or nothing. *)
Theorem parse_configuration_errors :
  (forall rows callback h next r tag,
     In r rows ->
     row_get r "#valid_tag" = Some tag -> truthy tag = true ->
     malformed_boolean (row_get r "#valid_required-min-max") \/
     malformed_boolean (row_get r "#valid_unique-key") \/
     malformed_boolean (row_get r "#valid_value+case") \/
     malformed_boolean (row_get r "#valid_datatype+consistent") ->
     exists e, parse (Specification rows) callback h next = Raise e) /\
  (forall tag r st,
     ensures (parse_rule tag r) st
       (fun rule _ _ =>
          SchemaRule.data_type rule =
          parse_type (row_get r "#valid_datatype-consistent"))) /\
  (forall type d, parse_type type = Some d -> In d SchemaRule.DATATYPES).
Proof.
  split; [|split; [apply parse_rule_data_type | apply parse_type_allowed]].
  intros rows callback h next r tag Hin Htag Htruthy Hbad.
  unfold parse.
  destruct (for_each_raises
              (fun made r =>
                 match row_get r "#valid_tag" with
                 | Some tag =>
                     if truthy tag then
                       rule <- parse_rule tag r ;; ret (made ++ [rule])
                     else ret made
                 | None => ret made
                 end) r) with (l := rows) (acc := @nil SchemaRule.t) (s := tt)
    as [e He].
  - intros acc s. rewrite Htag, Htruthy.
    apply raises_bind_l, parse_rule_raises, Hbad.
  - exact Hin.
  - exists e. unfold parse_rules. rewrite He. reflexivity.
Qed.

End WithLib.

Lemma parse_configuration_errors_witness :
  exists e,
    Schema.parse (L := Plain.lib)
      (Schema.Specification [Examples.malformed_boolean_row]) None
      (Examples.some_objects (L := Plain.lib)) 0 = Raise e.
Proof.
  apply (proj1 (@parse_configuration_errors Plain.lib)
           [Examples.malformed_boolean_row] None
           (Examples.some_objects (L := Plain.lib)) 0
           Examples.malformed_boolean_row "#affected").
  - left. reflexivity.
  - reflexivity.
  - reflexivity.
  - left. exists "maybe". repeat split; reflexivity.
Defined.

(** A row with the unknown datatype "integer": a schema is built, and its
    rule has no datatype. *)
Lemma parse_unknown_datatype_builds_rule :
  existsb (String.eqb "integer") SchemaRule.DATATYPES = false /\
  match Schema.parse (L := Plain.lib)
          (Schema.Specification [Examples.unknown_datatype_row]) None
          (Examples.some_objects (L := Plain.lib)) 0 with
  | Ret w =>
      Schema.rules (Schema.self w) = [0] /\
      SchemaRule.data_type (Schema.objects w 0) = None
  | Raise _ => False
  end.
Proof. vm_compute. repeat split. Qed.

(** A run that returns false although nothing was reported: the value "abc"
    under a rule with [min_value=0] makes [float(value)] raise, which
    [_test_range] turns into a plain [False]. *)
Lemma validate_false_without_report :
  match Schema.validate (L := Plain.lib) (Examples.affected_dataset "abc")
          (Examples.single_rule_world (L := Plain.lib) 1 Examples.range_rule)
  with
  | Ret (b, _, reports) => b = false /\ reports = []
  | Raise _ => False
  end.
Proof. vm_compute. split; reflexivity. Qed.

End SchemaFacts.


(** * The examples of the specification *)

Module ExampleFacts.
Section WithLib.
Context {L : Lib}.
Import SchemaRule Examples.

(** Evaluation that stops at the operations of the library. *)
Ltac eval_lib :=
  cbv -[tp_match tp_parse tp_parse_list tp_str row_key row_get get_value_set
        is_empty normalise_space normalise_string normalise is_number is_date
        typeof Float float float_lt str_float int str_int str_list
        str_key_spec str_regex lower urlparse re_compile re_match
        re_split_bar key_eqb].

Tactic Notation "eval_lib" "in" hyp(H) :=
  cbv -[tp_match tp_parse tp_parse_list tp_str row_key row_get get_value_set
        is_empty normalise_space normalise_string normalise is_number is_date
        typeof Float float float_lt str_float int str_int str_list
        str_key_spec str_regex lower urlparse re_compile re_match
        re_split_bar key_eqb] in H.

(** C7. For a rule over [#affected] with [consistent_datatypes] set, the
    rows with the values "200", "abc" and "300" and then [finish()] report
    exactly one error: it is for the value "abc" and its message names
    [number] as the expected datatype. *)
Theorem consistency_example (cb : nat) (p : TagPattern) :
  tp_match p affected = true ->
  is_empty "200" = false -> is_empty "abc" = false ->
  is_empty "300" = false ->
  typeof "200" affected = "number" -> typeof "abc" affected = "text" ->
  typeof "300" affected = "number" ->
  exists rule',
    consistency_run (consistency_rule cb p) =
    Ret (false, rule',
         [(cb, {| message := "inconsistent datatype text (expected number)";
                  value := Some "abc";
                  row := Some (affected_row 2 "abc");
                  column := Some affected;
                  suggested_value := None |})]).
Proof.
  intros Hm E1 E2 E3 T1 T2 T3.
  eval_lib in Hm. eval_lib in T1. eval_lib in T2. eval_lib in T3.
  eval_lib.
  repeat (rewrite ?Hm, ?E1, ?E2, ?E3, ?T1, ?T2, ?T3; eval_lib).
  eexists. reflexivity.
Qed.

Lemma key_eqb_refl (k : Key) : key_eqb k k = true.
Proof. unfold key_eqb. destruct (list_eq_dec string_dec k k); congruence. Qed.

Lemma key_eqb_sym (k1 k2 : Key) : key_eqb k1 k2 = key_eqb k2 k1.
Proof.
  unfold key_eqb.
  destruct (list_eq_dec string_dec k1 k2), (list_eq_dec string_dec k2 k1);
    congruence.
Qed.

Lemma bind_silent {S W A B} (m : exec S W A) (f : A -> exec S W B) s a s' :
  m s = Ret (a, s', []) -> bind m f s = f a s'.
Proof.
  intros H. unfold bind. rewrite H.
  destruct (f a s') as [[[b s''] ws]|e]; reflexivity.
Qed.

(** A row of the example, validated by the rule before [init] has run and
    after: the value of [#adm1+code] is filed in the correlation map and
    nothing is reported. *)
Lemma correlation_first_row cb p ks n name code :
  tp_match p adm1 = false -> tp_match p adm1_code = true ->
  is_empty code = false ->
  tp_parse_list (KeyText "#adm1") = Some ks ->
  validate_row (adm1_row n name code) (correlation_rule cb p) =
  Ret (true,
       correlation_state cb p ks
         (record_correlation [] "#adm1+code" (normalise code None)
            (row_key (adm1_row n name code) (KeyPatterns (ks ++ [])))
            (adm1_row n name code, adm1_code)),
       []).
Proof.
  intros Hn Hc E Hp.
  eval_lib in Hn. eval_lib in Hc.
  eval_lib.
  repeat (rewrite ?Hn, ?Hc, ?E, ?Hp; eval_lib).
  reflexivity.
Qed.

Lemma correlation_next_row cb p ks m n name code :
  tp_match p adm1 = false -> tp_match p adm1_code = true ->
  is_empty code = false ->
  validate_row (adm1_row n name code) (correlation_state cb p ks m) =
  Ret (true,
       correlation_state cb p ks
         (record_correlation m "#adm1+code" (normalise code None)
            (row_key (adm1_row n name code) (KeyPatterns (ks ++ [])))
            (adm1_row n name code, adm1_code)),
       []).
Proof.
  intros Hn Hc E.
  eval_lib in Hn. eval_lib in Hc.
  eval_lib.
  repeat (rewrite ?Hn, ?Hc, ?E; eval_lib).
  reflexivity.
Qed.

(** With two values, each seen with one key, [finish] has nothing to
    report. *)
Lemma correlation_finish cb p ks v1 v2 (k1 k3 : Key) (a b c : location) :
  String.eqb v2 v1 = false ->
  finish
    (correlation_state cb p ks
       [("#adm1+code", [(v1, [(k1, [a; b])]); (v2, [(k3, [c])])])]) =
  Ret (true,
       correlation_state cb p ks
         [("#adm1+code", [(v1, [(k1, [a; b])]); (v2, [(k3, [c])])])],
       []).
Proof.
  intros V21.
  pose proof (String.eqb_refl v1) as V11.
  pose proof (String.eqb_refl v2) as V22.
  pose proof (key_eqb_refl k1) as K11.
  pose proof (key_eqb_refl k3) as K33.
  destruct (key_eqb k3 k1) eqn:K31;
  eval_lib in V21; eval_lib in V11; eval_lib in V22;
  eval_lib;
  repeat (rewrite ?K11, ?K33, ?K31, ?V11, ?V22, ?V21; eval_lib);
  reflexivity.
Qed.

(** With one value seen with two keys, [finish] reports the location under
    the less common key; the value is the expected one for that key, so
    nothing is suggested. *)
Lemma correlation_conflict_finish cb p ks v (k1 k2 : Key) (a b : location)
    (r : Row) (col : Column) :
  key_eqb k2 k1 = false ->
  finish
    (correlation_state cb p ks
       [("#adm1+code", [(v, [(k1, [a; b]); (k2, [(r, col)])])])]) =
  Ret (false,
       correlation_state cb p ks
         [("#adm1+code", [(v, [(k1, [a; b]); (k2, [(r, col)])])])],
       [(cb, {| message := "wrong value for related column(s) "
                           ++ join ", " (map tp_str (ks ++ []));
                value := Some v; row := Some r; column := Some col;
                suggested_value := None |})]).
Proof.
  intros K21.
  pose proof (String.eqb_refl v) as V.
  pose proof (key_eqb_refl k1) as K11.
  pose proof (key_eqb_refl k2) as K22.
  eval_lib in V.
  eval_lib;
  repeat (rewrite ?K11, ?K22, ?K21, ?V; eval_lib);
  reflexivity.
Qed.

(** The rows (Coast, 001), (Coast, 001), (Coast, 002): nothing is reported
    and [finish()] returns true. *)
Lemma correlation_three_rows cb p ks :
  tp_match p adm1 = false -> tp_match p adm1_code = true ->
  is_empty "001" = false -> is_empty "002" = false ->
  tp_parse_list (KeyText "#adm1") = Some ks ->
  row_key (adm1_row 1 "Coast" "001") (KeyPatterns ks) =
  row_key (adm1_row 2 "Coast" "001") (KeyPatterns ks) ->
  normalise "001" None <> normalise "002" None ->
  exists rule', correlation_run (correlation_rule cb p) = Ret (true, rule', []).
Proof.
  intros Hn Hc E1 E2 Hp Hk Hv.
  rewrite <- (app_nil_r ks) in Hk.
  assert (V12 : String.eqb (normalise "001" None) (normalise "002" None)
                = false) by (apply String.eqb_neq; congruence).
  assert (V21 : String.eqb (normalise "002" None) (normalise "001" None)
                = false) by (apply String.eqb_neq; congruence).
  unfold correlation_run.
  rewrite (bind_silent _ _ _ _ _
             (correlation_first_row cb p ks 1 "Coast" "001" Hn Hc E1 Hp)).
  rewrite (bind_silent _ _ _ _ _
             (correlation_next_row cb p ks _ 2 "Coast" "001" Hn Hc E1)).
  rewrite (bind_silent _ _ _ _ _
             (correlation_next_row cb p ks _ 3 "Coast" "002" Hn Hc E2)).
  rewrite <- Hk.
  unfold record_correlation.
  repeat (cbn [dict_update app];
          rewrite ?String.eqb_refl, ?key_eqb_refl, ?V21).
  eexists. apply correlation_finish. exact V21.
Qed.

(** C1. A rule over [#adm1+code] with the correlation key [#adm1] files
    the locations by value and then by key, and [finish()] reports a value
    that was seen with more than one key.  The rows (Coast, 001),
    (Coast, 001), (Coast, 002) report no error and [finish()] returns true:
    each code was seen with one key.  The rows (Coast, 001), (Coast, 001),
    (Inland, 001) report exactly one error, at the (Inland, 001) row: its
    value is the normalised code, and nothing is suggested since the code
    is the expected one. *)
Theorem correlation_example (cb : nat) (p : TagPattern)
    (ks : list TagPattern) :
  tp_match p adm1 = false -> tp_match p adm1_code = true ->
  is_empty "001" = false -> is_empty "002" = false ->
  tp_parse_list (KeyText "#adm1") = Some ks ->
  row_key (adm1_row 1 "Coast" "001") (KeyPatterns ks) =
  row_key (adm1_row 2 "Coast" "001") (KeyPatterns ks) ->
  normalise "001" None <> normalise "002" None ->
  row_key (adm1_row 3 "Inland" "001") (KeyPatterns ks) <>
  row_key (adm1_row 1 "Coast" "001") (KeyPatterns ks) ->
  (exists rule',
     correlation_run (correlation_rule cb p) = Ret (true, rule', [])) /\
  (exists rule',
     conflict_run (correlation_rule cb p) =
     Ret (false, rule',
          [(cb, {| message := "wrong value for related column(s) "
                              ++ join ", " (map tp_str ks);
                   value := Some (normalise "001" None);
                   row := Some (adm1_row 3 "Inland" "001");
                   column := Some adm1_code;
                   suggested_value := None |})])).
Proof.
  intros Hn Hc E1 E2 Hp Hk Hv Hk3.
  split; [exact (correlation_three_rows cb p ks Hn Hc E1 E2 Hp Hk Hv)|].
  rewrite <- (app_nil_r ks) in Hk, Hk3.
  assert (K31 : key_eqb
                  (row_key (adm1_row 3 "Inland" "001")
                     (KeyPatterns (ks ++ [])))
                  (row_key (adm1_row 1 "Coast" "001")
                     (KeyPatterns (ks ++ []))) = false).
  { unfold key_eqb.
    destruct (list_eq_dec string_dec _ _); [contradiction | reflexivity]. }
  unfold conflict_run.
  rewrite (bind_silent _ _ _ _ _
             (correlation_first_row cb p ks 1 "Coast" "001" Hn Hc E1 Hp)).
  rewrite (bind_silent _ _ _ _ _
             (correlation_next_row cb p ks _ 2 "Coast" "001" Hn Hc E1)).
  rewrite (bind_silent _ _ _ _ _
             (correlation_next_row cb p ks _ 3 "Inland" "001" Hn Hc E1)).
  rewrite <- Hk.
  unfold record_correlation.
  repeat (cbn [dict_update app];
          rewrite ?String.eqb_refl, ?key_eqb_refl, ?K31).
  eexists.
  replace (map tp_str ks) with (map tp_str (ks ++ []))
    by (rewrite app_nil_r; reflexivity).
  apply correlation_conflict_finish. exact K31.
Qed.

End WithLib.

Lemma correlation_example_witness :
  (exists rule',
     Examples.correlation_run (L := Plain.lib)
       (Examples.correlation_rule 1 Examples.adm1_code_pattern) =
     Ret (true, rule', [])) /\
  (exists rule',
     Examples.conflict_run (L := Plain.lib)
       (Examples.correlation_rule 1 Examples.adm1_code_pattern) =
     Ret (false, rule',
          [(1, {| message := "wrong value for related column(s) #adm1";
                  value := Some "1";
                  row := Some (Examples.adm1_row 3 "Inland" "001");
                  column := Some Examples.adm1_code;
                  suggested_value := None |})])).
Proof.
  apply (@correlation_example Plain.lib 1 Examples.adm1_code_pattern
           [Examples.hashtag "#adm1"]);
    try reflexivity; vm_compute; discriminate.
Defined.

(** The rows (Coast, 001), (Coast, 001), (Coast, 002) of the
    specification: not one error, and [finish()] returns true. *)
Lemma correlation_three_rows_silent :
  match Examples.correlation_run (L := Plain.lib)
          (Examples.correlation_rule 1 Examples.adm1_code_pattern) with
  | Ret (b, _, evs) => b = true /\ evs = []
  | Raise _ => False
  end.
Proof. vm_compute. split; reflexivity. Qed.

Lemma consistency_example_witness :
  exists rule',
    Examples.consistency_run (L := Plain.lib)
      (Examples.consistency_rule 1 (Examples.hashtag "#affected")) =
    Ret (false, rule',
         [(1, {| message := "inconsistent datatype text (expected number)";
                 value := Some "abc";
                 row := Some (Examples.affected_row 2 "abc");
                 column := Some Examples.affected;
                 suggested_value := None |})]).
Proof.
  apply (@consistency_example Plain.lib 1 (Examples.hashtag "#affected"));
    reflexivity.
Defined.

End ExampleFacts.

(** * More on the matcher *)

Module MatcherExtras.
Import Matcher MatcherFacts.

Lemma chars_inj s t : chars s = chars t -> s = t.
Proof.
  intros H. rewrite <- (string_of_list_ascii_of_string s),
    <- (string_of_list_ascii_of_string t).
  unfold chars in H. rewrite H. reflexivity.
Qed.

Lemma lev_refl s : lev s s = 0.
Proof.
  induction s as [|a s IH]; [reflexivity|].
  rewrite lev_cons, Ascii.eqb_refl. exact IH.
Qed.

Lemma edits_zero : forall s t n, edits s t n -> n = 0 -> s = t.
Proof.
  induction 1; intros Hn; try discriminate.
  - reflexivity.
  - f_equal. auto.
Qed.

Lemma edits_length : forall s t n, edits s t n ->
  List.length s <= List.length t + n /\ List.length t <= List.length s + n.
Proof. induction 1; simpl; lia. Qed.

Lemma lev_upper : forall s t,
  lev s t <= Nat.max (List.length s) (List.length t).
Proof.
  induction s as [|a s IH]; intros t.
  - simpl. lia.
  - destruct t as [|b t].
    + rewrite lev_nil_r. lia.
    + rewrite lev_cons. specialize (IH t).
      destruct (Ascii.eqb a b); simpl List.length.
      * lia.
      * pose proof (min3_le_r (lev s (b :: t)) (lev (a :: s) t) (lev s t)).
        lia.
Qed.

Ltac close_with He :=
  first [ exact He | apply edits_keep; exact He | apply edits_subst; exact He
        | apply edits_delete; exact He | apply edits_insert; exact He ].

Ltac chain IH HN :=
  match goal with
  | H1 : edits ?s ?t ?n, H2 : edits ?t ?u ?m |- _ =>
      let k := fresh "k" in
      let Hk := fresh "Hk" in
      let He := fresh "He" in
      destruct (IH s t u n m) as (k & Hk & He);
        [simpl in HN |- *; lia | exact H1 | exact H2 | ];
      first [ exists k; split; [lia | close_with He]
            | exists (S k); split; [lia | close_with He] ]
  end.

(** Two edit scripts in a row are matched by one script from end to end
    that costs no more than both. *)
Lemma edits_trans : forall N s t u n m,
  List.length s + List.length t + List.length u < N ->
  edits s t n -> edits t u m ->
  exists k, k <= n + m /\ edits s u k.
Proof.
  induction N as [|N IH]; intros s t u n m HN H1 H2; [lia|].
  inversion H1; subst.
  - exists m. split; [lia | exact H2].
  - inversion H2; subst; chain IH HN.
  - inversion H2; subst; chain IH HN.
  - chain IH HN.
  - inversion H2; subst; chain IH HN.
Qed.

Lemma lev_triangle s t u : lev s u <= lev s t + lev t u.
Proof.
  destruct (edits_trans _ s t u _ _ (Nat.lt_succ_diag_r _)
              (lev_edits s t) (lev_edits t u)) as (k & Hk & He).
  apply lev_least in He. lia.
Qed.

Lemma get_edit_distance_refl s : get_edit_distance s s = 0.
Proof. rewrite get_edit_distance_lev. apply lev_refl. Qed.

Lemma get_edit_distance_zero s1 s2 :
  get_edit_distance s1 s2 = 0 -> s1 = s2.
Proof.
  rewrite get_edit_distance_lev. intros H.
  apply chars_inj, (edits_zero _ _ (lev (chars s1) (chars s2))); auto.
  apply lev_edits.
Qed.

(** X1. [find_closest_match] returns nothing exactly when every candidate
    is further than [len(s) / 2] from [s]; what it returns is a candidate
    within that bound, as near to [s] as any candidate, and with the
    greatest [get_common_prefix_len] among the nearest ones. *)
Theorem find_closest_match_contract (s : string) (allowed_values : list string) :
  match find_closest_match s allowed_values with
  | None =>
      forall c, In c allowed_values -> len s < 2 * get_edit_distance s c
  | Some v =>
      In v allowed_values /\
      2 * get_edit_distance s v <= len s /\
      forall c, In c allowed_values ->
        get_edit_distance s v <= get_edit_distance s c /\
        (get_edit_distance s c = get_edit_distance s v ->
         get_common_prefix_len s c <= get_common_prefix_len s v)
  end.
Proof.
  destruct (find_closest_match s allowed_values) as [v|] eqn:E.
  - apply find_closest_match_some in E as (Hin & Hcut & Hmin).
    split; [exact Hin|]. split; [exact Hcut|].
    intros c Hc.
    destruct (Nat.le_gt_cases (2 * get_edit_distance s c) (len s)) as [H|H].
    + apply Hmin; assumption.
    + split; [lia|]. intros Heq. lia.
  - apply find_closest_match_none. exact E.
Qed.

(** X2. A value that is itself among the candidates is its own closest
    match. *)
Theorem find_closest_match_exact (s : string) (allowed_values : list string) :
  In s allowed_values -> find_closest_match s allowed_values = Some s.
Proof.
  intros Hin.
  destruct (find_closest_match s allowed_values) as [v|] eqn:E.
  - apply find_closest_match_some in E as (_ & _ & Hmin).
    destruct (Hmin s Hin) as [Hle _].
    { rewrite get_edit_distance_refl. lia. }
    rewrite get_edit_distance_refl in Hle.
    f_equal. symmetry. apply get_edit_distance_zero. lia.
  - exfalso.
    pose proof (proj1 (find_closest_match_none s allowed_values) E s Hin) as H.
    rewrite get_edit_distance_refl in H. lia.
Qed.

Lemma find_closest_match_exact_witness :
  In "abc" ["abd"; "abc"] /\
  find_closest_match "abc" ["abd"; "abc"] = Some "abc".
Proof.
  split; [right; left; reflexivity|].
  apply (find_closest_match_exact "abc" ["abd"; "abc"]).
  right. left. reflexivity.
Defined.

(** X3. [get_edit_distance] is a metric on strings: it is symmetric, it is
    zero exactly on equal strings, and it obeys the triangle inequality. *)
Theorem get_edit_distance_metric (s1 s2 s3 : string) :
  get_edit_distance s1 s2 = get_edit_distance s2 s1 /\
  (get_edit_distance s1 s2 = 0 <-> s1 = s2) /\
  get_edit_distance s1 s3 <= get_edit_distance s1 s2 + get_edit_distance s2 s3.
Proof.
  split; [|split].
  - rewrite !get_edit_distance_lev. apply lev_sym.
  - split; [apply get_edit_distance_zero|].
    intros ->. apply get_edit_distance_refl.
  - rewrite !get_edit_distance_lev. apply lev_triangle.
Qed.

(** X4. The distance between two strings is at least the difference of
    their lengths and at most the greater length. *)
Theorem get_edit_distance_bounds (s1 s2 : string) :
  len s1 - len s2 <= get_edit_distance s1 s2 /\
  len s2 - len s1 <= get_edit_distance s1 s2 /\
  get_edit_distance s1 s2 <= Nat.max (len s1) (len s2).
Proof.
  rewrite get_edit_distance_lev. unfold len.
  pose proof (edits_length _ _ _ (lev_edits (chars s1) (chars s2))).
  pose proof (lev_upper (chars s1) (chars s2)).
  lia.
Qed.

(** X5. [get_common_prefix_len] is the length of the longest common prefix
    when the two strings differ at a position that both have. *)
Theorem get_common_prefix_len_on_divergence (s1 s2 : string) :
  common_prefix_length (chars s1) (chars s2) < Nat.min (len s1) (len s2) ->
  get_common_prefix_len s1 s2 = common_prefix_length (chars s1) (chars s2).
Proof.
  intros H. rewrite get_common_prefix_len_spec.
  destruct (common_prefix_length (chars s1) (chars s2)
            =? Nat.min (len s1) (len s2)) eqn:E; [|reflexivity].
  apply Nat.eqb_eq in E. lia.
Qed.

Lemma get_common_prefix_len_on_divergence_witness :
  common_prefix_length (chars "abcd") (chars "abxd")
    < Nat.min (len "abcd") (len "abxd") /\
  get_common_prefix_len "abcd" "abxd"
    = common_prefix_length (chars "abcd") (chars "abxd").
Proof.
  split; [vm_compute; lia|].
  apply (get_common_prefix_len_on_divergence "abcd" "abxd").
  vm_compute. lia.
Defined.

End MatcherExtras.

(** * More on a rule *)

Module RuleExtras.
Section WithLib.
Context {L : Lib}.
Import SchemaRule Reports.

Ltac break_match :=
  match goal with
  | |- context [match ?x with _ => _ end] =>
      lazymatch x with
      | context [match _ with _ => _ end] => fail
      | _ => destruct x eqn:?
      end
  end.

Ltac run_method :=
  unfold ensures, bind, get_self, get_state, modify, or_raise, ret, raise,
    _report_error;
  repeat (break_match; try discriminate; try exact I);
  repeat match goal with
         | H : Ret _ = Ret _ |- _ => inversion H; subst; clear H
         end.

Ltac seq lemma :=
  apply ensures_bind; eapply ensures_weaken; [apply lemma | cbv beta].

Ltac own_leaf :=
  run_method; unfold own, to_callback; simpl;
  (split; [reflexivity | repeat constructor; simpl; congruence]).

(** ** Every report of a rule goes to its callback *)

Lemma own_refl self : own self self [].
Proof. split; [reflexivity | constructor]. Qed.

Lemma own_trans s0 s1 s2 e1 e2 :
  own s0 s1 e1 -> own s1 s2 e2 -> own s0 s2 (e1 ++ e2).
Proof.
  unfold own, to_callback. intros [C1 F1] [C2 F2]. split; [congruence|].
  apply Forall_app. split; [exact F1|]. rewrite <- C1. exact F2.
Qed.

Lemma for_each_own {A B} (body : B -> A -> M B) :
  (forall acc x s, ensures (body acc x) s (fun _ s' evs => own s s' evs)) ->
  forall l acc s,
    ensures (for_each l body acc) s (fun _ s' evs => own s s' evs).
Proof.
  intros Hbody. induction l as [|x l IH]; intros acc s.
  - apply ensures_ret, own_refl.
  - simpl. seq Hbody. intros acc' s1 e1 O1.
    eapply ensures_weaken; [apply IH|].
    intros b s2 e2 O2. exact (own_trans _ _ _ _ _ O1 O2).
Qed.

Lemma _report_error_own msg v r c sv self :
  ensures (_report_error msg v r c sv) self (fun _ s' evs => own self s' evs).
Proof. own_leaf. Qed.

Lemma init_own self : ensures init self (fun _ s' evs => own self s' evs).
Proof. unfold init, parse_key. own_leaf. Qed.

Lemma _check_init_own self :
  ensures _check_init self (fun _ s' evs => own self s' evs).
Proof.
  unfold _check_init. apply ensures_bind, ensures_get_state.
  destruct (negb (_initialised self));
    [apply init_own | apply ensures_ret, own_refl].
Qed.

Lemma _test_type_own v r c raw self :
  ensures (_test_type v r c raw) self (fun _ s' evs => own self s' evs).
Proof. unfold _test_type. own_leaf. Qed.

Lemma _test_range_own v r c raw self :
  ensures (_test_range v r c raw) self (fun _ s' evs => own self s' evs).
Proof. unfold _test_range, _test_range_max. own_leaf. Qed.

Lemma _test_pattern_own v r c raw self :
  ensures (_test_pattern v r c raw) self (fun _ s' evs => own self s' evs).
Proof. unfold _test_pattern. own_leaf. Qed.

Lemma _test_enumeration_own v r c raw self :
  ensures (_test_enumeration v r c raw) self
    (fun _ s' evs => own self s' evs).
Proof. unfold _test_enumeration. own_leaf. Qed.

Lemma _test_unique_own v r c raw self :
  ensures (_test_unique v r c raw) self (fun _ s' evs => own self s' evs).
Proof. unfold _test_unique. own_leaf. Qed.

Lemma own_ret {A} (a : A) self :
  ensures (ret a) self (fun _ s' evs => own self s' evs).
Proof. apply ensures_ret, own_refl. Qed.

Lemma own_get self :
  ensures get_self self (fun _ s' evs => own self s' evs).
Proof. apply own_refl. Qed.

Lemma own_raise {A} e self :
  ensures (raise e : M A) self (fun _ s' evs => own self s' evs).
Proof. exact I. Qed.

Lemma own_or_raise {A} (x : option A) e self :
  ensures (or_raise x e) self (fun _ s' evs => own self s' evs).
Proof. apply ensures_or_raise. intros. apply own_refl. Qed.

Lemma own_modify (f : t -> t) self :
  callback (f self) = callback self ->
  ensures (modify f) self (fun _ s' evs => own self s' evs).
Proof. intros H. split; [exact H | constructor]. Qed.

Lemma own_bind {A B} (m : M A) (f : A -> M B) self :
  ensures m self (fun _ s' evs => own self s' evs) ->
  (forall a s', ensures (f a) s' (fun _ s'' evs => own s' s'' evs)) ->
  ensures (bind m f) self (fun _ s' evs => own self s' evs).
Proof.
  intros Hm Hf. apply ensures_bind.
  eapply ensures_weaken; [exact Hm|]. intros a s1 e1 O1.
  eapply ensures_weaken; [apply Hf|]. intros b s2 e2 O2.
  exact (own_trans _ _ _ _ _ O1 O2).
Qed.

Ltac own_go :=
  repeat (cbv beta zeta;
    first
      [ apply own_ret | apply own_get | apply own_raise | apply own_or_raise
      | apply own_modify; reflexivity
      | apply _report_error_own | apply _check_init_own
      | apply _test_type_own | apply _test_range_own | apply _test_pattern_own
      | apply _test_enumeration_own | apply _test_unique_own
      | apply own_bind; [|intros ? ?]
      | apply for_each_own; intros ? ? ?
      | match goal with
        | |- ensures (match ?x with _ => _ end) _ _ => destruct x
        end ]).

Lemma validate_own raw r c self :
  ensures (validate raw r c) self (fun _ s' evs => own self s' evs).
Proof. unfold validate. own_go. Qed.

Lemma validate_columns_own cols self :
  ensures (validate_columns cols) self (fun _ s' evs => own self s' evs).
Proof. unfold validate_columns. own_go. Qed.

Lemma validate_row_own r self :
  ensures (validate_row r) self (fun _ s' evs => own self s' evs).
Proof.
  unfold validate_row, validate_values, check_required, check_min_occur,
    check_max_occur, check_unique_key.
  own_go; try apply validate_own; own_go.
Qed.

Lemma top_values_own counts self :
  ensures (top_values counts) self (fun _ s' evs => own self s' evs).
Proof.
  revert self. induction counts as [|[key vals] counts IH]; intros self;
    simpl; own_go. apply IH.
Qed.

Lemma finish_own self :
  ensures finish self (fun _ s' evs => own self s' evs).
Proof.
  unfold finish, _finish_correlations, _finish_consistency,
    expected_values_of, report_deviations, report_locations,
    report_inconsistent, related_columns.
  own_go; try apply top_values_own; own_go.
Qed.

(** X6. Each of [validate_columns], [validate_row], [validate] and [finish]
    leaves the callback of the rule as it was and calls no other callback:
    a rule without a callback reports nothing. *)
Theorem rule_reports_to_its_callback (self : t) :
  (forall cols,
     ensures (validate_columns cols) self
       (fun _ self' evs =>
          callback self' = callback self /\
          Forall (fun ev => callback self = Some (fst ev)) evs)) /\
  (forall r,
     ensures (validate_row r) self
       (fun _ self' evs =>
          callback self' = callback self /\
          Forall (fun ev => callback self = Some (fst ev)) evs)) /\
  (forall raw r c,
     ensures (validate raw r c) self
       (fun _ self' evs =>
          callback self' = callback self /\
          Forall (fun ev => callback self = Some (fst ev)) evs)) /\
  ensures finish self
    (fun _ self' evs =>
       callback self' = callback self /\
       Forall (fun ev => callback self = Some (fst ev)) evs).
Proof.
  repeat split; intros.
  - apply validate_columns_own.
  - apply validate_row_own.
  - apply validate_own.
  - apply finish_own.
Qed.

(** ** Edge cases of the tests on one value *)

(** X7. An empty value passes [validate]: nothing is tested and nothing is
    reported; on a rule that is initialised the rule is left as it is. *)
Theorem validate_empty_value (self : t) raw r c :
  is_empty raw = true ->
  ensures (validate raw r c) self (fun b _ evs => b = true /\ evs = []) /\
  (_initialised self = true -> validate raw r c self = Ret (true, self, [])).
Proof.
  intros He. split.
  - unfold validate.
    apply ensures_bind. eapply ensures_weaken;
      [apply SchemaRuleFacts._check_init_silent|].
    intros u s' evs ->. rewrite He. apply ensures_ret. auto.
  - intros Hi.
    cbv beta iota delta [validate _check_init bind get_self get_state].
    rewrite Hi. cbn [negb ret]. rewrite He. reflexivity.
Qed.

(** X8. With bounds set, a value in range passes silently, a value above
    the maximum is reported once with the raw value, and a value that is
    not a number fails without any report. *)
Theorem _test_range_cases (self : t) mn mx v r c raw :
  min_value self = Some mn -> max_value self = Some mx ->
  (forall x, float v = Some x ->
     float_lt x mn = false -> float_lt mx x = false ->
     _test_range v r c raw self = Ret (true, self, [])) /\
  (forall x, float v = Some x ->
     float_lt x mn = false -> float_lt mx x = true ->
     _test_range v r c raw self =
     Ret (false, self,
          match callback self with
          | Some cb =>
              [(cb, {| message :=
                         ("Value is great than " ++ str_float mx)%string;
                       value := Some raw; row := r; column := c;
                       suggested_value := Some raw |})]
          | None => []
          end)) /\
  (float v = None -> _test_range v r c raw self = Ret (false, self, [])).
Proof.
  intros Hmn Hmx.
  cbv beta iota delta [_test_range _test_range_max bind get_self get_state
                         ret _report_error].
  rewrite Hmn. repeat split.
  - intros x Hx H1 H2. rewrite Hx, H1. cbv beta iota. rewrite Hmx, H2.
    reflexivity.
  - intros x Hx H1 H2. rewrite Hx, H1. cbv beta iota. rewrite Hmx, H2.
    reflexivity.
  - intros Hx. rewrite Hx. reflexivity.
Qed.

(** X9. A rule that tracked nothing: [finish] reports nothing and returns
    the negation of [consistent_datatypes], since [_finish_consistency]
    returns [None] on an empty map. *)
Theorem finish_nothing_tracked (self : t) :
  _correlation_map self = [] -> _consistency_map self = [] ->
  finish self = Ret (negb (consistent_datatypes self), self, []).
Proof.
  intros Hc Hd.
  cbv beta iota delta [finish _finish_correlations _finish_consistency bind
                         get_self get_state ret].
  rewrite Hc. cbn [nonempty negb].
  destruct (consistent_datatypes self); [|reflexivity].
  rewrite Hd. reflexivity.
Qed.

(** X10. Column validation of a required rule: without a matching column
    it returns false and reports exactly one error; with a matching column
    (and no [min_occur]) it returns true and reports nothing. *)
Theorem validate_columns_required (self : t) cols :
  _initialised self = true -> required self = true ->
  (filter (tp_match (tag_pattern self)) cols = [] ->
   validate_columns cols self =
   Ret (false, self,
        match callback self with
        | Some cb =>
            [(cb, {| message :=
                       "column with this hashtag required but not found";
                     value := None; row := None; column := None;
                     suggested_value := None |})]
        | None => []
        end)) /\
  (filter (tp_match (tag_pattern self)) cols <> [] ->
   min_occur self = None ->
   validate_columns cols self = Ret (true, self, [])).
Proof.
  intros Hi Hr.
  cbv beta iota delta [validate_columns bind _check_init get_self get_state
                         ret _report_error wants_columns too_few_columns].
  rewrite Hi. cbv beta iota delta [negb ret]. rewrite Hr.
  cbv beta iota delta [orb andb]. split.
  - intros ->. simpl. destruct (callback self); reflexivity.
  - intros Hne ->.
    destruct (filter (tp_match (tag_pattern self)) cols); [easy|].
    simpl. reflexivity.
Qed.

(** ** Dictionaries *)

Lemma dict_get_set_same {V} (d : dict string V) k v :
  dict_get String.eqb (dict_set String.eqb d k v) k = Some v.
Proof.
  induction d as [|[k' v'] d IH]; simpl.
  - rewrite String.eqb_refl. reflexivity.
  - destruct (String.eqb k k') eqn:E; simpl; rewrite E; [reflexivity | exact IH].
Qed.

Lemma dict_get_set_other {V} (d : dict string V) k k' v :
  k' <> k ->
  dict_get String.eqb (dict_set String.eqb d k v) k'
  = dict_get String.eqb d k'.
Proof.
  intros Hne. induction d as [|[k0 v0] d IH]; simpl.
  - apply String.eqb_neq in Hne. rewrite Hne. reflexivity.
  - destruct (String.eqb k k0) eqn:E; simpl.
    + apply String.eqb_eq in E. subst k0.
      apply String.eqb_neq in Hne. rewrite Hne. reflexivity.
    + destruct (String.eqb k' k0); [reflexivity | exact IH].
Qed.

Lemma dict_mem_set {V} (d : dict string V) k k' v :
  dict_mem String.eqb d k' = true ->
  dict_mem String.eqb (dict_set String.eqb d k v) k' = true.
Proof.
  unfold dict_mem. intros H.
  destruct (string_dec k' k) as [->|Hne].
  - rewrite dict_get_set_same. reflexivity.
  - rewrite dict_get_set_other by exact Hne. exact H.
Qed.

(** ** Uniqueness *)

Lemma _test_unique_seen self v r c raw :
  unique self = true ->
  dict_get String.eqb (_unique_value_map self) (normalise v c) = Some true ->
  _test_unique v r c raw self = Ret (false, self, duplicate_report self r c raw).
Proof.
  intros Hu Hs.
  cbv beta iota zeta delta [_test_unique bind get_self get_state].
  rewrite Hu, Hs. reflexivity.
Qed.

Lemma _test_unique_new self v r c raw :
  unique self = true ->
  dict_get String.eqb (_unique_value_map self) (normalise v c) <> Some true ->
  _test_unique v r c raw self =
  Ret (true,
       set_unique_value_map
         (dict_set String.eqb (_unique_value_map self) (normalise v c) true)
         self,
       []).
Proof.
  intros Hu Hs.
  cbv beta iota zeta delta [_test_unique bind get_self get_state].
  rewrite Hu.
  destruct (dict_get String.eqb (_unique_value_map self) (normalise v c))
    as [[|]|]; try reflexivity.
  elim Hs. reflexivity.
Qed.

(** X11. The uniqueness test of a rule with [unique] set: a value not seen
    before passes silently and is recorded, without disturbing the other
    recorded values; a value seen before is reported once as a duplicate
    and the rule stays as it is.  So any later value with the same
    normalised form is reported. *)
Theorem _test_unique_records (self : t) v r c raw :
  unique self = true ->
  (dict_get String.eqb (_unique_value_map self) (normalise v c) = Some true ->
   _test_unique v r c raw self
   = Ret (false, self, duplicate_report self r c raw)) /\
  (dict_get String.eqb (_unique_value_map self) (normalise v c) <> Some true ->
   exists self',
     _test_unique v r c raw self = Ret (true, self', []) /\
     (forall k, k <> normalise v c ->
        dict_get String.eqb (_unique_value_map self') k
        = dict_get String.eqb (_unique_value_map self) k) /\
     forall v2 r2 c2 raw2,
       normalise v2 c2 = normalise v c ->
       _test_unique v2 r2 c2 raw2 self'
       = Ret (false, self', duplicate_report self' r2 c2 raw2)).
Proof.
  intros Hu. split; [apply _test_unique_seen; exact Hu|].
  intros Hs. eexists. split; [apply _test_unique_new; assumption|].
  split.
  - intros k Hk. simpl. apply dict_get_set_other. exact Hk.
  - intros v2 r2 c2 raw2 Heq. apply _test_unique_seen; [exact Hu|].
    simpl. rewrite Heq. apply dict_get_set_same.
Qed.

(** ** [init] *)

Lemma parse_key_cases k own self :
  match k with
  | Some spec =>
      if key_spec_truthy spec then
        match tp_parse_list spec with
        | Some l =>
            parse_key k own self = Ret (Some (KeyPatterns (l ++ own)), self, [])
        | None => raises (parse_key k own) self
        end
      else parse_key k own self = Ret (k, self, [])
  | None => parse_key k own self = Ret (k, self, [])
  end.
Proof.
  unfold parse_key. destruct k as [spec|]; [|reflexivity].
  destruct (key_spec_truthy spec); [|reflexivity].
  destruct (tp_parse_list spec); [reflexivity|].
  eexists. reflexivity.
Qed.

(** X12. What [init] does when it returns: it reports nothing, marks the
    rule as initialised, leaves the tag pattern and the four accumulation
    maps alone, and replaces a [unique_key] that is set by its parsed
    patterns followed by the rule's own tag pattern.  [init] raises when
    [unique_key] does not parse; on an initialised rule [_check_init] does
    nothing. *)
Theorem init_effects (self : t) :
  ensures init self
    (fun _ self' evs =>
       evs = [] /\ _initialised self' = true /\
       tag_pattern self' = tag_pattern self /\
       _unique_value_map self' = _unique_value_map self /\
       _unique_key_map self' = _unique_key_map self /\
       _correlation_map self' = _correlation_map self /\
       _consistency_map self' = _consistency_map self /\
       forall spec, unique_key self = Some spec ->
         key_spec_truthy spec = true ->
         exists l, tp_parse_list spec = Some l /\
           unique_key self' = Some (KeyPatterns (l ++ [tag_pattern self]))) /\
  (forall spec, unique_key self = Some spec ->
     key_spec_truthy spec = true -> tp_parse_list spec = None ->
     raises init self) /\
  (_initialised self = true -> _check_init self = Ret (tt, self, [])).
Proof.
  split; [|split].
  - unfold init, parse_key. run_method; simpl; repeat split;
      try reflexivity;
      intros spec' [= <-] Ht; try congruence; eauto.
  - intros spec Hk Ht Hp.
    cbv beta iota delta [init bind get_self get_state raises parse_key
                           or_raise raise].
    destruct (enum self) as [vs|]; [destruct (nonempty vs)|];
      cbv beta iota delta [modify ret];
      rewrite Hk; cbv beta iota; rewrite Ht; cbv beta iota;
      rewrite Hp; cbv beta iota; eauto.
  - intros Hi. cbv beta iota delta [_check_init bind get_self get_state].
    rewrite Hi. reflexivity.
Qed.

(** ** Enumerations *)

Lemma enum_map_mem (f : string -> string) (vs : list string) :
  forall m v,
    In v vs \/ dict_mem String.eqb m (f v) = true ->
    dict_mem String.eqb
      (fold_left (fun m v => dict_set String.eqb m (f v) v) vs m) (f v)
    = true.
Proof.
  induction vs as [|x vs IH]; intros m v H; simpl.
  - destruct H as [[]|H]. exact H.
  - apply IH. destruct H as [[->|H]|H].
    + right. unfold dict_mem. rewrite dict_get_set_same. reflexivity.
    + left. exact H.
    + right. apply dict_mem_set. exact H.
Qed.

Lemma init_enum_map self vs :
  enum self = Some vs -> nonempty vs = true ->
  ensures init self
    (fun _ self' _ =>
       _enum_map self' =
       Some (fold_left
               (fun m v => dict_set String.eqb m (normalise_for self v) v)
               vs [])).
Proof.
  intros He Hn. unfold init, parse_key.
  cbv beta iota delta [ensures bind get_self get_state].
  rewrite He, Hn.
  run_method; reflexivity.
Qed.

(** X13. Once [init] has built the lookup map of an enumeration, every
    value of the enumeration, normalised as [validate] normalises values,
    passes the enumeration test without a report. *)
Theorem enum_values_accepted (self : t) (vs : list string) :
  enum self = Some vs -> nonempty vs = true ->
  ensures init self
    (fun _ self' _ =>
       forall v, In v vs ->
       forall r c raw,
         _test_enumeration (normalise_for self v) r c raw self'
         = Ret (true, self', [])).
Proof.
  intros He Hn.
  eapply ensures_weaken; [apply (init_enum_map self vs He Hn)|].
  intros ? self' ? Hm v Hv r c raw.
  cbv beta iota delta [_test_enumeration bind get_self get_state].
  rewrite Hm.
  rewrite (enum_map_mem (normalise_for self) vs [] v) by (left; exact Hv).
  reflexivity.
Qed.

End WithLib.

Lemma _test_unique_records_witness :
  SchemaRule._test_unique (L := Plain.lib) "7" None None "7"
    (SchemaRule.set_unique_value_map (L := Plain.lib) [("7", true)]
       Examples.unique_rule)
  = Ret (false,
         SchemaRule.set_unique_value_map (L := Plain.lib) [("7", true)]
           Examples.unique_rule,
         [(1, {| message := "Found duplicate value"; value := Some "7";
                 row := None; column := None; suggested_value := None |})]).
Proof.
  apply (proj1 (@_test_unique_records Plain.lib
                  (SchemaRule.set_unique_value_map (L := Plain.lib)
                     [("7", true)] Examples.unique_rule)
                  "7" None None "7" eq_refl)).
  reflexivity.
Defined.

Lemma enum_values_accepted_witness :
  ensures (SchemaRule.init (L := Plain.lib)) Examples.enum_rule
    (fun _ self' _ =>
       forall v, In v ["Yes"; "No"] ->
       forall r c raw,
         SchemaRule._test_enumeration (L := Plain.lib)
           (SchemaRule.normalise_for (L := Plain.lib) Examples.enum_rule v)
           r c raw self'
         = Ret (true, self', [])).
Proof.
  apply (@enum_values_accepted Plain.lib Examples.enum_rule ["Yes"; "No"]);
    reflexivity.
Defined.

Lemma validate_empty_value_witness :
  is_empty (Lib := Plain.lib) "  " = true /\
  SchemaRule.validate (L := Plain.lib) "  " None None Examples.ready_rule
  = Ret (true, Examples.ready_rule, []).
Proof.
  split; [reflexivity|].
  apply (proj2 (@validate_empty_value Plain.lib Examples.ready_rule "  "
                  None None eq_refl)).
  reflexivity.
Defined.

Lemma _test_range_cases_witness :
  SchemaRule._test_range (L := Plain.lib) "abc" None None "abc"
    Examples.ranged_rule
  = Ret (false, Examples.ranged_rule, []).
Proof.
  apply (proj2 (proj2 (@_test_range_cases Plain.lib Examples.ranged_rule
                         0%Z 10%Z "abc" None None "abc" eq_refl eq_refl))).
  reflexivity.
Defined.

Lemma finish_nothing_tracked_witness :
  SchemaRule.finish (L := Plain.lib) Examples.consistent_rule
  = Ret (false, Examples.consistent_rule, []).
Proof.
  exact (@finish_nothing_tracked Plain.lib Examples.consistent_rule
           eq_refl eq_refl).
Defined.

Lemma validate_columns_required_witness :
  SchemaRule.validate_columns (L := Plain.lib) []
    Examples.required_rule
  = Ret (false, Examples.required_rule,
         [(1, {| message :=
                   "column with this hashtag required but not found";
                 value := None; row := None; column := None;
                 suggested_value := None |})]).
Proof.
  apply (proj1 (@validate_columns_required Plain.lib Examples.required_rule
                  [] eq_refl eq_refl)).
  reflexivity.
Defined.

End RuleExtras.


(** * More on a schema *)

Module SchemaExtras.
Section WithLib.
Context {L : Lib}.
Import Schema Reports.

Ltac seq lemma :=
  apply ensures_bind; eapply ensures_weaken; [apply lemma | cbv beta].

(** A loop keeps an invariant when its body keeps it for the items of the
    list. *)
Lemma ensures_for_each_in {S W A B} (body : B -> A -> exec S W B)
    (l : list A) (I : B -> S -> list W -> Prop) :
  (forall acc x s ws, In x l -> I acc s ws ->
     ensures (body acc x) s (fun acc' s' ws' => I acc' s' (ws ++ ws'))) ->
  forall acc s, I acc s [] -> ensures (for_each l body acc) s I.
Proof.
  intros Hbody.
  assert (H : forall l', incl l' l -> forall acc s ws, I acc s ws ->
            ensures (for_each l' body acc) s
              (fun acc' s' ws' => I acc' s' (ws ++ ws'))).
  { induction l' as [|x l' IH]; intros Hl acc s ws HI; simpl.
    - apply ensures_ret. rewrite app_nil_r. exact HI.
    - apply ensures_bind.
      eapply ensures_weaken;
        [apply (Hbody acc x s ws (Hl x (or_introl eq_refl)) HI)|].
      intros acc' s' ws' HI'. simpl.
      eapply ensures_weaken.
      + apply (IH (fun y Hy => Hl y (or_intror Hy)) acc' s' _ HI').
      + intros b s'' ws''. rewrite app_assoc. exact (fun H => H). }
  intros acc s HI. exact (H l (incl_refl l) acc s [] HI).
Qed.

(** ** Callbacks are put back *)

Lemma framed_refl w : framed w w [].
Proof. repeat split. constructor. Qed.

Lemma callback_in_force_framed w w' reports ref :
  framed w w' reports -> callback_in_force w' ref = callback_in_force w ref.
Proof.
  intros (_ & Hc & Hr & _). unfold callback_in_force. rewrite Hc, Hr.
  reflexivity.
Qed.

Lemma framed_trans w0 w1 w2 r1 r2 :
  framed w0 w1 r1 -> framed w1 w2 r2 -> framed w0 w2 (r1 ++ r2).
Proof.
  intros F1 F2.
  pose proof (fun ref => callback_in_force_framed _ _ _ ref F1) as Hcf.
  destruct F1 as (R1 & C1 & K1 & F1), F2 as (R2 & C2 & K2 & F2).
  split; [congruence|]. split; [congruence|]. split.
  - intros ref. rewrite K2. apply K1.
  - apply Forall_app. split; [exact F1|].
    eapply Forall_impl; [|exact F2].
    intros rep [Hin Hcb]. rewrite R1 in Hin. rewrite Hcf in Hcb. auto.
Qed.

Lemma call_rule_framed {A} ref (m : SchemaRule.M A) w :
  In ref (rules (self w)) ->
  (forall rule, ensures m rule (fun _ rule' evs => own rule rule' evs)) ->
  ensures (call_rule ref m) w (fun _ w' reports => framed w w' reports).
Proof.
  intros Hin Hm. unfold ensures, call_rule.
  match goal with |- context [m ?r] => set (rule0 := r) end.
  assert (Hcb : SchemaRule.callback rule0 = callback_in_force w ref).
  { unfold rule0, callback_in_force.
    destruct (callback (self w)); reflexivity. }
  specialize (Hm rule0). unfold ensures in Hm.
  destruct (m rule0) as [[[a rule'] evs]|e]; [|exact I].
  destruct Hm as [_ Hto]. unfold to_callback in Hto. rewrite Hcb in Hto.
  split; [reflexivity|]. split; [reflexivity|]. split.
  - intros ref'. simpl. unfold heap_set.
    destruct (ref' =? ref) eqn:E; [|reflexivity].
    apply Nat.eqb_eq in E. subst ref'. reflexivity.
  - apply Forall_map. eapply Forall_impl; [|exact Hto].
    intros ev Hev. simpl. auto.
Qed.

Lemma framed_step w0 w1 reports (m : M bool) (k : bool -> M bool) :
  framed w0 w1 reports ->
  ensures m w1 (fun _ w' reports' => framed w1 w' reports') ->
  (forall ok w2, ensures (k ok) w2 (fun _ w' reports' => framed w2 w' reports')) ->
  ensures (bind m k) w1 (fun _ w' reports' => framed w0 w' (reports ++ reports')).
Proof.
  intros F0 Hm Hk. apply ensures_bind.
  eapply ensures_weaken; [exact Hm|]. intros ok w2 r1 F1.
  eapply ensures_weaken; [apply Hk|]. intros b w3 r2 F2.
  exact (framed_trans _ _ _ _ _ F0 (framed_trans _ _ _ _ _ F1 F2)).
Qed.

Lemma validate_columns_framed cols w :
  ensures (validate_columns cols) w (fun _ w' reports => framed w w' reports).
Proof.
  unfold validate_columns. apply ensures_bind, ensures_get_state.
  apply (ensures_for_each_in _ _ (fun _ w' reports => framed w w' reports));
    [|apply framed_refl].
  intros result ref s ws Hin F.
  apply (framed_step w s ws _ _ F).
  - apply call_rule_framed; [|intros; apply RuleExtras.validate_columns_own].
    destruct F as [-> _]. exact Hin.
  - intros ok w2. destruct ok; simpl.
    + apply ensures_ret, framed_refl.
    + apply ensures_bind, ensures_modify. apply ensures_ret.
      repeat split. constructor.
Qed.

Lemma validate_row_framed r w :
  ensures (validate_row r) w (fun _ w' reports => framed w w' reports).
Proof.
  unfold validate_row. apply ensures_bind, ensures_get_state.
  apply (ensures_for_each_in _ _ (fun _ w' reports => framed w w' reports));
    [|apply framed_refl].
  intros result ref s ws Hin F.
  apply ensures_bind, ensures_get_state.
  destruct (negb (is_impossible ref s)).
  - apply (framed_step w s ws _ _ F).
    + apply call_rule_framed; [|intros; apply RuleExtras.validate_row_own].
      destruct F as [-> _]. exact Hin.
    + intros ok w2. apply ensures_ret, framed_refl.
  - apply ensures_ret. simpl. rewrite app_nil_r. exact F.
Qed.

Lemma validate_dataset_framed w :
  ensures validate_dataset w (fun _ w' reports => framed w w' reports).
Proof.
  unfold validate_dataset. apply ensures_bind, ensures_get_state.
  apply (ensures_for_each_in _ _ (fun _ w' reports => framed w w' reports));
    [|apply framed_refl].
  intros result ref s ws Hin F.
  apply (framed_step w s ws _ _ F).
  - apply call_rule_framed; [|intros; apply RuleExtras.finish_own].
    destruct F as [-> _]. exact Hin.
  - intros ok w2. apply ensures_ret, framed_refl.
Qed.

Lemma validate_framed source w :
  ensures (validate source) w (fun _ w' reports => framed w w' reports).
Proof.
  unfold validate.
  seq validate_columns_framed. intros ok0 w0 r0 F0.
  apply ensures_bind. eapply ensures_weaken.
  - apply (ensures_for_each _ (fun _ w' reports => framed w w' reports))
      with (ws := r0); [|exact F0].
    intros result r s ws F.
    apply (framed_step w s ws _ _ F); [apply validate_row_framed|].
    intros ok w2. apply ensures_ret, framed_refl.
  - intros result w1 r1 F1. cbv beta.
    eapply ensures_weaken.
    + apply (framed_step w w1 (r0 ++ r1) _ _ F1);
        [apply validate_dataset_framed|].
      intros ok w2. apply ensures_ret, framed_refl.
    + intros b w' reports. rewrite app_assoc. exact (fun H => H).
Qed.

(** X14. A run of [Schema.validate] keeps the rules and the callback of the
    schema and leaves every rule with the callback it had; every report
    comes from a rule of the schema and went to the callback of the schema
    if it has one, and to the callback of the rule otherwise. *)
Theorem validate_restores_callbacks (source : Dataset) (w : world) :
  ensures (validate source) w
    (fun _ w' reports =>
       rules (self w') = rules (self w) /\
       callback (self w') = callback (self w) /\
       (forall ref,
          SchemaRule.callback (objects w' ref)
          = SchemaRule.callback (objects w ref)) /\
       Forall
         (fun rep =>
            In (fst rep) (rules (self w)) /\
            match callback (self w) with
            | Some cb => Some cb
            | None => SchemaRule.callback (objects w (fst rep))
            end = Some (fst (snd rep)))
         reports).
Proof. exact (validate_framed source w). Qed.


(** ** Rules that cannot be satisfied *)

Lemma call_rule_other {A} ref ref' (m : SchemaRule.M A) w :
  ref' <> ref ->
  ensures (call_rule ref' m) w
    (fun _ w' reports =>
       self w' = self w /\ objects w' ref = objects w ref /\
       Forall (fun rep => fst rep <> ref) reports).
Proof.
  intros Hne. unfold ensures, call_rule.
  match goal with |- context [m ?r] => destruct (m r) as [[[a rule'] evs]|e] end;
    [|exact I].
  simpl. split; [reflexivity|]. split.
  - unfold heap_set. destruct (ref =? ref') eqn:E; [|reflexivity].
    apply Nat.eqb_eq in E. congruence.
  - apply Forall_map. apply Forall_forall. intros ev _. exact Hne.
Qed.

Lemma for_each_skip {S W A B} (body : B -> A -> exec S W B) s :
  forall l acc,
    (forall x, In x l -> forall acc, body acc x s = Ret (acc, s, [])) ->
    for_each l body acc s = Ret (acc, s, []).
Proof.
  induction l as [|x l IH]; intros acc Hskip; [reflexivity|].
  simpl. unfold bind. rewrite (Hskip x (or_introl eq_refl)).
  rewrite IH; [reflexivity|].
  intros y Hy. apply Hskip. right. exact Hy.
Qed.

(** X15. [Schema.validate_row] never runs a rule listed in
    [impossible_rules]: the rule object is left as it is, nothing is
    reported for it, and the list itself does not change.  When every rule
    of the schema is listed, the row is accepted without a report. *)
Theorem impossible_rules_skipped (r : Row) (w : world) :
  (forall ref, is_impossible ref w = true ->
     ensures (validate_row r) w
       (fun _ w' reports =>
          objects w' ref = objects w ref /\
          impossible_rules (self w') = impossible_rules (self w) /\
          Forall (fun rep => fst rep <> ref) reports)) /\
  (forallb (fun ref => is_impossible ref w) (rules (self w)) = true ->
   validate_row r w = Ret (true, w, [])).
Proof.
  split.
  - intros ref Himp. unfold validate_row.
    apply ensures_bind, ensures_get_state.
    eapply ensures_weaken.
    + apply (ensures_for_each_nil _
               (fun _ w' reports =>
                  self w' = self w /\ objects w' ref = objects w ref /\
                  Forall (fun rep => fst rep <> ref) reports)).
      * intros result rule s ws (Hs & Ho & Hf).
        apply ensures_bind, ensures_get_state.
        destruct (negb (is_impossible rule s)) eqn:E.
        -- assert (Hne : rule <> ref).
           { intros ->. unfold is_impossible in *. rewrite Hs, Himp in E.
             discriminate. }
           seq (call_rule_other ref rule (SchemaRule.validate_row r) s Hne).
           intros ok s' reports (Hs' & Ho' & Hf').
           apply ensures_ret. simpl. rewrite app_nil_r.
           split; [congruence|]. split; [congruence|].
           apply Forall_app. split; assumption.
        -- apply ensures_ret. simpl. rewrite app_nil_r. auto.
      * repeat split. constructor.
    + intros b w' reports (Hs & Ho & Hf). rewrite Hs. auto.
  - intros Hall.
    assert (Hrun :
      for_each (rules (self w))
        (fun result rule =>
           w <- get_state ;;
           if negb (is_impossible rule w) then
             ok <- call_rule rule (SchemaRule.validate_row r) ;;
             ret (if negb ok then false else result)
           else ret result)
        true w = Ret (true, w, [])).
    { apply for_each_skip. intros ref Hin acc.
      rewrite forallb_forall in Hall.
      cbv beta iota delta [bind get_state]. rewrite (Hall ref Hin).
      reflexivity. }
    cbv beta iota delta [validate_row bind get_state] in Hrun |- *.
    rewrite Hrun. reflexivity.
Qed.

Lemma call_rule_self {A} ref (m : SchemaRule.M A) w :
  ensures (call_rule ref m) w (fun _ w' _ => self w' = self w).
Proof.
  unfold ensures, call_rule.
  match goal with |- context [m ?r] => destruct (m r) as [[[a rule'] evs]|e] end;
    [reflexivity|exact I].
Qed.

(** X16. [Schema.validate_columns] returns false exactly when it lists a
    rule of the schema in [impossible_rules]: a run that returns true leaves
    the list as it was, a run that returns false has listed a rule of the
    schema; rules are only ever added, and only rules of the schema. *)
Theorem validate_columns_marks_failures (cols : list Column) (w : world) :
  ensures (validate_columns cols) w
    (fun b w' _ =>
       (b = true -> impossible_rules (self w') = impossible_rules (self w)) /\
       (b = false ->
        exists ref, In ref (rules (self w)) /\ is_impossible ref w' = true) /\
       (forall ref, is_impossible ref w = true ->
          is_impossible ref w' = true) /\
       (forall ref, is_impossible ref w' = true ->
          is_impossible ref w = true \/ In ref (rules (self w)))).
Proof.
  unfold validate_columns. apply ensures_bind, ensures_get_state.
  apply (ensures_for_each_in _ _
           (fun b w' _ =>
              (b = true ->
               impossible_rules (self w') = impossible_rules (self w)) /\
              (b = false ->
               exists ref,
                 In ref (rules (self w)) /\ is_impossible ref w' = true) /\
              (forall ref, is_impossible ref w = true ->
                 is_impossible ref w' = true) /\
              (forall ref, is_impossible ref w' = true ->
                 is_impossible ref w = true \/ In ref (rules (self w))))).
  - intros result rule s ws Hin (Ht & Hf & Hup & Hdown).
    seq (call_rule_self (A := bool)). intros ok s' reports Hs.
    assert (Himp : forall ref, is_impossible ref s' = is_impossible ref s).
    { intros ref. unfold is_impossible. rewrite Hs. reflexivity. }
    destruct ok; simpl.
    + apply ensures_ret. repeat split.
      * intros Hr. rewrite Hs. auto.
      * intros Hr. destruct (Hf Hr) as (ref & Href & Hi).
        exists ref. rewrite Himp. auto.
      * intros ref Hi. rewrite Himp. auto.
      * intros ref Hi. rewrite Himp in Hi. auto.
    + apply ensures_bind, ensures_modify. apply ensures_ret.
      assert (Hmark : forall ref,
                is_impossible ref (mark_impossible rule s')
                = (ref =? rule) || is_impossible ref s).
      { intros ref. rewrite <- Himp. reflexivity. }
      repeat split.
      * discriminate.
      * intros _. exists rule. split; [exact Hin|].
        rewrite Hmark, Nat.eqb_refl. reflexivity.
      * intros ref Hi. rewrite Hmark, (Hup ref Hi). apply orb_true_r.
      * intros ref Hi. rewrite Hmark in Hi.
        apply orb_true_iff in Hi as [Hi|Hi]; [|auto].
        apply Nat.eqb_eq in Hi. subst ref. auto.
  - repeat split; auto. discriminate.
Qed.

(** ** [Schema.parse] *)

Ltac break_match :=
  match goal with
  | |- context [match ?x with _ => _ end] =>
      lazymatch x with
      | context [match _ with _ => _ end] => fail
      | _ => destruct x eqn:?
      end
  end.

Ltac run_method :=
  unfold ensures, bind, SchemaRule.get_self, get_state, modify, or_raise,
    ret, raise;
  repeat (break_match; try discriminate; try exact I);
  repeat match goal with
         | H : Ret _ = Ret _ |- _ => inversion H; subst; clear H
         end.

(** What [init] leaves in place on any rule. *)
Lemma init_fresh (rule : SchemaRule.t) :
  ensures SchemaRule.init rule
    (fun _ rule' _ =>
       SchemaRule._initialised rule' = true /\
       SchemaRule.tag_pattern rule' = SchemaRule.tag_pattern rule /\
       SchemaRule.callback rule' = SchemaRule.callback rule /\
       SchemaRule._unique_value_map rule' = SchemaRule._unique_value_map rule /\
       SchemaRule._unique_key_map rule' = SchemaRule._unique_key_map rule /\
       SchemaRule._correlation_map rule' = SchemaRule._correlation_map rule /\
       SchemaRule._consistency_map rule' = SchemaRule._consistency_map rule).
Proof.
  unfold SchemaRule.init, SchemaRule.parse_key.
  run_method; simpl; repeat split; reflexivity.
Qed.

Lemma parse_rule_fresh tag r st :
  row_get r "#valid_tag" = Some tag ->
  ensures (parse_rule tag r) st (fun rule _ _ => fresh_rule_of r rule).
Proof.
  intros Htag. unfold parse_rule.
  apply ensures_bind, ensures_or_raise. intros pattern Hp.
  do 10 (apply ensures_bind; eapply ensures_weaken;
         [apply ensures_trivial | cbv beta zeta; intros ? ? ? _]).
  unfold ensures.
  match goal with
  | |- context [SchemaRule.init ?rule] =>
      pose proof (init_fresh rule) as H;
      unfold ensures in H;
      destruct (SchemaRule.init rule) as [[[u rule'] evs]|e]
  end; [|exact I].
  simpl in *. destruct H as (Hi & Ht & Hc & H1 & H2 & H3 & H4).
  unfold fresh_rule_of. rewrite Htag. simpl. rewrite Ht.
  repeat split; assumption.
Qed.

Lemma parse_rules_fresh : forall rows made st,
  ensures
    (for_each rows
       (fun made r =>
          match row_get r "#valid_tag" with
          | Some tag =>
              if truthy tag then
                rule <- parse_rule tag r ;; ret (made ++ [rule])
              else ret made
          | None => ret made
          end)
       made) st
    (fun made' _ _ =>
       exists new,
         made' = made ++ new /\
         Forall2 fresh_rule_of
           (filter (fun r => is_truthy (row_get r "#valid_tag")) rows) new).
Proof.
  induction rows as [|r rows IH]; intros made st; simpl.
  - exists []. rewrite app_nil_r. split; [reflexivity|constructor].
  - apply ensures_bind.
    destruct (row_get r "#valid_tag") as [tag|] eqn:Htag; simpl.
    + destruct (truthy tag) eqn:Ht.
      * seq (parse_rule_fresh tag r st Htag). intros rule st1 evs Hrule.
        apply ensures_ret.
        eapply ensures_weaken; [apply IH|].
        intros made' st2 evs' (new & -> & Hnew).
        exists (rule :: new). rewrite <- app_assoc. split; [reflexivity|].
        constructor; assumption.
      * apply ensures_ret. apply IH.
    + apply ensures_ret. apply IH.
Qed.

Lemma allocate_below : forall made h next ref,
  ref < next -> allocate h next made ref = h ref.
Proof.
  induction made as [|r made IH]; intros h next ref Hlt; simpl;
    [reflexivity|].
  rewrite IH by lia. unfold heap_set.
  destruct (ref =? next) eqn:E; [|reflexivity].
  apply Nat.eqb_eq in E. lia.
Qed.

Lemma allocate_fresh (P : Row -> SchemaRule.t -> Prop) :
  forall made rs h next,
    Forall2 P rs made ->
    Forall2 (fun r ref => P r (allocate h next made ref)) rs
      (seq next (List.length made)).
Proof.
  induction made as [|m made IH]; intros rs h next HF; inversion HF; subst;
    simpl; constructor.
  - rewrite allocate_below by lia. unfold heap_set.
    rewrite Nat.eqb_refl. assumption.
  - apply IH. assumption.
Qed.

Lemma parse_fresh rows cb h next :
  match parse (Specification rows) cb h next with
  | Ret w =>
      callback (self w) = cb /\
      impossible_rules (self w) = [] /\
      Forall2 (fun r ref => fresh_rule_of r (objects w ref))
        (filter (fun r => is_truthy (row_get r "#valid_tag")) rows)
        (rules (self w))
  | Raise _ => True
  end.
Proof.
  unfold parse, parse_rules.
  pose proof (parse_rules_fresh rows [] tt) as H. unfold ensures in H.
  match type of H with
  | match ?run with _ => _ end => destruct run as [[[made st] evs]|e]
  end; [|exact I].
  destruct H as (new & -> & Hnew). simpl.
  split; [reflexivity|]. split; [reflexivity|].
  apply allocate_fresh. exact Hnew.
Qed.

(** X17. Given a schema, [Schema.parse] returns it as it is but for the
    callback, which is the one passed in: the rules, the impossible rules
    and the rule objects stay.  Given a dataset, when it returns the schema
    has the callback passed in, no impossible rule, and one rule for each
    row of the specification with a non-empty [#valid_tag], in the order of
    the rows: the rule has the tag pattern parsed from that tag, is
    initialised, has no callback of its own and has tracked nothing. *)
Theorem parse_builds_rules (cb : option nat) (h : heap) (next : nat) :
  (forall schema,
     exists w,
       parse (Parsed schema) cb h next = Ret w /\
       rules (self w) = rules schema /\
       callback (self w) = cb /\
       impossible_rules (self w) = impossible_rules schema /\
       objects w = h) /\
  (forall rows,
     match parse (Specification rows) cb h next with
     | Ret w =>
         callback (self w) = cb /\
         impossible_rules (self w) = [] /\
         Forall2
           (fun r ref =>
              tp_parse (text (row_get r "#valid_tag"))
              = Some (SchemaRule.tag_pattern (objects w ref)) /\
              SchemaRule._initialised (objects w ref) = true /\
              SchemaRule.callback (objects w ref) = None /\
              SchemaRule._unique_value_map (objects w ref) = [] /\
              SchemaRule._unique_key_map (objects w ref) = [] /\
              SchemaRule._correlation_map (objects w ref) = [] /\
              SchemaRule._consistency_map (objects w ref) = [])
           (filter (fun r => is_truthy (row_get r "#valid_tag")) rows)
           (rules (self w))
     | Raise _ => True
     end).
Proof.
  split.
  - intros schema. eexists. split; [reflexivity|]. repeat split.
  - intros rows. exact (parse_fresh rows cb h next).
Qed.

Lemma Forall2_in_r {A B} (P : A -> B -> Prop) l1 l2 y :
  Forall2 P l1 l2 -> In y l2 -> exists x, P x y.
Proof.
  induction 1 as [|a b l1 l2 Hab HF IH]; intros Hin; [contradiction|].
  destruct Hin as [<-|Hin]; eauto.
Qed.

(** X18. Every error reported in a run of [Schema.validate] on a schema
    parsed from a dataset goes to the callback that was passed to
    [Schema.parse]; such a schema parsed without a callback never reports,
    so that only the boolean result tells whether the data is valid.  On a
    schema that was handed to [Schema.parse] as a schema, the reports go to
    the callback passed in, and without one to the callback of the rule
    that reports. *)
Theorem parsed_schema_reports_to_its_callback (cb : option nat) (h : heap)
    (next : nat) (source : Dataset) :
  (forall rows,
     match parse (Specification rows) cb h next with
     | Ret w =>
         ensures (validate source) w
           (fun _ _ reports =>
              Forall (fun rep => cb = Some (fst (snd rep))) reports /\
              (cb = None -> reports = []))
     | Raise _ => True
     end) /\
  (forall schema,
     match parse (Parsed schema) cb h next with
     | Ret w =>
         ensures (validate source) w
           (fun _ _ reports =>
              Forall
                (fun rep =>
                   In (fst rep) (rules schema) /\
                   match cb with
                   | Some c => Some c
                   | None => SchemaRule.callback (h (fst rep))
                   end = Some (fst (snd rep)))
                reports)
     | Raise _ => True
     end).
Proof.
  split.
  - intros rows.
    pose proof (parse_fresh rows cb h next) as H.
    destruct (parse (Specification rows) cb h next) as [w|e]; [|exact I].
    destruct H as (Hcb & _ & Hrules).
    eapply ensures_weaken; [apply validate_framed|].
    intros b w' reports (_ & _ & _ & HF).
    assert (Hall : Forall (fun rep => cb = Some (fst (snd rep))) reports).
    { eapply Forall_impl; [|exact HF].
      intros rep [Hin Hforce].
      destruct (Forall2_in_r _ _ _ _ Hrules Hin) as (r & _ & _ & Hnone & _).
      unfold callback_in_force in Hforce. rewrite Hcb, Hnone in Hforce.
      destruct cb; [exact Hforce | discriminate]. }
    split; [exact Hall|].
    intros ->. destruct reports as [|rep reports]; [reflexivity|].
    inversion Hall; discriminate.
  - intros schema. cbn [parse].
    eapply ensures_weaken; [apply validate_framed|].
    intros b w' reports (_ & _ & _ & HF). exact HF.
Qed.

End WithLib.

Lemma impossible_rules_skipped_witness :
  Schema.validate_row (L := Plain.lib) (Examples.affected_row 1 "")
    (Schema.mark_impossible 0
       (Examples.single_rule_world (L := Plain.lib) 1 Examples.required_rule))
  = Ret (true,
         Schema.mark_impossible 0
           (Examples.single_rule_world (L := Plain.lib) 1
              Examples.required_rule),
         []).
Proof.
  apply (proj2 (@impossible_rules_skipped Plain.lib
                  (Examples.affected_row 1 "")
                  (Schema.mark_impossible 0
                     (Examples.single_rule_world (L := Plain.lib) 1
                        Examples.required_rule)))).
  reflexivity.
Defined.

(** A schema whose rule has a callback of its own, handed to
    [Schema.parse] without a callback: the rule still reports, to its own
    callback. *)
Lemma reparsed_schema_still_reports :
  match Schema.parse (L := Plain.lib)
          (Schema.Parsed
             {| Schema.rules := [0]; Schema.callback := Some 2;
                Schema.impossible_rules := [] |})
          None
          (Schema.heap_set (Examples.some_objects (L := Plain.lib)) 0
             Examples.required_rule)
          1
  with
  | Ret w =>
      match Schema.validate (L := Plain.lib)
              {| dataset_columns := []; dataset_rows := [] |} w with
      | Ret (b, _, reports) =>
          b = false /\
          map (fun rep => fst (snd rep)) reports = [1]
      | Raise _ => False
      end
  | Raise _ => False
  end.
Proof. vm_compute. split; reflexivity. Qed.

End SchemaExtras.


(** * More on enumerations *)

Module EnumerationExtras.
Section WithLib.
Context {L : Lib}.
Import SchemaRule Matcher.

Ltac break_match :=
  match goal with
  | |- context [match ?x with _ => _ end] =>
      lazymatch x with
      | context [match _ with _ => _ end] => fail
      | _ => destruct x eqn:?
      end
  end.

Ltac run_method :=
  unfold ensures, bind, get_self, get_state, modify, or_raise, ret, raise,
    _report_error;
  repeat (break_match; try discriminate; try exact I);
  repeat match goal with
         | H : Ret _ = Ret _ |- _ => inversion H; subst; clear H
         end.

(** ** The lookup map of an enumeration *)

Lemma dict_get_set {V} (m : dict string V) k v k' :
  dict_get String.eqb (dict_set String.eqb m k v) k'
  = if String.eqb k' k then Some v else dict_get String.eqb m k'.
Proof.
  destruct (String.eqb k' k) eqn:E.
  - apply String.eqb_eq in E. subst. apply RuleExtras.dict_get_set_same.
  - apply String.eqb_neq in E. apply RuleExtras.dict_get_set_other, E.
Qed.

Section EnumMap.
Variable f : string -> string.

Lemma filed_get : forall vs m k v,
  dict_get String.eqb
    (fold_left (fun m v => dict_set String.eqb m (f v) v) vs m) k = Some v ->
  dict_get String.eqb m k = Some v \/ (In v vs /\ f v = k).
Proof.
  induction vs as [|x vs IH]; intros m k v H; simpl in *; [auto|].
  apply IH in H as [H|[H1 H2]]; [|auto].
  rewrite dict_get_set in H. destruct (String.eqb k (f x)) eqn:E; [|auto].
  apply String.eqb_eq in E. injection H as <-. auto.
Qed.

Lemma filed_mem : forall vs m k,
  dict_mem String.eqb
    (fold_left (fun m v => dict_set String.eqb m (f v) v) vs m) k = true <->
  dict_mem String.eqb m k = true \/ exists v, In v vs /\ f v = k.
Proof.
  induction vs as [|x vs IH]; intros m k; simpl.
  - split; [auto | intros [H|(v & [] & _)]; exact H].
  - rewrite IH. unfold dict_mem at 1. rewrite dict_get_set.
    destruct (String.eqb k (f x)) eqn:E.
    + apply String.eqb_eq in E. split; intros _; [right|left; reflexivity].
      eauto.
    + apply String.eqb_neq in E. fold (dict_mem String.eqb m k).
      split; intros [H|(v & Hv & Hf)]; auto.
      * right. eauto.
      * destruct Hv as [<-|Hv]; [congruence|]. right. eauto.
Qed.

End EnumMap.

Lemma init_enum_state self vs :
  enum self = Some vs -> nonempty vs = true ->
  ensures init self
    (fun _ self' _ =>
       _enum_map self' =
       Some (fold_left
               (fun m v => dict_set String.eqb m (normalise_for self v) v)
               vs []) /\
       enum self' = Some vs /\
       _suggestion_map self' = _suggestion_map self /\
       callback self' = callback self).
Proof.
  intros He Hn. unfold init, parse_key.
  cbv beta iota delta [ensures bind get_self get_state].
  rewrite He, Hn.
  run_method; simpl; auto.
Qed.

(** X19. After [init], the enumeration test of a value that is not the
    normalised form of any allowed value fails with one report to the callback of the
    rule, and never with a [KeyError]: the suggested value is an allowed value, as the
    enumeration spells it, whose normalised form is nearest to the value
    and at most half the length of the value away; there is no suggestion
    exactly when every allowed value is farther away than that. *)
Theorem enumeration_error_suggests_allowed_value (self : t)
    (vs : list string) :
  enum self = Some vs -> nonempty vs = true -> _suggestion_map self = [] ->
  ensures init self
    (fun _ self' _ =>
       forall value r c raw,
         (forall v, In v vs -> normalise_for self v <> value) ->
         exists sv,
           _test_enumeration value r c raw self'
           = Ret (false, self',
                  match callback self with
                  | Some cb =>
                      [(cb,
                        {| message :=
                             if List.length vs <=? 7
                             then ("Must be one of " ++ str_list vs)%string
                             else "Not in allowed values";
                           value := Some raw; row := r; column := c;
                           suggested_value := sv |})]
                  | None => []
                  end) /\
           match sv with
           | Some v =>
               In v vs /\
               2 * get_edit_distance value (normalise_for self v)
               <= len value /\
               forall v', In v' vs ->
                 get_edit_distance value (normalise_for self v)
                 <= get_edit_distance value (normalise_for self v')
           | None =>
               forall v, In v vs ->
                 len value
                 < 2 * get_edit_distance value (normalise_for self v)
           end).
Proof.
  intros He Hn Hs.
  eapply ensures_weaken; [apply (init_enum_state self vs He Hn)|].
  intros ? self' ? (Hm & He' & Hs' & Hc) value r c raw Hout.
  set (f := normalise_for self) in *.
  set (m := fold_left (fun m v => dict_set String.eqb m (f v) v) vs []) in *.
  assert (Hkeys : forall k, In k (map fst m) <-> exists v, In v vs /\ f v = k).
  { intros k. rewrite <- SchemaRuleFacts.dict_mem_in. unfold m. rewrite filed_mem.
    split; [intros [H|H]; [discriminate | exact H] | auto]. }
  assert (Hmem : dict_mem String.eqb m value = false).
  { apply not_true_iff_false. rewrite SchemaRuleFacts.dict_mem_in, Hkeys.
    intros (v & Hv & Hf). exact (Hout v Hv Hf). }
  cbv beta iota zeta delta [_test_enumeration bind get_self get_state].
  rewrite Hm, Hmem, Hs', Hs. cbn [negb dict_get].
  destruct (find_closest_match value (map fst m)) as [sv|] eqn:Hfind.
  - apply MatcherFacts.find_closest_match_some in Hfind
      as (Hin & Hcut & Hbest).
    assert (Ht : truthy sv = true).
    { unfold truthy. apply negb_true_iff, String.eqb_neq. intros ->.
      rewrite SchemaRuleFacts.get_edit_distance_empty in Hcut.
      assert (value = "") by (apply SchemaRuleFacts.len_zero; lia). subst value.
      apply SchemaRuleFacts.dict_mem_in in Hin. congruence. }
    rewrite Ht.
    destruct (dict_get String.eqb m sv) as [original|] eqn:Hget.
    + exists (Some original).
      cbv beta iota delta [or_raise ret _report_error]. rewrite He', Hc.
      split; [reflexivity|].
      apply filed_get in Hget as [Hget|[Hv Hf]]; [discriminate|].
      fold f. rewrite Hf. split; [exact Hv|]. split; [exact Hcut|].
      intros v' Hv'.
      assert (Hin' : In (f v') (map fst m)) by (apply Hkeys; eauto).
      destruct (Nat.le_gt_cases (2 * get_edit_distance value (f v'))
                  (len value)) as [Hle|Hgt].
      * apply (Hbest _ Hin' Hle).
      * lia.
    + exfalso. apply SchemaRuleFacts.dict_mem_in in Hin. unfold dict_mem in Hin.
      rewrite Hget in Hin. discriminate.
  - exists None.
    cbv beta iota delta [or_raise ret _report_error]. rewrite He', Hc.
    split; [reflexivity|].
    intros v Hv.
    apply (proj1 (MatcherFacts.find_closest_match_none _ _) Hfind).
    apply Hkeys. eauto.
Qed.

End WithLib.

Lemma enumeration_error_suggests_allowed_value_witness :
  ensures (SchemaRule.init (L := Plain.lib))
    (SchemaRule.set_callback (L := Plain.lib) (Some 1) Examples.enum_rule)
    (fun _ self' _ =>
       SchemaRule._test_enumeration (L := Plain.lib) "yess" None None "Yess"
         self'
       = Ret (false, self',
              [(1, {| message := "Must be one of ['Yes', 'No']";
                      value := Some "Yess"; row := None; column := None;
                      suggested_value := Some "Yes" |})])).
Proof.
  eapply ensures_weaken.
  - apply (@enumeration_error_suggests_allowed_value Plain.lib
             (SchemaRule.set_callback (L := Plain.lib) (Some 1)
                Examples.enum_rule)
             ["Yes"; "No"]); reflexivity.
  - intros u self' evs H.
    destruct (H "yess" None None "Yess") as (sv & Hrun & Hsv).
    + intros v [<-|[<-|[]]]; vm_compute; discriminate.
    + rewrite Hrun. destruct sv as [v|].
      * destruct Hsv as ([<-|[<-|[]]] & Hcut & _).
        -- reflexivity.
        -- vm_compute in Hcut. lia.
      * specialize (Hsv "Yes" (or_introl eq_refl)).
        vm_compute in Hsv. lia.
Defined.

End EnumerationExtras.


(** * More on the deferred checks *)

Module FinishExtras.
Section WithLib.
Context {L : Lib}.
Import SchemaRule Tallies.

(** ** Sorting with the most entries first *)

Section SortFacts.
Context {A : Type} (leb : A -> A -> bool) (g : A -> nat).
Hypothesis leb_true : forall x y, leb x y = true -> g y <= g x.
Hypothesis leb_false : forall x y, leb x y = false -> g x <= g y.

Lemma insert_sorted_sum x l :
  list_sum (map g (insert_sorted leb x l)) = g x + list_sum (map g l).
Proof.
  induction l as [|y l IH]; simpl; [reflexivity|].
  destruct (leb x y); simpl; [reflexivity|]. rewrite IH. lia.
Qed.

Lemma sorted_sum l : list_sum (map g (sorted leb l)) = list_sum (map g l).
Proof.
  induction l as [|x l IH]; simpl; [reflexivity|].
  rewrite insert_sorted_sum, IH. reflexivity.
Qed.

Lemma insert_sorted_length x l :
  List.length (insert_sorted leb x l) = S (List.length l).
Proof.
  induction l as [|y l IH]; simpl; [reflexivity|].
  destruct (leb x y); simpl; [reflexivity|]. rewrite IH. reflexivity.
Qed.

Lemma sorted_length l : List.length (sorted leb l) = List.length l.
Proof.
  induction l as [|x l IH]; simpl; [reflexivity|].
  rewrite insert_sorted_length, IH. reflexivity.
Qed.

Lemma sorted_head l :
  match sorted leb l with
  | [] => l = []
  | h :: _ => g h = list_max (map g l)
  end.
Proof.
  induction l as [|x l IH]; simpl; [reflexivity|].
  destruct (sorted leb l) as [|h t]; simpl.
  - subst l. simpl. lia.
  - destruct (leb x h) eqn:E.
    + apply leb_true in E. lia.
    + apply leb_false in E. lia.
Qed.

Lemma sorted_tail_sum l :
  list_sum (map g (tl (sorted leb l)))
  = list_sum (map g l) - list_max (map g l).
Proof.
  pose proof (sorted_head l) as Hh. pose proof (sorted_sum l) as Hs.
  destruct (sorted leb l) as [|h t]; simpl in *.
  - subst l. reflexivity.
  - lia.
Qed.

End SortFacts.

Lemma dict_total_sum {K V} (size : V -> nat) (d : dict K V) :
  dict_total size d = list_sum (map (fun kv => size (snd kv)) d).
Proof. induction d as [|kv d IH]; simpl; [reflexivity | now rewrite IH]. Qed.

Lemma minority_tail {K A} (leb : K * list A -> K * list A -> bool)
    (d : dict K (list A)) :
  (forall x y, leb x y = true ->
     List.length (snd y) <= List.length (snd x)) ->
  (forall x y, leb x y = false ->
     List.length (snd x) <= List.length (snd y)) ->
  list_sum (map (fun e => List.length (snd e)) (tl (sorted leb d)))
  = minority d.
Proof.
  intros Ht Hf. unfold minority. rewrite dict_total_sum.
  apply (sorted_tail_sum leb (fun e => List.length (snd e)) Ht Hf).
Qed.

(** ** Runs that only report *)

Lemma bind_run {S W A B} (m : exec S W A) (f : A -> exec S W B)
    s a s1 e1 b s2 e2 :
  m s = Ret (a, s1, e1) -> f a s1 = Ret (b, s2, e2) ->
  bind m f s = Ret (b, s2, e1 ++ e2).
Proof. intros Hm Hf. unfold bind. rewrite Hm, Hf. reflexivity. Qed.

Lemma _report_error_run msg v r c sv self :
  exists evs,
    _report_error msg v r c sv self = Ret (false, self, evs) /\
    List.length evs = calls self.
Proof.
  unfold _report_error, calls. destruct (callback self); eauto.
Qed.

Lemma for_each_count {A} (body : unit -> A -> M unit) (g : A -> nat) self :
  (forall x, exists evs,
     body tt x self = Ret (tt, self, evs) /\ List.length evs = g x) ->
  forall l, exists evs,
    for_each l body tt self = Ret (tt, self, evs) /\
    List.length evs = list_sum (map g l).
Proof.
  intros Hbody. induction l as [|x l IH]; simpl.
  - exists []. split; reflexivity.
  - destruct (Hbody x) as (e1 & H1 & L1), IH as (e2 & H2 & L2).
    exists (e1 ++ e2). split; [exact (bind_run _ _ _ _ _ _ _ _ _ H1 H2)|].
    rewrite length_app. lia.
Qed.

Lemma report_inconsistent_run expected td self :
  exists evs,
    report_inconsistent expected td self = Ret (tt, self, evs) /\
    List.length evs = calls self * List.length (snd td).
Proof.
  unfold report_inconsistent.
  destruct (for_each_count
              (fun _ entry =>
                 let '(r, col, v) := entry in
                 _report_error
                   ("inconsistent datatype " ++ fst td
                    ++ " (expected " ++ expected ++ ")")%string
                   (Some v) (Some r) (Some col) None ;;;
                 ret tt)
              (fun _ => calls self) self) with (l := snd td)
    as (evs & Hrun & Hlen).
  - intros [[r col] v].
    destruct (_report_error_run
                ("inconsistent datatype " ++ fst td
                 ++ " (expected " ++ expected ++ ")")%string
                (Some v) (Some r) (Some col) None self) as (e & He & Hl).
    exists (e ++ []). split; [|rewrite app_nil_r; exact Hl].
    exact (bind_run _ _ _ _ _ _ _ _ _ He eq_refl).
  - exists evs. split; [exact Hrun|]. rewrite Hlen.
    clear. induction (snd td); simpl; lia.
Qed.

Lemma by_entries_desc_true x y :
  by_entries_desc x y = true -> List.length (snd y) <= List.length (snd x).
Proof. unfold by_entries_desc. apply Nat.leb_le. Qed.

Lemma by_entries_desc_false x y :
  by_entries_desc x y = false -> List.length (snd x) <= List.length (snd y).
Proof. unfold by_entries_desc. intros H. apply Nat.leb_gt in H. lia. Qed.

Lemma consistency_loop self : forall m acc,
  exists evs,
    for_each m
      (fun result item =>
         let '(hashtag, by_type) := item in
         match sorted by_entries_desc by_type with
         | top :: ((_ :: _) as others) =>
             for_each others
               (fun _ type_data => report_inconsistent (fst top) type_data)
               tt ;;;
             ret false
         | _ => ret result
         end)
      acc self
    = Ret (acc && negb (mixed_datatypes m), self, evs) /\
    List.length evs
    = calls self * list_sum (map (fun item => minority (snd item)) m).
Proof.
  induction m as [|[hashtag by_type] m IH]; intros acc; simpl.
  - exists []. rewrite andb_true_r, Nat.mul_0_r. split; reflexivity.
  - pose proof (minority_tail by_entries_desc by_type
                  by_entries_desc_true by_entries_desc_false) as Hmin.
    pose proof (sorted_length by_entries_desc by_type) as Hlen.
    destruct (sorted by_entries_desc by_type) as [|top [|other others]]
      eqn:Hsorted; simpl in Hmin, Hlen.
    + destruct (IH acc) as (evs & Hrun & Hl).
      exists ([] ++ evs). split.
      * rewrite <- Hlen. simpl.
        exact (bind_run _ _ _ _ _ _ _ _ _ eq_refl Hrun).
      * simpl. rewrite Hl, <- Hmin. reflexivity.
    + destruct (IH acc) as (evs & Hrun & Hl).
      exists ([] ++ evs). split.
      * rewrite <- Hlen. simpl.
        exact (bind_run _ _ _ _ _ _ _ _ _ eq_refl Hrun).
      * simpl. rewrite Hl, <- Hmin. reflexivity.
    + destruct (for_each_count
                  (fun _ type_data => report_inconsistent (fst top) type_data)
                  (fun td => calls self * List.length (snd td)) self
                  (fun td => report_inconsistent_run (fst top) td self)
                  (other :: others)) as (e1 & H1 & L1).
      destruct (IH false) as (evs & Hrun & Hl).
      exists ((e1 ++ []) ++ evs). split.
      * rewrite <- Hlen. simpl (1 <? _). rewrite andb_false_r. 
        apply (bind_run _ _ _ _ _ _ _ _ _
                 (bind_run _ _ _ _ _ _ _ _ _ H1 eq_refl) Hrun).
      * rewrite app_nil_r, length_app, L1, Hl, <- Hmin.
        clear. simpl.
        induction others as [|o others IHo]; simpl in *; lia.
Qed.

(** X20. [_finish_consistency] never raises and leaves the rule as it is.
    It returns [None] on an empty map; otherwise it returns false exactly
    when some hashtag holds values of more than one datatype.  With a
    callback, it reports once each value that is not of the most common
    datatype of its hashtag, and nothing else. *)
Theorem _finish_consistency_result (self : t) :
  exists evs,
    _finish_consistency self
    = Ret (if nonempty (_consistency_map self)
           then Some (negb (mixed_datatypes (_consistency_map self)))
           else None,
           self, evs) /\
    List.length evs
    = match callback self with
      | Some _ =>
          list_sum
            (map (fun item => minority (snd item)) (_consistency_map self))
      | None => 0
      end.
Proof.
  unfold _finish_consistency.
  destruct (consistency_loop self (_consistency_map self) true)
    as (evs & Hrun & Hlen).
  destruct (_consistency_map self) as [|item m] eqn:Hm.
  - exists []. split.
    + cbv beta iota zeta delta [bind get_self get_state]. rewrite Hm.
      reflexivity.
    + destruct (callback self); reflexivity.
  - exists ([] ++ evs ++ []). split.
    + eapply bind_run; [reflexivity|]. cbv zeta. rewrite Hm.
      cbn [nonempty negb].
      eapply bind_run; [exact Hrun | reflexivity].
    + rewrite app_nil_r. cbn [app]. rewrite Hlen. unfold calls.
      destruct (callback self); lia.
Qed.


(** ** [_finish_correlations] *)

Lemma insert_sorted_In {A} (leb : A -> A -> bool) x y l :
  In y (insert_sorted leb x l) -> y = x \/ In y l.
Proof.
  induction l as [|z l IH]; simpl.
  - intros [<-|[]]. auto.
  - destruct (leb x z); simpl; intros [H|H]; auto.
    destruct (IH H); auto.
Qed.

Lemma sorted_In {A} (leb : A -> A -> bool) y l :
  In y (sorted leb l) -> In y l.
Proof.
  induction l as [|x l IH]; simpl; [auto|].
  intros H. apply insert_sorted_In in H as [->|H]; auto.
Qed.

Lemma tl_In {A} (y : A) l : In y (tl l) -> In y l.
Proof. destruct l; simpl; auto. Qed.

Lemma list_sum_scale {A} (c : nat) (f : A -> nat) l :
  list_sum (map (fun x => c * f x) l) = c * list_sum (map f l).
Proof. induction l as [|x l IH]; simpl; [lia | rewrite IH; lia]. Qed.

Lemma list_sum_const {A} (c : nat) (l : list A) :
  list_sum (map (fun _ => c) l) = c * List.length l.
Proof. induction l as [|x l IH]; simpl; [lia | rewrite IH; lia]. Qed.

Lemma for_each_count_in {A} (body : unit -> A -> M unit) (g : A -> nat)
    self : forall l,
  (forall x, In x l -> exists evs,
     body tt x self = Ret (tt, self, evs) /\ List.length evs = g x) ->
  exists evs,
    for_each l body tt self = Ret (tt, self, evs) /\
    List.length evs = list_sum (map g l).
Proof.
  induction l as [|x l IH]; intros Hbody; simpl.
  - exists []. split; reflexivity.
  - destruct (Hbody x (or_introl eq_refl)) as (e1 & H1 & L1).
    destruct (IH (fun y Hy => Hbody y (or_intror Hy))) as (e2 & H2 & L2).
    exists (e1 ++ e2). split; [exact (bind_run _ _ _ _ _ _ _ _ _ H1 H2)|].
    rewrite length_app. lia.
Qed.

Lemma for_each_tally {A} (body : bool -> A -> M bool) (bad : A -> bool)
    (g : A -> nat) self : forall l,
  (forall acc x, In x l -> exists evs,
     body acc x self = Ret (acc && negb (bad x), self, evs) /\
     List.length evs = g x) ->
  forall acc, exists evs,
    for_each l body acc self
    = Ret (acc && negb (existsb bad l), self, evs) /\
    List.length evs = list_sum (map g l).
Proof.
  induction l as [|x l IH]; intros Hbody acc; simpl.
  - exists []. rewrite andb_true_r. split; reflexivity.
  - destruct (Hbody acc x (or_introl eq_refl)) as (e1 & H1 & L1).
    destruct (IH (fun a y Hy => Hbody a y (or_intror Hy))
                (acc && negb (bad x))) as (e2 & H2 & L2).
    exists (e1 ++ e2). split.
    + rewrite negb_orb, andb_assoc.
      exact (bind_run _ _ _ _ _ _ _ _ _ H1 H2).
    + rewrite length_app. lia.
Qed.

(** *** Dictionaries keyed by row keys *)

Lemma dict_mem_update_keep {K V} (eqb : K -> K -> bool) (d : dict K V)
    k default f k' :
  dict_mem eqb d k' = true ->
  dict_mem eqb (dict_update eqb d k default f) k' = true.
Proof.
  unfold dict_mem. induction d as [|[k0 v0] d IH]; simpl; [discriminate|].
  destruct (eqb k k0); simpl; destruct (eqb k' k0); auto.
Qed.

Lemma dict_mem_update_self {K V} (eqb : K -> K -> bool) (d : dict K V)
    k default f :
  eqb k k = true -> dict_mem eqb (dict_update eqb d k default f) k = true.
Proof.
  intros Hrefl. unfold dict_mem.
  induction d as [|[k0 v0] d IH]; simpl; [now rewrite Hrefl|].
  destruct (eqb k k0) eqn:E; simpl; rewrite E; auto.
Qed.

Lemma dict_mem_keys {K V V'} (eqb : K -> K -> bool) :
  forall (d : dict K V) (d' : dict K V'),
    map fst d = map fst d' ->
    forall k, dict_mem eqb d k = dict_mem eqb d' k.
Proof.
  unfold dict_mem.
  induction d as [|[k0 v0] d IH]; intros [|[k1 v1] d'] H k; simpl in *;
    try discriminate; [reflexivity|].
  injection H as <- H. destruct (eqb k k0); [reflexivity|].
  apply (IH d' H).
Qed.

Lemma dict_update_nonempty {K V} (eqb : K -> K -> bool) (d : dict K V)
    k default f :
  dict_update eqb d k default f <> [].
Proof. destruct d as [|[k0 v0] d]; simpl; [|destruct (eqb k k0)]; discriminate. Qed.

Lemma dict_update_Forall {K V} (eqb : K -> K -> bool) (P : V -> Prop)
    (d : dict K V) k default f :
  (forall v, P (f v)) ->
  Forall (fun kv => P (snd kv)) d ->
  Forall (fun kv => P (snd kv)) (dict_update eqb d k default f).
Proof.
  intros Hf. induction 1 as [|[k0 v0] d H0 Hd IH]; simpl.
  - repeat constructor. apply Hf.
  - destruct (eqb k k0); constructor; auto. apply Hf.
Qed.

(** *** The expected values *)

Lemma count_keys_step v : forall (keys : dict Key (list location)) counts,
  let counts' :=
    fold_left
      (fun counts entry =>
         let '(key, locations) := entry in
         dict_update key_eqb counts key []
           (fun by_val =>
              dict_update String.eqb by_val v 0
                (fun n => n + List.length locations)))
      keys counts in
  (forall key, dict_mem key_eqb counts key = true ->
     dict_mem key_eqb counts' key = true) /\
  (forall key locs, In (key, locs) keys ->
     dict_mem key_eqb counts' key = true) /\
  (Forall (fun kv => snd kv <> []) counts ->
   Forall (fun kv => snd kv <> []) counts').
Proof.
  induction keys as [|[key locs] keys IH]; intros counts; simpl.
  - repeat split; auto; contradiction.
  - destruct (IH (dict_update key_eqb counts key []
                    (fun by_val =>
                       dict_update String.eqb by_val v 0
                         (fun n => n + List.length locs))))
      as (Hkeep & Hnew & Hne).
    repeat split.
    + intros key' H. apply Hkeep, dict_mem_update_keep, H.
    + intros key' locs' [[= <- <-]|H]; [|eauto].
      apply Hkeep, dict_mem_update_self, ExampleFacts.key_eqb_refl.
    + intros H. apply Hne.
      apply (dict_update_Forall key_eqb (fun vals => vals <> [])); [|exact H].
      intros vals. apply dict_update_nonempty.
Qed.

Lemma count_values_fold : forall by_value counts,
  let counts' :=
    fold_left
      (fun counts item =>
         let '(v, keys) := item in
         fold_left
           (fun counts entry =>
              let '(key, locations) := entry in
              dict_update key_eqb counts key []
                (fun by_val =>
                   dict_update String.eqb by_val v 0
                     (fun n => n + List.length locations)))
           keys counts)
      by_value counts in
  (forall key, dict_mem key_eqb counts key = true ->
     dict_mem key_eqb counts' key = true) /\
  covers by_value counts' /\
  (Forall (fun kv => snd kv <> []) counts ->
   Forall (fun kv => snd kv <> []) counts').
Proof.
  induction by_value as [|[v keys] by_value IH]; intros counts; simpl.
  - repeat split; auto. intros v keys key locs [].
  - destruct (count_keys_step v keys counts) as (Hkeep1 & Hnew1 & Hne1).
    cbv zeta in Hkeep1, Hnew1, Hne1.
    match goal with
    | |- context [fold_left _ by_value ?c] =>
        destruct (IH c) as (Hkeep & Hcov & Hne)
    end.
    cbv zeta in Hkeep, Hcov, Hne.
    repeat split.
    + intros key H. apply Hkeep, Hkeep1, H.
    + intros v' keys' key locs [[= <- <-]|Hin] Hk.
      * apply Hkeep. apply (Hnew1 key locs Hk).
      * apply (Hcov v' keys' key locs Hin Hk).
    + intros H. apply Hne, Hne1, H.
Qed.

Lemma count_values_spec by_value :
  covers by_value (count_values by_value) /\
  Forall (fun kv => snd kv <> []) (count_values by_value).
Proof.
  destruct (count_values_fold by_value []) as (_ & Hcov & Hne).
  split; [exact Hcov | apply Hne; constructor].
Qed.

Lemma top_values_run self : forall counts,
  Forall (fun kv => snd kv <> []) counts ->
  exists tops,
    top_values counts self = Ret (tops, self, []) /\
    map fst tops = map fst counts.
Proof.
  induction counts as [|[key vals] counts IH]; intros H; simpl.
  - exists []. split; reflexivity.
  - inversion H as [|? ? Hvals Hrest]; subst. simpl in Hvals.
    pose proof (sorted_length by_count_desc vals) as Hlen.
    destruct (sorted by_count_desc vals) as [|[top n] rest].
    + destruct vals; [congruence | discriminate].
    + destruct (IH Hrest) as (tops & Hrun & Hkeys).
      exists ((key, top) :: tops). split.
      * exact (bind_run _ _ _ _ _ _ _ _ _ Hrun eq_refl).
      * simpl. rewrite Hkeys. reflexivity.
Qed.

Lemma covers_nonempty {V} by_value (by_key : dict Key V) :
  existsb (fun entry => nonempty (snd entry)) by_value = true ->
  covers by_value by_key -> by_key <> [].
Proof.
  intros Hpop Hcov ->. apply existsb_exists in Hpop as ([v keys] & Hin & Hne).
  destruct keys as [|[key locs] keys]; [discriminate|].
  specialize (Hcov v _ key locs Hin (or_introl eq_refl)). discriminate.
Qed.

Lemma distinct_NoDup l : distinct l = true -> NoDup l.
Proof.
  induction l as [|x l IH]; simpl; [constructor|].
  intros H. apply andb_true_iff in H as [Hx Hl]. constructor; [|auto].
  intros Hin. apply negb_true_iff in Hx.
  assert (existsb (String.eqb x) l = true); [|congruence].
  apply existsb_exists. exists x. split; [exact Hin | apply String.eqb_refl].
Qed.

Lemma expected_step self hashtag by_value expected :
  existsb (fun entry => nonempty (snd entry)) by_value = true ->
  exists tops,
    match count_values by_value with
    | [] => raise KeyError
    | counts =>
        tops <- top_values counts ;;
        ret (dict_set String.eqb expected hashtag tops)
    end self
    = Ret (dict_set String.eqb expected hashtag tops, self, []) /\
    covers by_value tops.
Proof.
  intros Hpop. destruct (count_values_spec by_value) as (Hcov & Hne).
  pose proof (covers_nonempty _ _ Hpop Hcov) as Hnon.
  destruct (top_values_run self _ Hne) as (tops & Hrun & Hkeys).
  exists tops. split.
  - destruct (count_values by_value) as [|c counts]; [congruence|].
    exact (bind_run _ _ _ _ _ _ _ _ _ Hrun eq_refl).
  - intros v keys key locs Hin Hk.
    rewrite (dict_mem_keys key_eqb tops (count_values by_value) Hkeys).
    exact (Hcov v keys key locs Hin Hk).
Qed.

Lemma expected_values_run self : forall rest seen expected,
  NoDup (map fst (seen ++ rest)) ->
  forallb
    (fun item => existsb (fun entry => nonempty (snd entry)) (snd item))
    rest = true ->
  (forall hashtag by_value, In (hashtag, by_value) seen ->
     exists by_key : dict Key string,
       dict_get String.eqb expected hashtag = Some by_key /\
       covers by_value by_key) ->
  exists expected',
    for_each rest
      (fun expected item =>
         let '(hashtag, by_value) := item in
         match count_values by_value with
         | [] => raise KeyError
         | counts =>
             tops <- top_values counts ;;
             ret (dict_set String.eqb expected hashtag tops)
         end)
      expected self
    = Ret (expected', self, []) /\
    forall hashtag by_value, In (hashtag, by_value) (seen ++ rest) ->
      exists by_key : dict Key string,
        dict_get String.eqb expected' hashtag = Some by_key /\
        covers by_value by_key.
Proof.
  induction rest as [|[hashtag by_value] rest IH];
    intros seen expected Hnd Hpop Hinv; simpl.
  - exists expected. rewrite app_nil_r. split; [reflexivity | exact Hinv].
  - simpl in Hpop. apply andb_true_iff in Hpop as [Hpop Hrest].
    destruct (expected_step self hashtag by_value expected Hpop)
      as (tops & Hstep & Hcov).
    destruct (IH (seen ++ [(hashtag, by_value)])
                (dict_set String.eqb expected hashtag tops))
      as (expected' & Hrun & Hinv').
    + rewrite <- app_assoc. exact Hnd.
    + exact Hrest.
    + intros h bv Hin. apply in_app_or in Hin as [Hin|[[= <- <-]|[]]].
      * destruct (Hinv h bv Hin) as (by_key & Hget & Hc).
        exists by_key. split; [|exact Hc].
        rewrite RuleExtras.dict_get_set_other; [exact Hget|].
        intros ->. rewrite map_app in Hnd. simpl in Hnd.
        apply NoDup_remove_2 in Hnd. apply Hnd, in_or_app. left.
        apply (in_map fst _ _ Hin).
      * exists tops. split; [apply RuleExtras.dict_get_set_same | exact Hcov].
    + exists expected'. split.
      * exact (bind_run _ _ _ _ _ _ _ _ _ Hstep Hrun).
      * rewrite <- app_assoc in Hinv'. exact Hinv'.
Qed.

(** *** The reports *)

Lemma related_columns_run self spec :
  correlation_key self = Some spec ->
  exists s, related_columns self self = Ret (s, self, []).
Proof.
  intros H. unfold related_columns. rewrite H.
  destruct spec; eexists; reflexivity.
Qed.

Lemma report_locations_run self spec v sv locations :
  correlation_key self = Some spec ->
  exists evs,
    report_locations v sv locations self = Ret (tt, self, evs) /\
    List.length evs = calls self * List.length locations.
Proof.
  intros Hk. unfold report_locations.
  destruct (related_columns_run self spec Hk) as (related & Hrel).
  destruct (for_each_count_in
              (fun _ loc =>
                 let '(r, col) := loc in
                 self <- get_self ;;
                 related <- related_columns self ;;
                 _report_error
                   ("wrong value for related column(s) " ++ related)%string
                   (Some v) (Some r) (Some col) sv ;;;
                 ret tt)
              (fun _ => calls self) self locations) as (evs & Hrun & Hlen).
  - intros [r col] _.
    destruct (_report_error_run
                ("wrong value for related column(s) " ++ related)%string
                (Some v) (Some r) (Some col) sv self) as (e & He & Hl).
    exists ([] ++ [] ++ e ++ []). split.
    + eapply bind_run; [reflexivity|].
      eapply bind_run; [exact Hrel|].
      eapply bind_run; [exact He | reflexivity].
    + simpl. rewrite app_nil_r. exact Hl.
  - exists evs. split; [exact Hrun|]. rewrite Hlen. apply list_sum_const.
Qed.

Lemma report_deviations_run self spec expected hashtag v
    (by_key : dict Key string) key_locations :
  correlation_key self = Some spec ->
  dict_get String.eqb expected hashtag = Some by_key ->
  (forall key locs, In (key, locs) key_locations ->
     dict_mem key_eqb by_key key = true) ->
  exists evs,
    report_deviations expected hashtag v key_locations self
    = Ret (tt, self, evs) /\
    List.length evs
    = calls self
      * list_sum (map (fun e => List.length (snd e)) key_locations).
Proof.
  intros Hk Hget Hmem. unfold report_deviations.
  destruct (for_each_count_in
              (fun _ entry =>
                 let '(key, locations) := entry in
                 by_key <- or_raise (dict_get String.eqb expected hashtag)
                             KeyError ;;
                 top <- or_raise (dict_get key_eqb by_key key) KeyError ;;
                 let suggested_value :=
                   if String.eqb v top then None else Some top in
                 report_locations v suggested_value locations)
              (fun e => calls self * List.length (snd e)) self key_locations)
    as (evs & Hrun & Hlen).
  - intros [key locs] Hin. specialize (Hmem key locs Hin).
    unfold dict_mem in Hmem.
    destruct (dict_get key_eqb by_key key) as [top|] eqn:Htop;
      [|discriminate].
    destruct (report_locations_run self spec v
                (if String.eqb v top then None else Some top) locs Hk)
      as (e & He & Hl).
    exists ([] ++ [] ++ e). split; [|exact Hl].
    eapply bind_run; [rewrite Hget; reflexivity|].
    eapply bind_run; [rewrite Htop; reflexivity|].
    exact He.
  - exists evs. split; [exact Hrun|]. rewrite Hlen. apply list_sum_scale.
Qed.

Lemma sort_entries_desc_true (x y : Key * list location) :
  sort_entries_desc x y = true ->
  List.length (snd y) <= List.length (snd x).
Proof.
  unfold sort_entries_desc.
  destruct (Nat.compare_spec (List.length (snd y)) (List.length (snd x)));
    [lia | lia | discriminate].
Qed.

Lemma sort_entries_desc_false (x y : Key * list location) :
  sort_entries_desc x y = false ->
  List.length (snd x) <= List.length (snd y).
Proof.
  unfold sort_entries_desc.
  destruct (Nat.compare_spec (List.length (snd y)) (List.length (snd x)));
    [lia | discriminate | lia].
Qed.

Lemma minority_single {K A} (d : dict K (list A)) :
  List.length d <= 1 -> minority d = 0.
Proof.
  unfold minority. destruct d as [|[k l] [|e d]]; simpl; intros H; lia.
Qed.

Lemma correlation_values_run self spec expected hashtag
    (by_key : dict Key string) by_value :
  correlation_key self = Some spec ->
  dict_get String.eqb expected hashtag = Some by_key ->
  covers by_value by_key ->
  forall result, exists evs,
    for_each by_value
      (fun result entry =>
         let '(v, keys) := entry in
         if 1 <? List.length keys then
           let key_locations := sorted sort_entries_desc keys in
           report_deviations expected hashtag v (tl key_locations) ;;;
           ret false
         else ret result)
      result self
    = Ret (result
           && negb (existsb (fun entry => 1 <? List.length (snd entry))
                      by_value),
           self, evs) /\
    List.length evs
    = list_sum
        (map (fun entry => calls self * minority (snd entry)) by_value).
Proof.
  intros Hk Hget Hcov. apply for_each_tally.
  intros acc [v keys] Hin. simpl snd.
  destruct (1 <? List.length keys) eqn:E.
  - destruct (report_deviations_run self spec expected hashtag v by_key
                (tl (sorted sort_entries_desc keys)) Hk Hget)
      as (e & He & Hl).
    + intros key locs Hkl.
      apply tl_In, sorted_In in Hkl. exact (Hcov v keys key locs Hin Hkl).
    + exists (e ++ []). split.
      * rewrite andb_false_r. cbv zeta.
        exact (bind_run _ _ _ _ _ _ _ _ _ He eq_refl).
      * rewrite app_nil_r, Hl.
        rewrite (minority_tail sort_entries_desc keys
                   sort_entries_desc_true sort_entries_desc_false).
        reflexivity.
  - exists []. rewrite andb_true_r. split; [reflexivity|].
    apply Nat.ltb_ge in E. rewrite minority_single by exact E. simpl. lia.
Qed.

Lemma tally_scale c (m : dict string (dict string (dict Key (list location)))) :
  list_sum
    (map (fun item =>
            list_sum (map (fun entry => c * minority (snd entry)) (snd item)))
       m)
  = c * deviations m.
Proof.
  unfold deviations. induction m as [|item m IH]; simpl; [lia|].
  rewrite list_sum_scale, IH. lia.
Qed.

(** *** The map that [validate_row] builds *)

Lemma dict_update_keys {V} (d : dict string V) k default f k' :
  In k' (map fst (dict_update String.eqb d k default f)) ->
  k' = k \/ In k' (map fst d).
Proof.
  induction d as [|[k0 v0] d IH]; simpl.
  - intros [<-|[]]. auto.
  - destruct (String.eqb k k0); simpl; intros [H|H]; auto.
    destruct (IH H); auto.
Qed.

Lemma dict_update_NoDup {V} (d : dict string V) k default f :
  NoDup (map fst d) -> NoDup (map fst (dict_update String.eqb d k default f)).
Proof.
  induction d as [|[k0 v0] d IH]; simpl; intros H.
  - repeat constructor. intros [].
  - destruct (String.eqb k k0) eqn:E; simpl; [exact H|].
    inversion H as [|? ? Hnotin Hd]; subst. constructor; [|auto].
    intros Hin. apply dict_update_keys in Hin as [->|Hin]; [|auto].
    rewrite String.eqb_refl in E. discriminate.
Qed.

Lemma NoDup_distinct l : NoDup l -> distinct l = true.
Proof.
  induction 1 as [|x l Hx Hl IH]; simpl; [reflexivity|].
  rewrite IH, andb_true_r. apply negb_true_iff, not_true_iff_false.
  intros H. apply existsb_exists in H as (y & Hy & Heq).
  apply String.eqb_eq in Heq. subst. auto.
Qed.

Lemma dict_update_forallb {K V} (eqb : K -> K -> bool) (p : V -> bool)
    (d : dict K V) k default f :
  (forall v, p (f v) = true) ->
  forallb (fun kv => p (snd kv)) d = true ->
  forallb (fun kv => p (snd kv)) (dict_update eqb d k default f) = true.
Proof.
  intros Hf. induction d as [|[k0 v0] d IH]; simpl; intros H.
  - rewrite Hf. reflexivity.
  - apply andb_true_iff in H as [H0 Hd].
    destruct (eqb k k0); simpl.
    + rewrite Hf, Hd. reflexivity.
    + rewrite H0, IH by exact Hd. reflexivity.
Qed.

Lemma dict_update_existsb {K V} (eqb : K -> K -> bool) (q : V -> bool)
    (d : dict K V) k default f :
  (forall v, q (f v) = true) ->
  existsb (fun kv => q (snd kv)) (dict_update eqb d k default f) = true.
Proof.
  intros Hf. induction d as [|[k0 v0] d IH]; simpl.
  - rewrite Hf. reflexivity.
  - destruct (eqb k k0); simpl.
    + rewrite Hf. reflexivity.
    + rewrite IH. apply orb_true_r.
Qed.

Lemma record_correlation_tracked m hashtag v key loc :
  well_tracked m = true ->
  well_tracked (record_correlation m hashtag v key loc) = true.
Proof.
  unfold well_tracked, record_correlation. intros H.
  apply andb_true_iff in H as [Hd Hp]. apply andb_true_iff. split.
  - apply NoDup_distinct, dict_update_NoDup, distinct_NoDup, Hd.
  - apply (dict_update_forallb String.eqb
             (fun by_value =>
                existsb (fun entry => nonempty (snd entry)) by_value));
      [|exact Hp].
    intros by_value.
    apply (dict_update_existsb String.eqb (fun keys => nonempty keys)).
    intros keys.
    destruct (dict_update key_eqb keys key [] (fun locs => locs ++ [loc]))
      eqn:E; [|reflexivity].
    apply dict_update_nonempty in E. contradiction.
Qed.

Lemma track_correlation_tracked r pattern key : forall cs m,
  well_tracked m = true ->
  well_tracked (track_correlation r pattern key cs m) = true.
Proof.
  induction cs as [|[col v] cs IH]; intros m H; simpl; [exact H|].
  destruct (tp_match pattern col); [|auto].
  destruct (is_empty v); [auto|].
  apply record_correlation_tracked, H.
Qed.

(** X21. On a correlation map as [validate_row] builds it,
    [_finish_correlations] returns and leaves the rule as it is: the result
    is false exactly when some value was seen with more than one
    correlation key, and with a callback every location that is not under
    the most common key of its value is reported once.  The map stays of
    that kind when [validate_row] files a row in it. *)
Theorem _finish_correlations_result (self : t) (spec : key_spec) :
  correlation_key self = Some spec ->
  well_tracked (_correlation_map self) = true ->
  (exists evs,
     _finish_correlations self
     = Ret (negb (has_conflict (_correlation_map self)), self, evs) /\
     List.length evs
     = match callback self with
       | Some _ => deviations (_correlation_map self)
       | None => 0
       end) /\
  forall r pattern key cs,
    well_tracked
      (track_correlation r pattern key cs (_correlation_map self)) = true.
Proof.
  intros Hk Hwf. split;
    [|intros; apply track_correlation_tracked, Hwf].
  unfold _finish_correlations.
  destruct (_correlation_map self) as [|item m] eqn:Hm.
  - exists []. split.
    + cbv beta iota zeta delta [bind get_self get_state]. rewrite Hm.
      reflexivity.
    + destruct (callback self); reflexivity.
  - unfold well_tracked in Hwf. apply andb_true_iff in Hwf as [Hd Hp].
    destruct (expected_values_run self (item :: m) [] [])
      as (expected & Hexp & Hinv).
    + apply distinct_NoDup, Hd.
    + exact Hp.
    + intros hashtag by_value [].
    + simpl app in Hinv.
      destruct (for_each_tally
                  (fun result item =>
                     let '(hashtag, by_value) := item in
                     for_each by_value
                       (fun result entry =>
                          let '(v, keys) := entry in
                          if 1 <? List.length keys then
                            let key_locations :=
                              sorted sort_entries_desc keys in
                            report_deviations expected hashtag v
                              (tl key_locations) ;;;
                            ret false
                          else ret result)
                       result)
                  (fun item =>
                     existsb (fun entry => 1 <? List.length (snd entry))
                       (snd item))
                  (fun item =>
                     list_sum
                       (map (fun entry => calls self * minority (snd entry))
                          (snd item)))
                  self (item :: m)) with (acc := true)
        as (evs & Hrun & Hlen).
      * intros acc [hashtag by_value] Hin.
        destruct (Hinv hashtag by_value Hin) as (by_key & Hget & Hcov).
        apply (correlation_values_run self spec expected hashtag by_key
                 by_value Hk Hget Hcov).
      * exists ([] ++ [] ++ evs). split.
        -- eapply bind_run; [reflexivity|]. cbv zeta. rewrite Hm.
           cbn [nonempty].
           eapply bind_run; [exact Hexp | exact Hrun].
        -- cbn [app]. rewrite Hlen, tally_scale. unfold calls.
           destruct (callback self); lia.
Qed.

End WithLib.

Lemma _finish_correlations_result_witness :
  exists evs,
    SchemaRule._finish_correlations (L := Plain.lib)
      Examples.conflicting_rule
    = Ret (false, Examples.conflicting_rule, evs) /\
    List.length evs = 1.
Proof.
  destruct (proj1 (@_finish_correlations_result Plain.lib
                     Examples.conflicting_rule
                     (KeyPatterns ([Examples.hashtag "#adm1"] ++ []))
                     eq_refl eq_refl))
    as (evs & Hrun & Hlen).
  exists evs. split; [exact Hrun | exact Hlen].
Defined.

End FinishExtras.


(** * More on rows *)

Module RowExtras.
Section WithLib.
Context {L : Lib}.
Import SchemaRule Reports.

Ltac break_match :=
  match goal with
  | |- context [match ?x with _ => _ end] =>
      lazymatch x with
      | context [match _ with _ => _ end] => fail
      | _ => destruct x eqn:?
      end
  end.

Ltac run_method :=
  unfold ensures, bind, get_self, get_state, modify, or_raise, ret, raise,
    _report_error;
  repeat (break_match; try discriminate; try exact I);
  repeat match goal with
         | H : Ret _ = Ret _ |- _ => inversion H; subst; clear H
         end.

Ltac fired :=
  repeat split; auto; intros;
  repeat match goal with
         | H : Some _ = Some _ |- _ => injection H as <-
         end;
  try lia; try discriminate;
  try (match goal with
       | H : callback _ = Some _ |- _ => rewrite H
       end; left; reflexivity).

Ltac seq lemma :=
  apply ensures_bind; eapply ensures_weaken; [apply lemma | cbv beta].

(** ** What the tests on the values leave in place *)

Lemma set_unique_value_map_same (self : t) :
  set_unique_value_map (_unique_value_map self) self = self.
Proof. destruct self. reflexivity. Qed.

Lemma _check_init_done self :
  _initialised self = true ->
  ensures _check_init self (fun _ s evs => s = self /\ evs = []).
Proof.
  intros Hi. unfold ensures, _check_init, bind, get_self, get_state.
  rewrite Hi. simpl. auto.
Qed.

Lemma _test_unique_only v r c raw self :
  ensures (_test_unique v r c raw) self
    (fun _ s _ => exists m, s = set_unique_value_map m self).
Proof.
  unfold _test_unique. run_method;
    solve [ exists (_unique_value_map self);
            symmetry; apply set_unique_value_map_same
          | eexists; reflexivity ].
Qed.

Lemma validate_only raw r c self :
  _initialised self = true ->
  ensures (validate raw r c) self
    (fun _ s _ => exists m, s = set_unique_value_map m self).
Proof.
  intros Hi. unfold validate.
  seq (_check_init_done self Hi). intros ? s0 ? [-> _].
  destruct (is_empty raw).
  - apply ensures_ret. exists (_unique_value_map self).
    symmetry. apply set_unique_value_map_same.
  - apply ensures_bind, ensures_get_state. cbv zeta.
    seq SchemaRuleFacts._test_type_same. intros ? s1 ? ->.
    seq SchemaRuleFacts._test_range_same. intros ? s2 ? ->.
    seq SchemaRuleFacts._test_pattern_same. intros ? s3 ? ->.
    seq SchemaRuleFacts._test_enumeration_same. intros ? s4 ? ->.
    seq _test_unique_only. intros ? s5 ? H.
    apply ensures_ret. exact H.
Qed.

(** The loop over the matching values counts the values that are not the
    empty string. *)
Lemma validate_values_count r self :
  _initialised self = true ->
  forall vs n result number_seen s0,
    (exists m0, s0 = set_unique_value_map m0 self) ->
    ensures
      (for_each (enumerate_from n vs)
         (fun acc cv =>
            let '(result, number_seen) := acc in
            let '(column_number, v) := cv in
            col <- or_raise (nth_error (columns r) column_number) IndexError ;;
            ok <- validate v (Some r) (Some col) ;;
            ret (if negb ok then false else result,
                 if truthy v then number_seen + 1 else number_seen))
         (result, number_seen))
      s0
      (fun seen s _ =>
         snd seen = number_seen + List.length (filter truthy vs) /\
         exists m, s = set_unique_value_map m self).
Proof.
  intros Hi.
  induction vs as [|v vs IH]; intros n result number_seen s0 (m0 & ->).
  - apply ensures_ret. simpl. split; [lia | eauto].
  - cbn [enumerate_from for_each].
    apply ensures_bind. apply ensures_bind, ensures_or_raise. intros col _.
    seq (validate_only v (Some r) (Some col) (set_unique_value_map m0 self) Hi).
    intros ok s1 ? (m1 & ->).
    apply ensures_ret.
    eapply ensures_weaken; [apply IH; eexists; reflexivity|].
    intros seen s2 ? (Hn & m2 & ->). split; [|eauto].
    rewrite Hn. simpl. destruct (truthy v); simpl; lia.
Qed.

(** ** The checks on a row *)

Lemma check_required_post r n st self :
  ensures (check_required r n st) self
    (fun st' s evs =>
       s = self /\
       (fst st = false -> fst st' = false) /\
       (required self = true -> n < 1 ->
        fst st' = false /\
        reported self
          {| message := "A value for " ++ tp_str (tag_pattern self)
                        ++ " was required.";
             value := None; row := Some r;
             column := first_matching (tag_pattern self) (columns r);
             suggested_value := None |} evs)).
Proof.
  unfold check_required, reported. destruct st as [result column].
  cbv beta iota delta [ensures bind get_self get_state _report_error ret].
  destruct (required self) eqn:Hr; simpl.
  - destruct (n <? 1) eqn:E; simpl.
    + fired.
    + apply Nat.ltb_ge in E. fired.
  - fired.
Qed.

Lemma check_min_occur_post r k st self :
  ensures (check_min_occur r k st) self
    (fun st' s evs =>
       s = self /\
       (fst st = false -> fst st' = false) /\
       (forall n, min_occur self = Some n -> (Z.of_nat k < n)%Z ->
        fst st' = false /\
        reported self
          {| message := "Expected at least " ++ str_int n
                        ++ " instance(s) but found " ++ str_int (Z.of_nat k);
             value := None; row := Some r;
             column := last_matching (tag_pattern self) (columns r);
             suggested_value := None |} evs)).
Proof.
  unfold check_min_occur, reported. destruct st as [result column].
  cbv beta iota delta [ensures bind get_self get_state _report_error ret].
  destruct (min_occur self) as [n|] eqn:Hn; simpl.
  - destruct (Z.of_nat k <? n)%Z eqn:E; simpl.
    + fired.
    + apply Z.ltb_ge in E. fired.
  - fired.
Qed.

Lemma check_max_occur_post r k st self :
  ensures (check_max_occur r k st) self
    (fun st' s evs =>
       s = self /\
       (fst st = false -> fst st' = false) /\
       (forall n, max_occur self = Some n -> (n < Z.of_nat k)%Z ->
        fst st' = false /\
        reported self
          {| message := "Expected at most " ++ str_int n
                        ++ " instance(s) but found " ++ str_int (Z.of_nat k);
             value := None; row := Some r;
             column := last_matching (tag_pattern self) (columns r);
             suggested_value := None |} evs)).
Proof.
  unfold check_max_occur, reported. destruct st as [result column].
  cbv beta iota delta [ensures bind get_self get_state _report_error ret].
  destruct (max_occur self) as [n|] eqn:Hn; simpl.
  - destruct (n <? Z.of_nat k)%Z eqn:E; simpl.
    + fired.
    + apply Z.ltb_ge in E. fired.
  - fired.
Qed.

Lemma key_eqb_eq (k1 k2 : Key) : key_eqb k1 k2 = true <-> k1 = k2.
Proof.
  unfold key_eqb. destruct (list_eq_dec string_dec k1 k2);
    split; congruence.
Qed.

Lemma dict_get_set_key {V} (d : dict Key V) k v k' :
  dict_get key_eqb (dict_set key_eqb d k v) k'
  = if key_eqb k' k then Some v else dict_get key_eqb d k'.
Proof.
  induction d as [|[k0 v0] d IH]; simpl.
  - reflexivity.
  - destruct (key_eqb k k0) eqn:E; simpl.
    + apply key_eqb_eq in E. subst k0.
      destruct (key_eqb k' k); reflexivity.
    + destruct (key_eqb k' k0) eqn:E'.
      * apply key_eqb_eq in E'. subst k0.
        destruct (key_eqb k' k) eqn:E''; [|reflexivity].
        apply key_eqb_eq in E''. subst k'.
        assert (key_eqb k k = true) by (apply key_eqb_eq; reflexivity).
        congruence.
      * exact IH.
Qed.

Lemma check_unique_key_post r st self :
  ensures (check_unique_key r st) self
    (fun st' s evs =>
       (fst st = false -> fst st' = false) /\
       match unique_key self with
       | Some spec =>
           match dict_get key_eqb (_unique_key_map self) (row_key r spec) with
           | Some true =>
               s = self /\ fst st' = false /\
               reported self
                 {| message := "Duplicate row according to tag patterns "
                               ++ str_key_spec spec;
                    value := None; row := Some r; column := snd st;
                    suggested_value := None |} evs
           | _ =>
               s = set_unique_key_map
                     (dict_set key_eqb (_unique_key_map self)
                        (row_key r spec) true) self /\
               evs = []
           end
       | None => s = self
       end).
Proof.
  unfold check_unique_key, reported.
  destruct st as [result column].
  cbv beta iota delta [ensures bind get_self get_state _report_error ret
                         modify].
  destruct (unique_key self) as [spec|]; [|fired].
  destruct (dict_get key_eqb (_unique_key_map self) (row_key r spec))
    as [[|]|]; simpl; fired.
Qed.

Ltac project :=
  cbn [callback tag_pattern required min_occur max_occur unique_key
       _unique_key_map _initialised set_unique_value_map set_unique_key_map
       set_correlation_map set_consistency_map fst snd] in *.

Ltac found :=
  unfold reported in *; intros cb Hcb;
  repeat match goal with
         | H : forall cb, callback _ = Some cb -> _ |- _ =>
             specialize (H cb Hcb)
         end;
  rewrite ?in_app_iff; auto 12.

Lemma track_tail r (b : bool) (s : t) :
  ensures
    ((match correlation_key s with
      | Some spec =>
          modify (fun self =>
            set_correlation_map
              (track_correlation r (tag_pattern self) (row_key r spec)
                 (cells r) (_correlation_map self)) self)
      | None => ret tt
      end : M unit) ;;;
     (if consistent_datatypes s then
        modify (fun self =>
          set_consistency_map
            (track_datatypes r (tag_pattern self) (cells r)
               (_consistency_map self)) self)
      else ret tt : M unit) ;;;
     ret b) s
    (fun b' s' evs =>
       b' = b /\ evs = [] /\
       _initialised s' = _initialised s /\ unique_key s' = unique_key s /\
       _unique_key_map s' = _unique_key_map s).
Proof. run_method; simpl; auto. Qed.

Lemma validate_row_post r self :
  _initialised self = true ->
  ensures (validate_row r) self
    (fun b s' evs =>
       (required self = true ->
        List.length (filter truthy (get_all r (tag_pattern self))) < 1 ->
        b = false /\
        reported self
          {| message := "A value for " ++ tp_str (tag_pattern self)
                        ++ " was required.";
             value := None; row := Some r;
             column := first_matching (tag_pattern self) (columns r);
             suggested_value := None |} evs) /\
       (forall n, min_occur self = Some n ->
          (Z.of_nat (List.length
                       (filter truthy (get_all r (tag_pattern self)))) < n)%Z ->
          b = false /\
          reported self
            {| message :=
                 "Expected at least " ++ str_int n
                 ++ " instance(s) but found "
                 ++ str_int
                      (Z.of_nat
                         (List.length
                            (filter truthy (get_all r (tag_pattern self)))));
               value := None; row := Some r;
               column := last_matching (tag_pattern self) (columns r);
               suggested_value := None |} evs) /\
       (forall n, max_occur self = Some n ->
          (n < Z.of_nat (List.length
                           (filter truthy
                              (get_all r (tag_pattern self)))))%Z ->
          b = false /\
          reported self
            {| message :=
                 "Expected at most " ++ str_int n
                 ++ " instance(s) but found "
                 ++ str_int
                      (Z.of_nat
                         (List.length
                            (filter truthy (get_all r (tag_pattern self)))));
               value := None; row := Some r;
               column := last_matching (tag_pattern self) (columns r);
               suggested_value := None |} evs) /\
       (forall spec, unique_key self = Some spec ->
          _initialised s' = true /\ unique_key s' = Some spec /\
          match dict_get key_eqb (_unique_key_map self) (row_key r spec) with
          | Some true =>
              _unique_key_map s' = _unique_key_map self /\ b = false /\
              exists column,
                reported self
                  {| message := "Duplicate row according to tag patterns "
                                ++ str_key_spec spec;
                     value := None; row := Some r; column := column;
                     suggested_value := None |} evs
          | _ =>
              _unique_key_map s'
              = dict_set key_eqb (_unique_key_map self) (row_key r spec) true
          end)).
Proof.
  intros Hi. unfold validate_row.
  seq (_check_init_done self Hi). intros ? s0 e0 [-> ->].
  apply ensures_bind, ensures_get_state. cbv zeta.
  apply ensures_bind. eapply ensures_weaken.
  { apply (validate_values_count r self Hi _ 0 true 0 self).
    exists (_unique_value_map self). symmetry.
    apply set_unique_value_map_same. }
  intros [result number_seen] s1 e1 (Hn & m & ->). simpl in Hn. subst.
  cbv beta iota.
  seq check_required_post. intros st1 s2 e2 (-> & M1 & F1).
  seq check_min_occur_post. intros st2 s3 e3 (-> & M2 & F2).
  seq check_max_occur_post. intros st3 s4 e4 (-> & M3 & F3).
  seq check_unique_key_post. intros st4 s5 e5 (M4 & F4).
  project.
  apply ensures_bind, ensures_get_state.
  eapply ensures_weaken; [apply track_tail|].
  intros b s' evs (-> & -> & Ti & Tk & Tm).
  repeat split.
  - apply M4, M3, M2. apply F1; assumption.
  - destruct F1 as [_ F1]; try assumption. found.
  - apply M4, M3. apply (F2 n); assumption.
  - destruct (F2 n) as [_ F2']; try assumption. found.
  - apply M4. apply (F3 n); assumption.
  - destruct (F3 n) as [_ F3']; try assumption. found.
  - rewrite Ti. rewrite H in F4.
    destruct (dict_get key_eqb (_unique_key_map self) (row_key r spec))
      as [[|]|]; destruct F4 as [-> _]; exact Hi.
  - rewrite Tk. rewrite H in F4.
    destruct (dict_get key_eqb (_unique_key_map self) (row_key r spec))
      as [[|]|]; destruct F4 as [-> _]; exact H.
  - rewrite Tm. rewrite H in F4.
    destruct (dict_get key_eqb (_unique_key_map self) (row_key r spec))
      as [[|]|]; [destruct F4 as (-> & Hf & Hrep)|destruct F4 as [-> _]..];
      try reflexivity.
    split; [reflexivity|]. split; [exact Hf|].
    exists (snd st3). found.
Qed.

Lemma ensures_both {S W A} (m : exec S W A) s
    (P Q : A -> S -> list W -> Prop) :
  ensures m s P -> ensures m s Q ->
  ensures m s (fun a s' ws => P a s' ws /\ Q a s' ws).
Proof.
  unfold ensures. destruct (m s) as [[[a s'] ws]|e]; auto.
Qed.

(** X22. The occurrence checks of [validate_row] on an initialised rule
    count the matching values that are not the empty string.  If the rule
    is required and there is none, or there are fewer than [min_occur], or
    more than [max_occur], the row fails and the matching error is
    reported, for the first matching column in the first case and for the
    last one in the others. *)
Theorem validate_row_occurrences (r : Row) (self : t) :
  _initialised self = true ->
  ensures (validate_row r) self
    (fun b _ evs =>
       (required self = true ->
        List.length (filter truthy (get_all r (tag_pattern self))) < 1 ->
        b = false /\
        reported self
          {| message := "A value for " ++ tp_str (tag_pattern self)
                        ++ " was required.";
             value := None; row := Some r;
             column := first_matching (tag_pattern self) (columns r);
             suggested_value := None |} evs) /\
       (forall n, min_occur self = Some n ->
          (Z.of_nat (List.length
                       (filter truthy (get_all r (tag_pattern self)))) < n)%Z ->
          b = false /\
          reported self
            {| message :=
                 "Expected at least " ++ str_int n
                 ++ " instance(s) but found "
                 ++ str_int
                      (Z.of_nat
                         (List.length
                            (filter truthy (get_all r (tag_pattern self)))));
               value := None; row := Some r;
               column := last_matching (tag_pattern self) (columns r);
               suggested_value := None |} evs) /\
       (forall n, max_occur self = Some n ->
          (n < Z.of_nat (List.length
                           (filter truthy
                              (get_all r (tag_pattern self)))))%Z ->
          b = false /\
          reported self
            {| message :=
                 "Expected at most " ++ str_int n
                 ++ " instance(s) but found "
                 ++ str_int
                      (Z.of_nat
                         (List.length
                            (filter truthy (get_all r (tag_pattern self)))));
               value := None; row := Some r;
               column := last_matching (tag_pattern self) (columns r);
               suggested_value := None |} evs)).
Proof.
  intros Hi.
  eapply ensures_weaken; [apply (validate_row_post r self Hi)|].
  intros b s' evs (H1 & H2 & H3 & _). auto.
Qed.

(** X23. The unique-key check of [validate_row] on an initialised rule
    with a [unique_key]: the keys recorded so far stay recorded, and once a
    row has been validated, every later row with the same key fails and is
    reported as a duplicate. *)
Theorem unique_key_round_trip (r : Row) (self : t) (spec : key_spec) :
  _initialised self = true -> unique_key self = Some spec ->
  ensures (validate_row r) self
    (fun _ self' _ =>
       (forall k,
          dict_get key_eqb (_unique_key_map self) k = Some true ->
          dict_get key_eqb (_unique_key_map self') k = Some true) /\
       forall r2, row_key r2 spec = row_key r spec ->
         ensures (validate_row r2) self'
           (fun b _ evs =>
              b = false /\
              exists column,
                reported self
                  {| message := "Duplicate row according to tag patterns "
                                ++ str_key_spec spec;
                     value := None; row := Some r2; column := column;
                     suggested_value := None |} evs)).
Proof.
  intros Hi Hk.
  eapply ensures_weaken.
  { apply ensures_both;
      [apply (validate_row_post r self Hi)
      |apply (RuleExtras.validate_row_own r self)]. }
  cbv beta. intros ? self' ? ((_ & _ & _ & Hu) & Hcb & _).
  destruct (Hu spec Hk) as (Hi' & Hk' & Hmap).
  assert (Hrec : dict_get key_eqb (_unique_key_map self') (row_key r spec)
                 = Some true
                 /\ forall k,
                   dict_get key_eqb (_unique_key_map self) k = Some true ->
                   dict_get key_eqb (_unique_key_map self') k = Some true).
  { destruct (dict_get key_eqb (_unique_key_map self) (row_key r spec))
      as [[|]|] eqn:E.
    - destruct Hmap as (-> & _). auto.
    - rewrite Hmap. split.
      + rewrite dict_get_set_key.
        rewrite (proj2 (key_eqb_eq _ _) eq_refl). reflexivity.
      + intros k Hget. rewrite dict_get_set_key.
        destruct (key_eqb k (row_key r spec)); auto.
    - rewrite Hmap. split.
      + rewrite dict_get_set_key.
        rewrite (proj2 (key_eqb_eq _ _) eq_refl). reflexivity.
      + intros k Hget. rewrite dict_get_set_key.
        destruct (key_eqb k (row_key r spec)); auto. }
  destruct Hrec as [Hrec Hkeep]. split; [exact Hkeep|].
  intros r2 Hsame.
  eapply ensures_weaken; [apply (validate_row_post r2 self' Hi')|].
  cbv beta. intros b s2 evs (_ & _ & _ & Hu2).
  destruct (Hu2 spec Hk') as (_ & _ & Hdup).
  rewrite Hsame, Hrec in Hdup. destruct Hdup as (_ & Hb & column & Hrep).
  split; [exact Hb|]. exists column.
  unfold reported in *. rewrite <- Hcb. exact Hrep.
Qed.

End WithLib.

Lemma validate_row_occurrences_witness :
  ensures
    (SchemaRule.validate_row (L := Plain.lib) (Examples.affected_row 1 ""))
    Examples.required_rule
    (fun b _ evs =>
       b = false /\
       In (1, {| message := "A value for #affected was required.";
                 value := None;
                 row := Some (Examples.affected_row 1 "");
                 column := Some Examples.affected;
                 suggested_value := None |}) evs).
Proof.
  eapply ensures_weaken.
  - apply (@validate_row_occurrences Plain.lib
             (Examples.affected_row 1 "") Examples.required_rule).
    reflexivity.
  - intros b s evs (H & _).
    destruct H as [Hb Hrep]; [reflexivity | simpl; lia |].
    split; [exact Hb | apply (Hrep 1 eq_refl)].
Defined.

Lemma unique_key_round_trip_witness :
  ensures
    (SchemaRule.validate_row (L := Plain.lib) (Examples.affected_row 1 "7"))
    (SchemaRule.set_unique_key (L := Plain.lib)
       (Some (KeyPatterns [Examples.hashtag "#affected"]))
       Examples.ready_rule)
    (fun _ self' _ =>
       ensures
         (SchemaRule.validate_row (L := Plain.lib)
            (Examples.affected_row 2 "7"))
         self' (fun b _ _ => b = false)).
Proof.
  eapply ensures_weaken.
  - apply (@unique_key_round_trip Plain.lib (Examples.affected_row 1 "7")
             (SchemaRule.set_unique_key (L := Plain.lib)
                (Some (KeyPatterns [Examples.hashtag "#affected"]))
                Examples.ready_rule)
             (KeyPatterns [Examples.hashtag "#affected"]));
      reflexivity.
  - intros u self' evs [_ H].
    eapply ensures_weaken.
    + apply (H (Examples.affected_row 2 "7")). reflexivity.
    + intros b s2 evs2 [Hb _]. exact Hb.
Defined.

End RowExtras.


(** * A rule without constraints *)

Module BareExtras.
Section WithLib.
Context {L : Lib}.
Import SchemaRule Bare.

Lemma is_none_true {A} (x : option A) : is_none x = true -> x = None.
Proof. destruct x; [discriminate | reflexivity]. Qed.

Lemma unconstrained_fields self :
  unconstrained self = true ->
  min_occur self = None /\ max_occur self = None /\ data_type self = None /\
  min_value self = None /\ max_value self = None /\ regex self = None /\
  enum self = None /\ _enum_map self = None /\ required self = false /\
  unique self = false /\ unique_key self = None /\
  correlation_key self = None /\ consistent_datatypes self = false.
Proof.
  unfold unconstrained. intros H.
  repeat (apply andb_true_iff in H as [H ?]).
  repeat match goal with
         | H : is_none _ = true |- _ => apply is_none_true in H
         | H : negb _ = true |- _ => apply negb_true_iff in H
         end.
  repeat split; assumption.
Qed.

Lemma validate_bare raw r c self :
  unconstrained self = true -> _initialised self = true ->
  validate raw r c self = Ret (true, self, []).
Proof.
  intros Hu Hi.
  destruct (unconstrained_fields self Hu)
    as (_ & _ & Hdt & Hmin & Hmax & Hre & _ & Hem & _ & Hun & _).
  cbv beta iota zeta delta [validate _check_init bind get_self get_state].
  rewrite Hi. cbn [negb ret].
  destruct (is_empty raw); [reflexivity|].
  cbv beta iota zeta delta [_test_type _test_range _test_range_max
                              _test_pattern _test_enumeration _test_unique
                              bind get_self get_state].
  rewrite Hdt; cbv beta iota delta [ret].
  rewrite Hmin; cbv beta iota delta [ret].
  rewrite Hmax; cbv beta iota delta [ret].
  rewrite Hre; cbv beta iota delta [ret].
  rewrite Hem; cbv beta iota delta [ret].
  rewrite Hun. reflexivity.
Qed.

Lemma validate_values_bare r self :
  unconstrained self = true -> _initialised self = true ->
  forall vs n result number_seen,
    n + List.length vs <= List.length (columns r) ->
    for_each (enumerate_from n vs)
      (fun acc cv =>
         let '(result, number_seen) := acc in
         let '(column_number, v) := cv in
         col <- or_raise (nth_error (columns r) column_number) IndexError ;;
         ok <- validate v (Some r) (Some col) ;;
         ret (if negb ok then false else result,
              if truthy v then number_seen + 1 else number_seen))
      (result, number_seen) self
    = Ret ((result, number_seen + List.length (filter truthy vs)), self, []).
Proof.
  intros Hu Hi. induction vs as [|v vs IH]; intros n result number_seen Hn.
  - simpl. rewrite Nat.add_0_r. reflexivity.
  - cbn [enumerate_from for_each]. cbn [List.length] in Hn.
    destruct (nth_error (columns r) n) as [col|] eqn:Hcol.
    + rewrite (ExampleFacts.bind_silent _ _ self
                 (result, if truthy v then number_seen + 1 else number_seen)
                 self).
      * rewrite IH by lia. cbn [filter].
        destruct (truthy v); cbn [List.length];
          match goal with
          | |- Ret (_, ?a, _, _) = Ret (_, ?b, _, _) =>
              replace a with b by lia
          end; reflexivity.
      * cbv beta iota.
        rewrite (ExampleFacts.bind_silent _ _ self col self)
          by reflexivity.
        rewrite (ExampleFacts.bind_silent _ _ self true self)
          by (apply validate_bare; assumption).
        reflexivity.
    + apply nth_error_None in Hcol. lia.
Qed.

Lemma get_all_fits r pattern :
  List.length (get_all r pattern) <= List.length (columns r).
Proof.
  unfold get_all, columns. rewrite !length_map. apply filter_length_le.
Qed.

(** X24. A rule that only names a hashtag rejects nothing: once
    initialised, [validate], [validate_columns] and [validate_row] return
    true for every value, header and row, report nothing, raise nothing and
    leave the rule as it is. *)
Theorem unconstrained_rule_accepts (self : t) :
  unconstrained self = true -> _initialised self = true ->
  (forall raw r c, validate raw r c self = Ret (true, self, [])) /\
  (forall cols, validate_columns cols self = Ret (true, self, [])) /\
  (forall r, validate_row r self = Ret (true, self, [])).
Proof.
  intros Hu Hi.
  destruct (unconstrained_fields self Hu)
    as (Hlo & Hhi & _ & _ & _ & _ & _ & _ & Hreq & _ & Huk & Hck & Hcd).
  split; [intros; apply validate_bare; assumption|]. split.
  - intros cols.
    cbv beta iota zeta delta [validate_columns _check_init bind get_self
                                get_state wants_columns].
    rewrite Hi. cbn [negb ret]. rewrite Hreq, Hlo. reflexivity.
  - intros r. unfold validate_row.
    rewrite (ExampleFacts.bind_silent _ _ self tt self)
      by (cbv beta iota delta [_check_init bind get_self get_state];
          rewrite Hi; reflexivity).
    rewrite (ExampleFacts.bind_silent _ _ self self self) by reflexivity.
    cbv zeta. unfold validate_values, enumerate.
    rewrite (ExampleFacts.bind_silent _ _ self
               (true,
                0 + List.length
                      (filter truthy (get_all r (tag_pattern self))))
               self)
      by (apply validate_values_bare; try assumption;
          apply get_all_fits).
    cbv beta iota zeta delta [check_required check_min_occur check_max_occur
                                check_unique_key bind get_self get_state].
    rewrite Hreq; cbv beta iota delta [andb ret].
    rewrite Hlo; cbv beta iota delta [ret].
    rewrite Hhi; cbv beta iota delta [ret].
    rewrite Huk; cbv beta iota delta [ret].
    rewrite Hck; cbv beta iota delta [ret].
    rewrite Hcd. reflexivity.
Qed.

End WithLib.

Lemma unconstrained_rule_accepts_witness :
  SchemaRule.validate_row (L := Plain.lib) Examples.two_values_row
    Examples.ready_rule
  = Ret (true, Examples.ready_rule, []).
Proof.
  apply (proj2 (proj2 (@unconstrained_rule_accepts Plain.lib
                         Examples.ready_rule eq_refl eq_refl))).
Defined.

End BareExtras.
